(** * The Slurm scheduler backend of ReFrame, embedded in Rocq

    A shallow embedding of [reframe/core/schedulers/slurm.py]: the state
    classifier, the batch-script preamble emitter, submission, the two
    polling back ends (sacct and squeue), the reason-based cancel policy,
    the pending-time limit and the node filter.

    Python values are modelled as follows.
    - [str] is [string]; the model covers the ASCII repertoire.
    - [None]-able attributes are [option]s; truthiness is written out.
    - [int] is [Z]; [//] is [Z.div] (both round towards minus infinity).
    - a [set] of strings is a [gset string]; a [dict] is a [gmap].
    - a [set] of nodes, whose equality and hash go through the node name,
      is a [gmap string Node] from the name to the node object.
    - job objects live in a heap and are handled through references, since
      the scheduler keys its book-keeping on job identity.
    - exceptions and mutation are threaded by a state-and-error monad; the
      outside world (commands, clock) is an oracle over the event trace. *)

From Stdlib Require Import String Ascii ZArith List Lia Bool.
From stdpp Require Import gmap strings list.

Local Open Scope string_scope.
Local Open Scope Z_scope.

(** ** Python string methods *)

Module Py.

(** [str.isspace] on one ASCII character: TAB, LF, VT, FF, CR, the four
    separators FS, GS, RS, US, and the space. *)
Definition isspace (c : ascii) : bool :=
  let n := nat_of_ascii c in
  ((9 <=? n)%nat && (n <=? 13)%nat) || ((28 <=? n)%nat && (n <=? 32)%nat).

Definition isdigit (c : ascii) : bool :=
  let n := nat_of_ascii c in (48 <=? n)%nat && (n <=? 57)%nat.

Definition isalpha (c : ascii) : bool :=
  let n := nat_of_ascii c in
  ((65 <=? n)%nat && (n <=? 90)%nat) || ((97 <=? n)%nat && (n <=? 122)%nat).

(** The class [\w] of the [re] module. *)
Definition isword (c : ascii) : bool :=
  isalpha c || isdigit c || Ascii.eqb c "_".

(** [bool(s)] of a string. *)
Definition truthy (s : string) : bool :=
  match s with EmptyString => false | String _ _ => true end.

(** [bool(v)] of an attribute that is [None] or a string. *)
Definition truthy_opt (v : option string) : bool :=
  match v with Some s => truthy s | None => false end.

(** [s.startswith(p)]. *)
Definition startswith (s p : string) : bool := String.prefix p s.

(** [c in s] for a one-character string [c]. *)
Fixpoint contains_char (c : ascii) (s : string) : bool :=
  match s with
  | EmptyString => false
  | String d s' => Ascii.eqb d c || contains_char c s'
  end.

(** [s.split(sep)] for a one-character separator. *)
Fixpoint split (sep : ascii) (s : string) : list string :=
  match s with
  | EmptyString => [EmptyString]
  | String c s' =>
      if Ascii.eqb c sep then EmptyString :: split sep s'
      else match split sep s' with
           | t :: ts => String c t :: ts
           | [] => [String c EmptyString]
           end
  end.

(** [s.split(sep, maxsplit=1)]: the text before the first separator and,
    when there is a separator, the text after it. *)
Fixpoint split1 (sep : ascii) (s : string) : string * option string :=
  match s with
  | EmptyString => (EmptyString, None)
  | String c s' =>
      if Ascii.eqb c sep then (EmptyString, Some s')
      else let '(h, t) := split1 sep s' in (String c h, t)
  end.

(** [sep.join(l)]. *)
Definition join (sep : string) (l : list string) : string :=
  String.concat sep l.

Fixpoint lstrip (s : string) : string :=
  match s with
  | EmptyString => EmptyString
  | String c s' => if isspace c then lstrip s' else s
  end.

Fixpoint rstrip (s : string) : string :=
  match s with
  | EmptyString => EmptyString
  | String c s' =>
      match rstrip s' with
      | EmptyString => if isspace c then EmptyString else String c EmptyString
      | r => String c r
      end
  end.

(** [s.strip()]. *)
Definition strip (s : string) : string := rstrip (lstrip s).

(** Line boundaries of [str.splitlines] in the ASCII range: LF, VT, FF,
    CR, FS, GS, RS. *)
Definition islinebreak (c : ascii) : bool :=
  let n := nat_of_ascii c in
  ((10 <=? n)%nat && (n <=? 13)%nat) || ((28 <=? n)%nat && (n <=? 30)%nat).

(** [s.splitlines()]: no empty last line, CR LF counts once. *)
Fixpoint splitlines (s : string) : list string :=
  match s with
  | EmptyString => []
  | String c s' =>
      if islinebreak c then
        if Ascii.eqb c "013" then
          match s' with
          | String d s'' =>
              if Ascii.eqb d "010" then EmptyString :: splitlines s''
              else EmptyString :: splitlines s'
          | EmptyString => [EmptyString]
          end
        else EmptyString :: splitlines s'
      else match splitlines s' with
           | l :: ls => String c l :: ls
           | [] => [String c EmptyString]
           end
  end.

(** [int(s)] for a string of decimal digits (what [\d+] captures). *)
Definition int_of_digits (s : string) : Z :=
  fold_left (fun acc c => 10 * acc + Z.of_nat (nat_of_ascii c - 48))
            (list_ascii_of_string s) 0.

Fixpoint digits_of_pos_aux (fuel : nat) (n : Z) (acc : string) : string :=
  match fuel with
  | O => acc
  | S fuel' =>
      let d := ascii_of_nat (48 + Z.to_nat (n mod 10)) in
      if n <? 10 then String d acc
      else digits_of_pos_aux fuel' (n / 10) (String d acc)
  end.

(** [str(n)] of an integer. *)
Definition str_of_int (n : Z) : string :=
  if n <? 0
  then String "-" (digits_of_pos_aux (S (Z.to_nat (Z.log2 (- n)))) (- n) EmptyString)
  else digits_of_pos_aux (S (Z.to_nat (Z.log2 n))) n EmptyString.

(** [str.upper], in the ASCII range. *)
Definition upper_char (c : ascii) : ascii :=
  let n := nat_of_ascii c in
  if ((97 <=? n)%nat && (n <=? 122)%nat)%bool then ascii_of_nat (n - 32)
  else c.

Fixpoint upper (s : string) : string :=
  match s with
  | EmptyString => EmptyString
  | String c s' => String (upper_char c) (upper s')
  end.

End Py.

(** ** The [re] module: a backtracking matcher

    Greedy repetition, ordered alternation and leftmost search, as in
    Python. Groups are recorded under their name, or under their index
    written in decimal when the pattern leaves them unnamed. *)

Module Re.

Inductive regex : Type :=
| Eps
| Chr (p : ascii -> bool)
| Lit (s : string)
| Seq (r1 r2 : regex)
| Alt (r1 r2 : regex)
| Star (r : regex)
| Group (name : string) (r : regex)
| Bol.

(** [r+] and [r?]. *)
Definition Plus (r : regex) : regex := Seq r (Star r).
Definition Opt (r : regex) : regex := Alt r Eps.

(** Concatenation of a whole list of pieces. *)
Definition Cat (rs : list regex) : regex := fold_right Seq Eps rs.

(** The classes used by the scheduler's patterns. *)
Definition digit : regex := Chr Py.isdigit.
Definition space : regex := Chr Py.isspace.
Definition nonspace : regex := Chr (fun c => negb (Py.isspace c)).
Definition word : regex := Chr Py.isword.
Definition anychar : regex := Chr (fun c => negb (Ascii.eqb c "010")).
Definition notchar (x : ascii) : regex := Chr (fun c => negb (Ascii.eqb c x)).

(** A position in the subject: the character before it (for [^]), the text
    still to read, the offset, and the groups closed so far. *)
Record cursor : Type := {
  cur_prev : option ascii;
  cur_rest : string;
  cur_pos : nat;
  cur_groups : list (string * string)
}.

Fixpoint advance (n : nat) (c : cursor) : cursor :=
  match n with
  | O => c
  | S n' =>
      match cur_rest c with
      | EmptyString => c
      | String a s' =>
          advance n' {| cur_prev := Some a; cur_rest := s';
                        cur_pos := S (cur_pos c);
                        cur_groups := cur_groups c |}
      end
  end.

Definition close_group (name : string) (from to : cursor) : cursor :=
  {| cur_prev := cur_prev to; cur_rest := cur_rest to; cur_pos := cur_pos to;
     cur_groups :=
       (name, String.substring 0 (cur_pos to - cur_pos from) (cur_rest from))
         :: cur_groups to |}.

(** The greedy loop of a repetition: one more turn of the body if it
    moves on and the rest then matches, else the continuation from here.
    There are at most as many turns as characters left. *)
Fixpoint star_loop (body : (cursor -> option cursor) -> cursor -> option cursor)
    (k : cursor -> option cursor) (fuel : nat) (c : cursor)
  : option cursor :=
  match fuel with
  | O => k c
  | S fuel' =>
      match body (fun c' => if (cur_pos c <? cur_pos c')%nat
                            then star_loop body k fuel' c' else None) c with
      | Some m => Some m
      | None => k c
      end
  end.

(** [rmatch r k c]: match [r] at [c], then continue with [k]; the first
    success in backtracking order wins. *)
Fixpoint rmatch (r : regex) (k : cursor -> option cursor) (c : cursor)
  : option cursor :=
  match r with
  | Eps => k c
  | Chr p =>
      match cur_rest c with
      | String a _ => if p a then k (advance 1 c) else None
      | EmptyString => None
      end
  | Lit l =>
      if String.prefix l (cur_rest c)
      then k (advance (String.length l) c) else None
  | Seq r1 r2 => rmatch r1 (rmatch r2 k) c
  | Alt r1 r2 =>
      match rmatch r1 k c with
      | Some m => Some m
      | None => rmatch r2 k c
      end
  | Star r1 => star_loop (rmatch r1) k (String.length (cur_rest c)) c
  | Group name r1 => rmatch r1 (fun c' => k (close_group name c c')) c
  | Bol =>
      match cur_prev c with
      | None => k c
      | Some a => if Ascii.eqb a "010" then k c else None
      end
  end.

(** A match object: where it ended and what its groups hold. *)
Record Match : Type := {
  m_groups : list (string * string);
  m_end : cursor
}.

(** [m.group(name)]: [None] when the group took no part in the match. *)
Fixpoint assoc (name : string) (l : list (string * string)) : option string :=
  match l with
  | [] => None
  | (n, v) :: l' => if String.eqb n name then Some v else assoc name l'
  end.

Definition group (m : Match) (name : string) : option string :=
  assoc name (m_groups m).

Definition match_at (r : regex) (c : cursor) : option Match :=
  match rmatch r Some {| cur_prev := cur_prev c; cur_rest := cur_rest c;
                         cur_pos := cur_pos c; cur_groups := [] |} with
  | Some e => Some {| m_groups := cur_groups e; m_end := e |}
  | None => None
  end.

Definition start_of (s : string) : cursor :=
  {| cur_prev := None; cur_rest := s; cur_pos := 0; cur_groups := [] |}.

(** [re.match(r, s)]. *)
Definition match_ (r : regex) (s : string) : option Match :=
  match_at r (start_of s).

Fixpoint search_from (r : regex) (fuel : nat) (c : cursor) : option Match :=
  match match_at r c with
  | Some m => Some m
  | None =>
      match fuel, cur_rest c with
      | S fuel', String _ _ => search_from r fuel' (advance 1 c)
      | _, _ => None
      end
  end.

(** [re.search(r, s)]: the leftmost match. *)
Definition search (r : regex) (s : string) : option Match :=
  search_from r (String.length s) (start_of s).

Fixpoint finditer_from (r : regex) (fuel : nat) (c : cursor) : list Match :=
  match fuel with
  | O => []
  | S fuel' =>
      match search_from r (String.length (cur_rest c)) c with
      | None => []
      | Some m =>
          let e := m_end m in
          let next :=
            {| cur_prev := cur_prev e; cur_rest := cur_rest e;
               cur_pos := cur_pos e; cur_groups := [] |} in
          if (cur_pos c <? cur_pos e)%nat
          then m :: finditer_from r fuel' next
          else match cur_rest e with
               | EmptyString => [m]
               | String _ _ => m :: finditer_from r fuel' (advance 1 next)
               end
      end
  end.

(** [list(re.finditer(r, s, re.MULTILINE))]: the matches from left to
    right, none overlapping. *)
Definition finditer (r : regex) (s : string) : list Match :=
  finditer_from r (S (String.length s)) (start_of s).

End Re.

(** ** State classifier *)

Definition completion_states : gset string :=
  {[ "BOOT_FAIL"; "CANCELLED"; "COMPLETED"; "DEADLINE"; "FAILED";
     "NODE_FAIL"; "OUT_OF_MEMORY"; "PREEMPTED"; "TIMEOUT" ]}.

Definition pending_states : gset string :=
  {[ "COMPLETING"; "CONFIGURING"; "PENDING"; "RESV_DEL_HOLD"; "REQUEUE_FED";
     "REQUEUE_HOLD"; "REQUEUED"; "RESIZING"; "REVOKED"; "SIGNALING";
     "SPECIAL_EXIT"; "STAGE_OUT"; "STOPPED"; "SUSPENDED" ]}.

(** [job.state] is [None] until the first poll; [if state:] rejects both
    [None] and the empty string. *)
Definition slurm_state_completed (state : option string) : bool :=
  match state with
  | Some s =>
      if Py.truthy s
      then forallb (fun t => bool_decide (t ∈ completion_states))
                   (Py.split "," s)
      else false
  | None => false
  end.

Definition slurm_state_pending (state : option string) : bool :=
  match state with
  | Some s =>
      if Py.truthy s
      then existsb (fun t => bool_decide (t ∈ pending_states))
                   (Py.split "," s)
      else false
  | None => false
  end.

(** ** Exceptions

    [JobBlockedError] derives from [JobError]; [SpawnedProcessTimeout]
    derives from [SpawnedProcessError], which is not a [JobError]. *)

Inductive exn : Type :=
| JobError (msg : string) (jobid : option Z)
| JobBlockedError (msg : string) (jobid : option Z)
| SpawnedProcessError (cmd : string)
| SpawnedProcessTimeout (cmd : string)
| KeyError
| TypeError
| ZeroDivisionError
| ValueError
| SystemExit (code : Z).

Definition is_JobError (e : exn) : bool :=
  match e with
  | JobError _ _ | JobBlockedError _ _ => true
  | _ => false
  end.

Definition is_SpawnedProcessError (e : exn) : bool :=
  match e with
  | SpawnedProcessError _ | SpawnedProcessTimeout _ => true
  | _ => false
  end.

Inductive result (A : Type) : Type :=
| Ok (a : A)
| Raise (e : exn).
Arguments Ok {A} a.
Arguments Raise {A} e.

(** ** The [argparse] module

    [ArgumentParser()] with [add_argument] calls that declare one-value
    options, and [parse_known_args]; the model follows CPython 3.11. Only
    the namespace is returned: no caller looks at the left-over
    arguments. *)

Module Argparse.

Inductive ActionKind : Type := Help | Store.

Record Action : Type := {
  option_strings : list string;
  dest : string;
  kind : ActionKind
}.

(** What a one-value option leaves in the namespace: its argument string
    or, when that string was a double dash, the empty list. *)
Inductive value : Type :=
| VStr (s : string)
| VEmptyList.

Abbreviation Namespace := (gmap string value).

Definition truthy (v : option value) : bool :=
  match v with
  | Some (VStr s) => Py.truthy s
  | Some VEmptyList => false
  | None => false
  end.

Definition Parser : Type := list Action.

(** A new parser knows [-h] and [--help]. *)
Definition ArgumentParser : Parser :=
  [ {| option_strings := ["-h"; "--help"]; dest := "help"; kind := Help |} ].

Definition is_long (flag : string) : bool :=
  match flag with
  | String _ (String "-" _) => true
  | _ => false
  end.

Fixpoint lstrip_dash (s : string) : string :=
  match s with
  | String "-" s' => lstrip_dash s'
  | _ => s
  end.

Fixpoint dash_to_underscore (s : string) : string :=
  match s with
  | EmptyString => EmptyString
  | String c s' =>
      String (if Ascii.eqb c "-" then "_"%char else c) (dash_to_underscore s')
  end.

Fixpoint first_long (flags : list string) : option string :=
  match flags with
  | [] => None
  | f :: fs => if is_long f then Some f else first_long fs
  end.

(** The destination is inferred from the first long flag, else from the
    first flag. *)
Definition dest_of (flags : list string) : string :=
  let chosen :=
    match first_long flags with
    | Some f => f
    | None => match flags with f :: _ => f | [] => EmptyString end
    end in
  dash_to_underscore (lstrip_dash chosen).

Definition add_argument (p : Parser) (flags : list string) : Parser :=
  (p ++ [ {| option_strings := flags; dest := dest_of flags;
              kind := Store |} ])%list.

(** [_option_string_actions], in insertion order. *)
Definition option_string_actions (p : Parser) : list (string * Action) :=
  flat_map (fun a => map (fun s => (s, a)) (option_strings a)) p.

Fixpoint lookup_action (s : string) (l : list (string * Action))
  : option Action :=
  match l with
  | [] => None
  | (o, a) :: l' => if String.eqb o s then Some a else lookup_action s l'
  end.

(** How one argument string reads: a positional, or an optional with its
    action (if the parser knows it), its option string and the argument
    glued to it. *)
Inductive parsed : Type :=
| Positional
| Optional (a : option Action) (option_string : string)
           (explicit_arg : option string).

Fixpoint drop_digits (s : string) : string :=
  match s with
  | String c s' => if Py.isdigit c then drop_digits s' else s
  | EmptyString => EmptyString
  end.

(** [$] matches at the end and just before a final line feed. *)
Definition at_dollar (s : string) : bool :=
  match s with
  | EmptyString => true
  | String c EmptyString => Ascii.eqb c "010"
  | _ => false
  end.

(** [_negative_number_matcher], the pattern [^-\d+$|^-\d*\.\d+$]. *)
Definition negative_number_like (s : string) : bool :=
  match s with
  | String "-" t =>
      let r := drop_digits t in
      ((String.length r <? String.length t)%nat && at_dollar r)
      || match r with
         | String "." u =>
             let r2 := drop_digits u in
             (String.length r2 <? String.length u)%nat && at_dollar r2
         | _ => false
         end
  | _ => false
  end.

(** [_get_option_tuples]: the interpretations of an argument string that
    is no option string itself: long options by unambiguous prefix, short
    options with their argument glued on. *)
Definition get_option_tuples (p : Parser) (arg : string)
  : list (Action * string * option string) :=
  match arg with
  | String _ (String "-" _) =>
      let '(option_prefix, explicit_arg) :=
        if Py.contains_char "=" arg then Py.split1 "=" arg else (arg, None) in
      flat_map (fun '(o, a) =>
                  if Py.startswith o option_prefix
                  then [(a, o, explicit_arg)] else [])
               (option_string_actions p)
  | String _ (String _ _) =>
      let short_option_prefix := String.substring 0 2 arg in
      let short_explicit_arg :=
        String.substring 2 (String.length arg - 2) arg in
      flat_map (fun '(o, a) =>
                  if String.eqb o short_option_prefix
                  then [(a, o, Some short_explicit_arg)]
                  else if Py.startswith o arg then [(a, o, None)] else [])
               (option_string_actions p)
  | _ => []
  end.

(** [_parse_optional]; an ambiguous abbreviation is a usage error, which
    leaves through [SystemExit(2)]. *)
Definition parse_optional (p : Parser) (arg : string) : result parsed :=
  match arg with
  | EmptyString => Ok Positional
  | String c rest =>
      if negb (Ascii.eqb c "-") then Ok Positional
      else
        match lookup_action arg (option_string_actions p) with
        | Some a => Ok (Optional (Some a) arg None)
        | None =>
            match rest with
            | EmptyString => Ok Positional
            | _ =>
                let by_equals :=
                  if Py.contains_char "=" arg then
                    let '(o, e) := Py.split1 "=" arg in
                    match lookup_action o (option_string_actions p) with
                    | Some a => Some (Optional (Some a) o e)
                    | None => None
                    end
                  else None in
                match by_equals with
                | Some r => Ok r
                | None =>
                    match get_option_tuples p arg with
                    | _ :: _ :: _ => Raise (SystemExit 2)
                    | [(a, o, e)] => Ok (Optional (Some a) o e)
                    | [] =>
                        if negative_number_like arg then Ok Positional
                        else if Py.contains_char " " arg then Ok Positional
                        else Ok (Optional None arg None)
                    end
                end
            end
        end
  end.

(** The letters of [arg_strings_pattern]: O, A and the dash of the first
    double dash. *)
Inductive tag : Type :=
| TagO (a : option Action) (option_string : string)
       (explicit_arg : option string)
| TagA
| TagDash.

Fixpoint classify (p : Parser) (args : list string)
  : result (list (string * tag)) :=
  match args with
  | [] => Ok []
  | a :: rest =>
      if String.eqb a "--"
      then Ok ((a, TagDash) :: map (fun x => (x, TagA)) rest)
      else
        match parse_optional p a with
        | Raise e => Raise e
        | Ok r =>
            match classify p rest with
            | Raise e => Raise e
            | Ok items =>
                Ok ((a, match r with
                        | Positional => TagA
                        | Optional act o e => TagO act o e
                        end) :: items)
            end
        end
  end.

(** [_get_values] on the one argument string of a one-value option: the
    first double dash is dropped from the list, and a list that is not one
    string long is kept as a list. *)
Definition get_values (arg_string : string) : value :=
  if String.eqb arg_string "--" then VEmptyList else VStr arg_string.

(** [consume_optional]: the loop over options glued after [-h], then the
    actions in the order they were collected. A one-value option without
    a glued argument takes the next string if that is an A, and is a usage
    error otherwise. Printing the help leaves through [SystemExit(0)], so
    a [help] action met on the way decides the outcome once the loop ends
    without a usage error. The result is the new namespace and the number
    of following argument strings used. *)
Fixpoint consume_optional (fuel : nat) (p : Parser) (seen_help : bool)
    (action : option Action) (option_string : string)
    (explicit_arg : option string) (following : list (string * tag))
    (ns : Namespace) : result (Namespace * nat) :=
  match action with
  | None => Ok (ns, O)
  | Some a =>
      match explicit_arg with
      | Some e =>
          match kind a with
          | Store =>
              if seen_help then Raise (SystemExit 0)
              else Ok (<[dest a := get_values e]> ns, O)
          | Help =>
              if is_long option_string then Raise (SystemExit 2)
              else
                match e, fuel with
                | EmptyString, _ => Raise (SystemExit 2)
                | String c e', S fuel' =>
                    let o := String "-" (String c EmptyString) in
                    match lookup_action o (option_string_actions p) with
                    | Some a' =>
                        consume_optional fuel' p true (Some a') o
                          (match e' with
                           | EmptyString => None
                           | _ => Some e'
                           end) following ns
                    | None => Raise (SystemExit 2)
                    end
                | String _ _, O => Raise (SystemExit 2)
                end
          end
      | None =>
          match kind a with
          | Help => Raise (SystemExit 0)
          | Store =>
              match following with
              | (s, TagA) :: _ =>
                  if seen_help then Raise (SystemExit 0)
                  else Ok (<[dest a := get_values s]> ns, 1%nat)
              | _ => Raise (SystemExit 2)
              end
          end
      end
  end.

(** The main loop of [_parse_known_args] for a parser without positional
    arguments: strings that are no option go to the left-overs. *)
Fixpoint consume (fuel : nat) (p : Parser) (items : list (string * tag))
    (ns : Namespace) : result Namespace :=
  match fuel, items with
  | _, [] => Ok ns
  | O, _ => Ok ns
  | S fuel', (a, TagO act o e) :: rest =>
      match consume_optional (String.length a) p false act o e rest ns with
      | Raise x => Raise x
      | Ok (ns', n) => consume fuel' p (drop n rest) ns'
      end
  | S fuel', _ :: rest => consume fuel' p rest ns
  end.

(** [parse_known_args(args)[0]]. *)
Definition parse_known_args (p : Parser) (args : list string)
  : result Namespace :=
  match classify p args with
  | Raise e => Raise e
  | Ok items => consume (length items) p items ∅
  end.

End Argparse.

(** ** The outside world

    Times are microseconds: a [datetime] is the offset from the epoch and
    a [timedelta] a difference of such. Every command, clock reading and
    pause is appended to the trace; what the world answers is a function
    of the trace so far. *)

Inductive event : Type :=
| EvRun (cmd : string) (timeout : option Z)
| EvNow
| EvSleep (duration : Z)
| EvMergeFiles (workdir : string) (out err : option string).

Record CompletedProcess : Type := {
  stdout_of : string;
  returncode : Z
}.

Inductive outcome : Type :=
| Exited (c : CompletedProcess)
| Expired.

Record World : Type := {
  exec : list event -> string -> option Z -> outcome;
  clock : list event -> Z;
  strftime_F : Z -> string
}.

(** ** Jobs and the scheduler object *)

Record Job : Type := {
  name : option string;
  script_filename : string;
  workdir : string;
  stdout : option string;
  stderr : option string;
  num_tasks : option Z;
  num_tasks_per_node : option Z;
  num_tasks_per_core : option Z;
  num_tasks_per_socket : option Z;
  num_cpus_per_task : option Z;
  sched_partition : option string;
  sched_account : option string;
  sched_nodelist : option string;
  sched_exclude_nodelist : option string;
  sched_reservation : option string;
  sched_exclusive_access : option bool;
  sched_access : list string;
  use_smt : option bool;
  time_limit : option Z;
  max_pending_time : option Z;
  options : list string;
  jobid : option Z;
  state : option string;
  exitcode : option Z;
  nodelist : option (list string);
  exception : option exn
}.

(** The five attributes the back end writes. *)
Record JobResults : Type := {
  r_jobid : option Z;
  r_state : option string;
  r_exitcode : option Z;
  r_nodelist : option (list string);
  r_exception : option exn
}.

Definition results_of (j : Job) : JobResults :=
  {| r_jobid := jobid j; r_state := state j; r_exitcode := exitcode j;
     r_nodelist := nodelist j; r_exception := exception j |}.

Definition with_results (j : Job) (r : JobResults) : Job :=
  {| name := name j; script_filename := script_filename j;
     workdir := workdir j; stdout := stdout j; stderr := stderr j;
     num_tasks := num_tasks j; num_tasks_per_node := num_tasks_per_node j;
     num_tasks_per_core := num_tasks_per_core j;
     num_tasks_per_socket := num_tasks_per_socket j;
     num_cpus_per_task := num_cpus_per_task j;
     sched_partition := sched_partition j; sched_account := sched_account j;
     sched_nodelist := sched_nodelist j;
     sched_exclude_nodelist := sched_exclude_nodelist j;
     sched_reservation := sched_reservation j;
     sched_exclusive_access := sched_exclusive_access j;
     sched_access := sched_access j; use_smt := use_smt j;
     time_limit := time_limit j; max_pending_time := max_pending_time j;
     options := options j;
     jobid := r_jobid r; state := r_state r; exitcode := r_exitcode r;
     nodelist := r_nodelist r; exception := r_exception r |}.

Definition set_jobid (v : option Z) (j : Job) : Job :=
  with_results j {| r_jobid := v; r_state := state j;
                    r_exitcode := exitcode j; r_nodelist := nodelist j;
                    r_exception := exception j |}.

Definition set_state (v : option string) (j : Job) : Job :=
  with_results j {| r_jobid := jobid j; r_state := v;
                    r_exitcode := exitcode j; r_nodelist := nodelist j;
                    r_exception := exception j |}.

Definition set_exitcode (v : option Z) (j : Job) : Job :=
  with_results j {| r_jobid := jobid j; r_state := state j;
                    r_exitcode := v; r_nodelist := nodelist j;
                    r_exception := exception j |}.

Definition set_nodelist (v : option (list string)) (j : Job) : Job :=
  with_results j {| r_jobid := jobid j; r_state := state j;
                    r_exitcode := exitcode j; r_nodelist := v;
                    r_exception := exception j |}.

Definition set_exception (v : option exn) (j : Job) : Job :=
  with_results j {| r_jobid := jobid j; r_state := state j;
                    r_exitcode := exitcode j; r_nodelist := nodelist j;
                    r_exception := v |}.

(** A job nobody has touched yet. *)
Definition blank_job : Job :=
  {| name := None; script_filename := EmptyString; workdir := EmptyString;
     stdout := None; stderr := None;
     num_tasks := None; num_tasks_per_node := None;
     num_tasks_per_core := None; num_tasks_per_socket := None;
     num_cpus_per_task := None;
     sched_partition := None; sched_account := None; sched_nodelist := None;
     sched_exclude_nodelist := None; sched_reservation := None;
     sched_exclusive_access := None; sched_access := []; use_smt := None;
     time_limit := None; max_pending_time := None; options := [];
     jobid := None; state := None; exitcode := None; nodelist := None;
     exception := None |}.

#[global] Instance Job_inhabited : Inhabited Job := populate blank_job.

(** The registered class of the scheduler object: [slurm] or [squeue]. *)
Inductive Backend : Type := Sacct | Squeue.

(** A key of the [_is_job_array] dictionary: the code stores under the job
    object and tests membership with the job id. *)
Abbreviation pykey := (nat + option Z)%type.

Record Scheduler : Type := {
  backend : Backend;
  _prefix : string;
  _cancel_reasons : list string;
  _is_cancelling : gset nat;
  _is_job_array : gmap pykey bool;
  _update_state_count : gmap nat Z;
  _submit_time : gmap nat Z;
  _submit_timeout : option Z;
  _use_nodes_opt : bool;
  _squeue_delay : Z;
  _cancelled : gset nat
}.

Definition SACCT_SQUEUE_RATIO : Z := 10.

(** [__init__] of both classes, from the three configuration options. *)
Definition init (b : Backend) (ignore_reqnodenotavail : bool)
    (job_submit_timeout : option Z) (use_nodes_option : bool) : Scheduler :=
  {| backend := b;
     _prefix := "#SBATCH";
     _cancel_reasons :=
       (["FrontEndDown"; "Licenses"; "NodeDown"; "PartitionDown";
         "PartitionInactive"; "PartitionNodeLimit"; "QOSJobLimit";
         "QOSResourceLimit"; "QOSUsageThreshold"]
        ++ (if ignore_reqnodenotavail then [] else ["ReqNodeNotAvail"]))%list;
     _is_cancelling := ∅;
     _is_job_array := ∅;
     _update_state_count := ∅;
     _submit_time := ∅;
     _submit_timeout := job_submit_timeout;
     _use_nodes_opt := use_nodes_option;
     _squeue_delay := 2000000;
     _cancelled := ∅ |}.

(** The mutable part of the scheduler, written through these. *)
Definition with_books (s : Scheduler) (cancelling : gset nat)
    (arrays : gmap pykey bool) (counts times : gmap nat Z)
    (cancelled : gset nat) : Scheduler :=
  {| backend := backend s; _prefix := _prefix s;
     _cancel_reasons := _cancel_reasons s;
     _is_cancelling := cancelling; _is_job_array := arrays;
     _update_state_count := counts; _submit_time := times;
     _submit_timeout := _submit_timeout s;
     _use_nodes_opt := _use_nodes_opt s; _squeue_delay := _squeue_delay s;
     _cancelled := cancelled |}.

(** The program state: the job objects by reference, the scheduler
    object, and the events so far. *)
Record State : Type := {
  heap : gmap nat Job;
  sched : Scheduler;
  trace : list event
}.

(** ** The monad of the embedding: world, state, exceptions *)

Definition M (A : Type) : Type := World -> State -> result A * State.

Definition ret {A : Type} (a : A) : M A := fun _ st => (Ok a, st).

Definition raise {A : Type} (e : exn) : M A := fun _ st => (Raise e, st).

Definition bind {A B : Type} (m : M A) (k : A -> M B) : M B :=
  fun w st =>
    match m w st with
    | (Ok a, st') => k a w st'
    | (Raise e, st') => (Raise e, st')
    end.

Notation "'let*' x ':=' m 'in' k" := (bind m (fun x => k))
  (at level 10, x name, m at level 100, k at level 200).
Notation "m '>>' k" := (bind m (fun _ => k))
  (at level 60, right associativity).

(** A pure computation that may raise. *)
Definition lift {A : Type} (r : result A) : M A := fun _ st => (r, st).

(** [try: m except <class>: h]. *)
Definition try_except {A : Type} (m : M A) (catches : exn -> bool)
    (h : exn -> M A) : M A :=
  fun w st =>
    match m w st with
    | (Raise e, st') => if catches e then h e w st' else (Raise e, st')
    | r => r
    end.

(** [for x in l: body]. *)
Fixpoint for_each {A : Type} (l : list A) (body : A -> M unit) : M unit :=
  match l with
  | [] => ret tt
  | x :: l' => body x >> for_each l' body
  end.

Definition get_job (job : nat) : M Job :=
  fun _ st => (Ok (heap st !!! job), st).

Definition modify_job (job : nat) (f : Job -> Job) : M unit :=
  fun _ st =>
    (Ok tt, {| heap := <[job := f (heap st !!! job)]> (heap st);
               sched := sched st; trace := trace st |}).

Definition get_sched : M Scheduler := fun _ st => (Ok (sched st), st).

Definition put_sched (s : Scheduler) : M unit :=
  fun _ st => (Ok tt, {| heap := heap st; sched := s; trace := trace st |}).

Definition emit (e : event) : M unit :=
  fun _ st =>
    (Ok tt, {| heap := heap st; sched := sched st;
               trace := (trace st ++ [e])%list |}).

(** Modelled from the spec: the command runner [os_ext.run_command] is
    not among the sources. It runs the command and gives its output; with
    [check] a non-zero exit status raises, and a command that outlives its
    timeout raises too. *)
Definition run_command (cmd : string) (check : bool) (timeout : option Z)
  : M CompletedProcess :=
  fun w st =>
    let st' := {| heap := heap st; sched := sched st;
                  trace := (trace st ++ [EvRun cmd timeout])%list |} in
    match exec w (trace st) cmd timeout with
    | Expired => (Raise (SpawnedProcessTimeout cmd), st')
    | Exited c =>
        if check && negb (returncode c =? 0)
        then (Raise (SpawnedProcessError cmd), st')
        else (Ok c, st')
    end.

(** [_run_strict = functools.partial(os_ext.run_command, check=True)]. *)
Definition _run_strict (cmd : string) (timeout : option Z)
  : M CompletedProcess :=
  run_command cmd true timeout.

(** [datetime.now()]. *)
Definition datetime_now : M Z :=
  fun w st =>
    (Ok (clock w (trace st)),
     {| heap := heap st; sched := sched st;
        trace := (trace st ++ [EvNow])%list |}).

(** [time.sleep(d)]. *)
Definition time_sleep (d : Z) : M unit := emit (EvSleep d).

(** ** Nodes *)

Record Node : Type := {
  _name : string;
  _partitions : gset string;
  _active_features : gset string;
  _states : gset string;
  _descr : string
}.

(** The search pattern [<attr_name>=(\S+)]. *)
Definition attribute_patt (attr_name : string) : Re.regex :=
  Re.Seq (Re.Lit (attr_name ++ "=")) (Re.Group "1" (Re.Plus Re.nonspace)).

(** [_extract_attribute(attr_name, node_descr)], without separator. *)
Definition _extract_attribute (attr_name node_descr : string)
  : option string :=
  match Re.search (attribute_patt attr_name) node_descr with
  | Some m => Re.group m "1"
  | None => None
  end.

(** [_extract_attribute(attr_name, node_descr, sep=...)]. *)
Definition _extract_attribute_set (attr_name node_descr : string)
    (sep : ascii) : option (gset string) :=
  match _extract_attribute attr_name node_descr with
  | Some attr => Some (list_to_set (Py.split sep attr))
  | None => None
  end.

(** [_SlurmNode(node_descr)]: a description without a node name is not a
    node. *)
Definition _SlurmNode (node_descr : string) : result Node :=
  match _extract_attribute "NodeName" node_descr with
  | Some n =>
      if Py.truthy n then
        Ok {| _name := n;
              _partitions :=
                default ∅ (_extract_attribute_set "Partitions" node_descr ",");
              _active_features :=
                default ∅ (_extract_attribute_set "ActiveFeatures"
                                                  node_descr ",");
              _states :=
                default ∅ (_extract_attribute_set "State" node_descr "+");
              _descr := node_descr |}
      else Raise (JobError "could not extract NodeName from node description"
                           None)
  | None => Raise (JobError "could not extract NodeName from node description"
                            None)
  end.

Definition down_states : gset string :=
  {[ "DOWN"; "DRAIN"; "MAINT"; "NO_RESPOND" ]}.

Definition is_down (n : Node) : bool :=
  bool_decide (down_states ∩ _states n ≠ ∅).

(** [in_state(state)]: the states asked for are states of the node, and
    the node has partitions, active features and states at all. *)
Definition in_state (n : Node) (state : string) : bool :=
  bool_decide (list_to_set (Py.split "+" (Py.upper state)) ⊆ _states n)
  && bool_decide (_partitions n ≠ ∅)
  && bool_decide (_active_features n ≠ ∅)
  && bool_decide (_states n ≠ ∅).

(** A [set] of nodes. Node equality and hash are those of the name, so a
    set holds one node object per name. *)
Abbreviation NodeSet := (gmap string Node).

(** [nodes.add(n)]: an equal element already there stays. *)
Definition set_add (n : Node) (nodes : NodeSet) : NodeSet :=
  match nodes !! _name n with
  | Some _ => nodes
  | None => <[_name n := n]> nodes
  end.

(** [a &= b]. CPython walks the smaller operand ([b] when the sizes are
    equal) and keeps its elements that are in the other one. *)
Definition set_iand (a b : NodeSet) : NodeSet :=
  if (size a <? size b)%nat
  then filter (fun kv => kv.1 ∈ dom b) a
  else filter (fun kv => kv.1 ∈ dom a) b.

(** [a -= b]. *)
Definition set_isub (a b : NodeSet) : NodeSet :=
  filter (fun kv => kv.1 ∉ dom b) a.

(** [_create_nodes(descriptions)]; [suppress(JobError)] skips the
    descriptions that are no node. *)
Definition _create_nodes (descriptions : list string) : NodeSet :=
  fold_left (fun nodes descr =>
               match _SlurmNode descr with
               | Ok n => set_add n nodes
               | Raise _ => nodes
               end) descriptions ∅.

(** ** Preamble emitter *)

(** The double-quote character, as a string. *)
Definition dquote : string := String "034" EmptyString.

(** [fmt.format(arg)] for a format whose only field is [{0}]. *)
Fixpoint format (fmt arg : string) : string :=
  match fmt with
  | EmptyString => EmptyString
  | String "{" (String "0" (String "}" rest)) => arg +:+ format rest arg
  | String c rest => String c (format rest arg)
  end.

(** [str(v)] of a job id, which may still be [None]. *)
Definition str_of_jobid (v : option Z) : string :=
  match v with Some n => Py.str_of_int n | None => "None" end.

Definition _format_option (self : Scheduler) (var : option string)
    (option : string) : string :=
  match var with
  | Some v => _prefix self +:+ " " +:+ format option v
  | None => EmptyString
  end.

(** [str.startswith(('-C', '--constraint'))]. *)
Definition is_constraint_opt (opt : string) : bool :=
  Py.startswith (Py.strip opt) "-C"
  || Py.startswith (Py.strip opt) "--constraint".

(** The pattern [(#\w+)] of the option prefixes. *)
Definition prefix_patt : Re.regex :=
  Re.Group "1" (Re.Seq (Re.Lit "#") (Re.Plus Re.word)).

Definition array_parser : Argparse.Parser :=
  Argparse.add_argument Argparse.ArgumentParser ["-a"; "--array"].

Definition constraint_parser : Argparse.Parser :=
  Argparse.add_argument Argparse.ArgumentParser ["-C"; "--constraint"].

(** [is_array(job)]. The membership test is on [job.jobid], the entries
    are stored under the job object. *)
Definition is_array (job : nat) : M bool :=
  let* j := get_job job in
  let* self := get_sched in
  let* _ :=
    (if bool_decide (inr (jobid j) ∉ dom (_is_job_array self)) then
       let* parsed_args :=
         lift (Argparse.parse_known_args array_parser (options j)) in
       let jobs_array := parsed_args !! "array" in
       put_sched (with_books self (_is_cancelling self)
                    (<[inl job := Argparse.truthy jobs_array]>
                       (_is_job_array self))
                    (_update_state_count self) (_submit_time self)
                    (_cancelled self))
     else ret tt) in
  let* self := get_sched in
  match _is_job_array self !! inl job with
  | Some b => ret b
  | None => raise KeyError
  end.

(** Modelled from the spec: [seconds_to_hms] of [reframe.utility] is not
    among the sources; the time limit is written as hours, minutes and
    seconds. Time limits are whole seconds here. *)
Definition seconds_to_hms (seconds : Z) : Z * Z * Z :=
  let m := seconds / 60 in
  (m / 60, m mod 60, seconds mod 60).

(** [parsed_options.constraint], stripped, if it is a non-empty string. *)
Definition stripped_if_set (v : option Argparse.value) : list string :=
  match v with
  | Some (Argparse.VStr c) => if Py.truthy c then [Py.strip c] else []
  | _ => []
  end.

Definition emit_preamble (job : nat) : M (list string) :=
  let* j := get_job job in
  let* self := get_sched in
  let fo := _format_option self in
  let preamble :=
    [ fo (name j) ("--job-name=" +:+ dquote +:+ "{0}" +:+ dquote);
      fo (Py.str_of_int <$> num_tasks j) "--ntasks={0}";
      fo (Py.str_of_int <$> num_tasks_per_node j) "--ntasks-per-node={0}";
      fo (Py.str_of_int <$> num_tasks_per_core j) "--ntasks-per-core={0}";
      fo (Py.str_of_int <$> num_tasks_per_socket j)
         "--ntasks-per-socket={0}";
      fo (Py.str_of_int <$> num_cpus_per_task j) "--cpus-per-task={0}";
      fo (sched_partition j) "--partition={0}";
      fo (sched_account j) "--account={0}";
      fo (sched_nodelist j) "--nodelist={0}";
      fo (sched_exclude_nodelist j) "--exclude={0}";
      fo (sched_reservation j) "--reservation={0}" ] in
  let* arr := is_array job in
  let outfile_fmt := "--output={0}" +:+ (if arr then "_%a" else "") in
  let* arr := is_array job in
  let errfile_fmt := "--error={0}" +:+ (if arr then "_%a" else "") in
  let preamble :=
    (preamble ++ [fo (stdout j) outfile_fmt; fo (stderr j) errfile_fmt])%list in
  let preamble :=
    match time_limit j with
    | Some t =>
        let '(h, m, s) := seconds_to_hms t in
        (preamble
         ++ [fo (Some (Py.str_of_int h +:+ ":" +:+ Py.str_of_int m +:+ ":"
                       +:+ Py.str_of_int s)) "--time={0}"])%list
    | None => preamble
    end in
  let preamble :=
    match sched_exclusive_access j with
    | Some true => (preamble ++ [fo (Some "True") "--exclusive"])%list
    | _ => preamble
    end in
  let* preamble :=
    (if _use_nodes_opt self then
       match num_tasks j, num_tasks_per_node j with
       | Some n, Some d =>
           if d =? 0 then raise ZeroDivisionError
           else ret (preamble
                     ++ [fo (Some (Py.str_of_int (n / d))) "--nodes={0}"])%list
       | _, _ => raise TypeError
       end
     else ret preamble) in
  let hint :=
    match use_smt j with
    | None => None
    | Some b => Some (if b then "multithread" else "nomultithread")
    end in
  let preamble :=
    (preamble
     ++ map (fun opt => _prefix self +:+ " " +:+ opt)
            (filter (fun opt => Is_true (negb (is_constraint_opt opt)))
                    (sched_access j)))%list in
  let* parsed_options :=
    lift (Argparse.parse_known_args constraint_parser (sched_access j)) in
  let constraints := stripped_if_set (parsed_options !! "constraint") in
  let* parsed_options :=
    lift (Argparse.parse_known_args constraint_parser (options j)) in
  let constraints :=
    (constraints ++ stripped_if_set (parsed_options !! "constraint"))%list in
  let preamble :=
    match constraints with
    | [] => preamble
    | _ :: _ =>
        (preamble
         ++ [fo (Some (Py.join "&" constraints)) "--constraint={0}"])%list
    end in
  let preamble := (preamble ++ [fo hint "--hint={0}"])%list in
  let preamble :=
    (preamble
     ++ map (fun opt =>
               match Re.match_ prefix_patt opt with
               | None => _prefix self +:+ " " +:+ opt
               | Some _ => opt
               end)
            (filter (fun opt => Is_true (negb (is_constraint_opt opt)))
                    (options j)))%list in
  ret (filter (fun l => Is_true (Py.truthy l)) preamble).

(** ** Submission *)

(** The pattern [Submitted batch job (?P<jobid>\d+)]. *)
Definition jobid_patt : Re.regex :=
  Re.Seq (Re.Lit "Submitted batch job ")
         (Re.Group "jobid" (Re.Plus Re.digit)).

Definition submit (job : nat) : M unit :=
  let* j := get_job job in
  let* self := get_sched in
  let cmd := "sbatch " +:+ script_filename j in
  let* completed := _run_strict cmd (_submit_timeout self) in
  match Re.search jobid_patt (stdout_of completed) with
  | None =>
      raise (JobError "could not retrieve the job id of the submitted job"
                      None)
  | Some jobid_match =>
      let* _ :=
        modify_job job
          (set_jobid (Some (Py.int_of_digits
                              (default EmptyString
                                 (Re.group jobid_match "jobid"))))) in
      let* self := get_sched in
      let* _ :=
        put_sched (with_books self (_is_cancelling self) (_is_job_array self)
                     (<[job := 0]> (_update_state_count self))
                     (_submit_time self) (_cancelled self)) in
      let* now := datetime_now in
      let* self := get_sched in
      put_sched (with_books self (_is_cancelling self) (_is_job_array self)
                   (_update_state_count self)
                   (<[job := now]> (_submit_time self)) (_cancelled self))
  end.

(** ** Node discovery and filter *)

Definition allnodes : M NodeSet :=
  let* completed :=
    try_except (_run_strict "scontrol -a show -o nodes" None)
      is_SpawnedProcessError
      (fun _ => raise (JobError "could not retrieve node information" None)) in
  let node_descriptions := Py.splitlines (stdout_of completed) in
  ret (_create_nodes node_descriptions).

(** The pattern [PartitionName=(?P<partition>\S+)\s+.*Default=YES.*]. *)
Definition default_partition_patt : Re.regex :=
  Re.Cat [ Re.Lit "PartitionName=";
           Re.Group "partition" (Re.Plus Re.nonspace);
           Re.Plus Re.space;
           Re.Star Re.anychar;
           Re.Lit "Default=YES";
           Re.Star Re.anychar ].

Definition _get_default_partition : M (option string) :=
  let* completed := _run_strict "scontrol -a show -o partitions" None in
  match Re.search default_partition_patt (stdout_of completed) with
  | Some partition_match => ret (Re.group partition_match "partition")
  | None => ret None
  end.

(** The pattern [(Nodes=\S+)]. *)
Definition reservation_nodes_patt : Re.regex :=
  Re.Group "1" (Re.Seq (Re.Lit "Nodes=") (Re.Plus Re.nonspace)).

Definition _get_reservation_nodes (reservation : string) : M NodeSet :=
  let* completed :=
    _run_strict ("scontrol -a show res " +:+ reservation) None in
  match Re.search reservation_nodes_patt (stdout_of completed) with
  | None =>
      raise (JobError ("could not extract the node names for reservation '"
                       +:+ reservation +:+ "'") None)
  | Some node_match =>
      let reservation_nodes := default EmptyString (Re.group node_match "1") in
      let* completed :=
        _run_strict ("scontrol -a show -o " +:+ reservation_nodes) None in
      let node_descriptions := Py.splitlines (stdout_of completed) in
      ret (_create_nodes node_descriptions)
  end.

Definition _get_nodes_by_name (nodespec : string) : M NodeSet :=
  let* completed :=
    run_command ("scontrol -a show -o node " +:+ nodespec) false None in
  let node_descriptions := Py.splitlines (stdout_of completed) in
  ret (_create_nodes node_descriptions).

Definition filter_parser : Argparse.Parser :=
  fold_left Argparse.add_argument
    [ ["--reservation"]; ["-p"; "--partition"]; ["-w"; "--nodelist"];
      ["-C"; "--constraint"]; ["-x"; "--exclude"] ]
    Argparse.ArgumentParser.

(** The option list of [filternodes]: the access options, the job
    options, and one option per scheduling attribute that is set. *)
Definition filter_options (j : Job) : list string :=
  let add (v : option string) (flag : string) : list string :=
    if Py.truthy_opt v then [flag +:+ default EmptyString v] else [] in
  (sched_access j ++ options j
   ++ add (sched_partition j) "--partition="
   ++ add (sched_account j) "--account="
   ++ add (sched_nodelist j) "--nodelist="
   ++ add (sched_exclude_nodelist j) "--exclude="
   ++ add (sched_reservation j) "--reservation=")%list.

(** A parsed option that passes [if v:], as a string. *)
Definition if_set (v : option Argparse.value) : option string :=
  match v with
  | Some (Argparse.VStr c) => if Py.truthy c then Some c else None
  | _ => None
  end.

(** The five steps of [filternodes], each on the node set left by the
    one before. *)
Definition filter_reservation (reservation : option Argparse.value)
    (nodes : NodeSet) : M NodeSet :=
  match if_set reservation with
  | Some reservation =>
      let reservation := Py.strip reservation in
      let* found := _get_reservation_nodes reservation in
      ret (set_iand nodes found)
  | None => ret nodes
  end.

Definition filter_partitions (partitions : option Argparse.value)
    (nodes : NodeSet) : M NodeSet :=
  let* partitions :=
    match if_set partitions with
    | Some partitions =>
        ret (list_to_set (Py.split "," (Py.strip partitions)) : gset string)
    | None =>
        let* default_partition := _get_default_partition in
        ret (if Py.truthy_opt default_partition
             then {[ default EmptyString default_partition ]} else ∅)
    end in
  ret (filter (fun kv => partitions ⊆ _partitions kv.2) nodes).

Definition filter_constraints (constraints : option Argparse.value)
    (nodes : NodeSet) : M NodeSet :=
  match if_set constraints with
  | Some constraints =>
      let constraints : gset string :=
        list_to_set (Py.split "&" (Py.strip constraints)) in
      ret (filter (fun kv => constraints ⊆ _active_features kv.2) nodes)
  | None => ret nodes
  end.

Definition filter_nodelist (nodelist : option Argparse.value)
    (nodes : NodeSet) : M NodeSet :=
  match if_set nodelist with
  | Some nodelist =>
      let nodelist := Py.strip nodelist in
      let* found := _get_nodes_by_name nodelist in
      ret (set_iand nodes found)
  | None => ret nodes
  end.

Definition filter_exclude (exclude_nodes : option Argparse.value)
    (nodes : NodeSet) : M NodeSet :=
  match if_set exclude_nodes with
  | Some exclude_nodes =>
      let exclude_nodes := Py.strip exclude_nodes in
      let* found := _get_nodes_by_name exclude_nodes in
      ret (set_isub nodes found)
  | None => ret nodes
  end.

Definition filternodes (job : nat) (nodes : NodeSet) : M NodeSet :=
  let* j := get_job job in
  let options := filter_options j in
  let* parsed_args :=
    lift (Argparse.parse_known_args filter_parser options) in
  let* nodes := filter_reservation (parsed_args !! "reservation") nodes in
  let* nodes := filter_partitions (parsed_args !! "partition") nodes in
  let* nodes := filter_constraints (parsed_args !! "constraint") nodes in
  let* nodes := filter_nodelist (parsed_args !! "nodelist") nodes in
  filter_exclude (parsed_args !! "exclude") nodes.

(** [_set_nodelist(job, nodespec)]; the names come in the iteration order
    of the node set. *)
Definition _set_nodelist (job : nat) (nodespec : string) : M unit :=
  let* j := get_job job in
  match nodelist j with
  | Some _ => ret tt
  | None =>
      if Py.truthy nodespec && negb (String.eqb nodespec "None assigned")
      then
        let* nodes := _get_nodes_by_name nodespec in
        modify_job job (set_nodelist (Some (map (fun kv => _name kv.2)
                                                (map_to_list nodes))))
      else ret tt
  end.

(** ** Cancellation *)

(** [SlurmJobScheduler.cancel]. *)
Definition SlurmJobScheduler_cancel (job : nat) : M unit :=
  let* j := get_job job in
  let* self := get_sched in
  let* _ :=
    _run_strict ("scancel " +:+ str_of_jobid (jobid j))
                (_submit_timeout self) in
  let* self := get_sched in
  put_sched (with_books self ({[ job ]} ∪ _is_cancelling self)
               (_is_job_array self) (_update_state_count self)
               (_submit_time self) (_cancelled self)).

(** [SqueueJobScheduler.cancel]: the base method, then the mark. *)
Definition SqueueJobScheduler_cancel (job : nat) : M unit :=
  let* _ := SlurmJobScheduler_cancel job in
  let* self := get_sched in
  put_sched (with_books self (_is_cancelling self) (_is_job_array self)
               (_update_state_count self) (_submit_time self)
               ({[ job ]} ∪ _cancelled self)).

(** [self.cancel(job)], by the class of the scheduler object. *)
Definition cancel (job : nat) : M unit :=
  let* self := get_sched in
  match backend self with
  | Sacct => SlurmJobScheduler_cancel job
  | Squeue => SqueueJobScheduler_cancel job
  end.

(** The pattern [UnavailableNodes:(?P<node_names>\S+)?]. *)
Definition unavailable_nodes_patt : Re.regex :=
  Re.Seq (Re.Lit "UnavailableNodes:")
         (Re.Opt (Re.Group "node_names" (Re.Plus Re.nonspace))).

(** The message of the [JobBlockedError]. *)
Definition reason_msg (reason : string) (reason_details : option string)
  : string :=
  "job cancelled because it was blocked due to a perhaps non-recoverable reason: "
  +:+ reason
  +:+ match reason_details with
      | Some d => ", " +:+ d
      | None => EmptyString
      end.

Definition _check_and_cancel (job : nat) (reason_descr : string) : M unit :=
  let '(reason, reason_details) := Py.split1 "," reason_descr in
  let blocked : M unit :=
    let* _ := cancel job in
    let* j := get_job job in
    raise (JobBlockedError (reason_msg reason reason_details) (jobid j)) in
  let* self := get_sched in
  if existsb (String.eqb reason) (_cancel_reasons self) then
    if String.eqb reason "ReqNodeNotAvail" && Py.truthy_opt reason_details
    then
      match Re.match_ unavailable_nodes_patt
                      (Py.strip (default EmptyString reason_details)) with
      | Some node_match =>
          let node_names := Re.group node_match "node_names" in
          if Py.truthy_opt node_names then
            let* nodes :=
              _get_nodes_by_name (default EmptyString node_names) in
            if negb (existsb (fun kv => is_down kv.2) (map_to_list nodes))
            then ret tt
            else blocked
          else ret tt
      | None => blocked
      end
    else blocked
  else ret tt.

Definition _cancel_if_blocked (job : nat) : M unit :=
  let* j := get_job job in
  let* self := get_sched in
  if bool_decide (job ∈ _is_cancelling self)
     || negb (slurm_state_pending (state j))
  then ret tt
  else
    let* completed :=
      _run_strict ("squeue -h -j " +:+ str_of_jobid (jobid j) +:+ " -o %r")
                  None in
    if negb (Py.truthy (stdout_of completed)) then ret tt
    else for_each (Py.splitlines (stdout_of completed))
                  (_check_and_cancel job).

(** ** Polling *)

(** [_state_patt], for plain jobs and for job arrays. *)
Definition _state_patt : Re.regex :=
  Re.Seq (Re.Plus Re.digit)
    (Re.Opt
       (Re.Alt (Re.Seq (Re.Lit "_") (Re.Plus Re.digit))
               (Re.Cat [ Re.Lit "_["; Re.Plus Re.digit; Re.Lit "-";
                         Re.Plus Re.digit; Re.Lit "]" ]))).

(** The line pattern of the [sacct] poll; its third group has no name. *)
Definition sacct_patt : Re.regex :=
  Re.Cat [ Re.Bol;
           Re.Group "jobid" _state_patt;
           Re.Lit "|";
           Re.Group "state" (Re.Plus Re.nonspace);
           Re.Group "3" (Re.Star (Re.notchar "|"));
           Re.Lit "|";
           Re.Group "exitcode" (Re.Plus Re.digit);
           Re.Lit ":";
           Re.Group "signal" (Re.Plus Re.digit);
           Re.Lit "|";
           Re.Group "nodespec" (Re.Star Re.anychar) ].

(** The line pattern of the [squeue] poll. *)
Definition squeue_patt : Re.regex :=
  Re.Cat [ Re.Bol;
           Re.Group "jobid" _state_patt;
           Re.Lit "|";
           Re.Group "state" (Re.Plus Re.nonspace);
           Re.Lit "|";
           Re.Group "nodespec" (Re.Star Re.nonspace);
           Re.Lit "|";
           Re.Group "reason" (Re.Plus Re.anychar) ].

(** [m.group(name)] of a group that every match of its pattern fills. *)
Definition group_ (m : Re.Match) (name : string) : string :=
  default EmptyString (Re.group m name).

(** The base job id of a match: [int(s.group('jobid').split('_')[0])]. *)
Definition base_jobid (s : Re.Match) : Z :=
  Py.int_of_digits (hd EmptyString (Py.split "_" (group_ s "jobid"))).

(** [jobs_info]: the matches by base job id, in match order. *)
Definition group_matches (state_match : list Re.Match)
  : gmap Z (list Re.Match) :=
  fold_left (fun jobs_info s =>
               <[base_jobid s :=
                   (default [] (jobs_info !! base_jobid s) ++ [s])%list]>
                 jobs_info)
            state_match ∅.

(** [jobs_info[job.jobid]], where a missing key is a [KeyError]. *)
Definition info_of (jobs_info : gmap Z (list Re.Match)) (j : Job)
  : option (list Re.Match) :=
  match jobid j with
  | Some n => jobs_info !! n
  | None => None
  end.

(** [d[job]] on a book-keeping dictionary. *)
Definition book (d : gmap nat Z) (job : nat) : M Z :=
  match d !! job with
  | Some v => ret v
  | None => raise KeyError
  end.

(** [[d[job] for job in jobs]]. *)
Fixpoint books (d : gmap nat Z) (jobs : list nat) : M (list Z) :=
  match jobs with
  | [] => ret []
  | job :: jobs' =>
      let* v := book d job in
      let* vs := books d jobs' in
      ret (v :: vs)
  end.

(** [max] and [min] of a sequence of integers. *)
Definition py_max (l : list Z) : result Z :=
  match l with
  | [] => Raise ValueError
  | x :: l' => Ok (fold_left Z.max l' x)
  end.

Definition py_min (l : list Z) : result Z :=
  match l with
  | [] => Raise ValueError
  | x :: l' => Ok (fold_left Z.min l' x)
  end.

(** The body of the last loop of the [sacct] poll. *)
Definition sacct_update (jobs_info : gmap Z (list Re.Match)) (job : nat)
  : M unit :=
  let* j := get_job job in
  match info_of jobs_info j with
  | None => ret tt
  | Some jobarr_info =>
      let* _ :=
        modify_job job
          (set_state (Some (Py.join ","
                              (map (fun m => group_ m "state") jobarr_info)))) in
      let* self := get_sched in
      let* update_count := book (_update_state_count self) job in
      let* _ :=
        (if update_count mod SACCT_SQUEUE_RATIO =? 0
         then _cancel_if_blocked job else ret tt) in
      let* j := get_job job in
      let* _ :=
        (if slurm_state_completed (state j) then
           let* worst :=
             lift (py_max (map (fun m => Py.int_of_digits
                                           (group_ m "exitcode"))
                               jobarr_info)) in
           modify_job job (set_exitcode (Some worst))
         else ret tt) in
      _set_nodelist job
        (Py.join "," (map (fun m => group_ m "nodespec") jobarr_info))
  end.

(** [SlurmJobScheduler.poll] on the jobs given. *)
Definition SlurmJobScheduler_poll (jobs : list nat) : M unit :=
  match jobs with
  | [] => ret tt
  | _ :: _ =>
      let* self := get_sched in
      let* times := books (_submit_time self) jobs in
      let* start_time := lift (py_min times) in
      let* jobids :=
        (fun w st =>
           (Ok (map (fun job => str_of_jobid (jobid (heap st !!! job))) jobs),
            st)) in
      let* completed :=
        (fun w st =>
           _run_strict ("sacct -S " +:+ strftime_F w start_time
                        +:+ " -P -j " +:+ Py.join "," jobids
                        +:+ " -o jobid,state,exitcode,nodelist") None w st) in
      let* _ :=
        for_each jobs
          (fun job =>
             let* self := get_sched in
             let* n := book (_update_state_count self) job in
             put_sched (with_books self (_is_cancelling self)
                          (_is_job_array self)
                          (<[job := n + 1]> (_update_state_count self))
                          (_submit_time self) (_cancelled self))) in
      match Re.finditer sacct_patt (stdout_of completed) with
      | [] => ret tt
      | state_match =>
          for_each jobs (sacct_update (group_matches state_match))
      end
  end.

(** The body of the last loop of the [squeue] poll. *)
Definition squeue_update (jobs_info : gmap Z (list Re.Match)) (job : nat)
  : M unit :=
  let* j := get_job job in
  match info_of jobs_info j with
  | None =>
      let* self := get_sched in
      let* _ :=
        modify_job job
          (set_state (Some (if bool_decide (job ∈ _cancelled self)
                            then "CANCELLED" else "COMPLETED"))) in
      let* j := get_job job in
      match exitcode j with
      | None => modify_job job (set_exitcode (Some 0))
      | Some _ => ret tt
      end
  | Some job_match =>
      let* _ :=
        modify_job job
          (set_state (Some (Py.join ","
                              (map (fun s => group_ s "state") job_match)))) in
      let* self := get_sched in
      let* j := get_job job in
      if negb (bool_decide (job ∈ _is_cancelling self))
         && negb (slurm_state_pending (state j))
      then for_each job_match
             (fun s => _check_and_cancel job (group_ s "reason"))
      else ret tt
  end.

(** [SqueueJobScheduler.poll] on the jobs given. *)
Definition SqueueJobScheduler_poll (jobs : list nat) : M unit :=
  match jobs with
  | [] => ret tt
  | _ :: _ =>
      let* self := get_sched in
      let* times := books (_submit_time self) jobs in
      let* m := lift (py_max times) in
      let* now := datetime_now in
      let time_from_last_submit := now - m in
      let rem_wait := _squeue_delay self - time_from_last_submit in
      let* _ := (if 0 <? rem_wait then time_sleep rem_wait else ret tt) in
      let* jobids :=
        (fun w st =>
           (Ok (map (fun job => str_of_jobid (jobid (heap st !!! job))) jobs),
            st)) in
      let* completed :=
        run_command ("squeue -h -j " +:+ Py.join "," jobids +:+ " -o "
                     +:+ dquote +:+ "%i|%T|%N|%r" +:+ dquote) false None in
      let state_match := Re.finditer squeue_patt (stdout_of completed) in
      for_each jobs (squeue_update (group_matches state_match))
  end.

(** [self.poll], by the class of the scheduler object. *)
Definition poll (jobs : list nat) : M unit :=
  let* self := get_sched in
  match backend self with
  | Sacct => SlurmJobScheduler_poll jobs
  | Squeue => SqueueJobScheduler_poll jobs
  end.

(** ** Waiting and completion *)

(** [_merge_files(job)] works on the file system only. *)
Definition _merge_files (job : nat) : M unit :=
  let* j := get_job job in
  emit (EvMergeFiles (workdir j) (stdout j) (stderr j)).

(** The pending-time limit, a block that [wait] has in its loop and
    [finished] before its result. A zero [timedelta] is false. *)
Definition enforce_max_pending_time (job : nat) : M unit :=
  let* j := get_job job in
  let limit_set :=
    match max_pending_time j with
    | Some d => negb (d =? 0)
    | None => false
    end in
  if limit_set && slurm_state_pending (state j) then
    let* now := datetime_now in
    let* self := get_sched in
    let* submitted := book (_submit_time self) job in
    if default 0 (max_pending_time j) <=? now - submitted then
      let* _ := cancel job in
      let* j := get_job job in
      raise (JobError "maximum pending time exceeded" (jobid j))
    else ret tt
  else ret tt.

(** One turn of the loop of [wait]; [i] counts the turns, for the cycle
    of pauses of one, two and three seconds. *)
Definition wait_body (job : nat) (i : nat) : M unit :=
  let* _ := enforce_max_pending_time job in
  let* _ := time_sleep (1000000 * nth (i mod 3) [1; 2; 3] 1) in
  poll [job].

(** The loop of [wait], for at most [fuel] turns: [true] when the loop
    was left, [false] when the turns ran out. *)
Fixpoint wait_loop (fuel : nat) (job : nat) (i : nat) : M bool :=
  let* j := get_job job in
  if slurm_state_completed (state j) then ret true
  else
    match fuel with
    | O => ret false
    | S fuel' =>
        let* _ := wait_body job i in
        wait_loop fuel' job (S i)
    end.

Definition wait (fuel : nat) (job : nat) : M bool :=
  let merge : M unit :=
    let* arr := is_array job in
    if arr then _merge_files job else ret tt in
  let* j := get_job job in
  if slurm_state_completed (state j) then
    let* _ := merge in ret true
  else
    let* _ := poll [job] in
    let* left := wait_loop fuel job 0 in
    if left then let* _ := merge in ret true else ret false.

Definition finished (job : nat) : M bool :=
  let* j := get_job job in
  let* go_on :=
    match exception j with
    | Some e =>
        let* _ := modify_job job (set_exception None) in
        match e with
        | JobBlockedError _ _ => raise e
        | JobError _ _ => ret false
        | _ => raise e
        end
    | None => ret true
    end in
  if go_on then
    let* _ := enforce_max_pending_time job in
    let* j := get_job job in
    ret (slurm_state_completed (state j))
  else ret false.

(** ** Reading a value after a key, directly on the string

    What the patterns of the form key, then one or more characters of a
    class, find: these functions say it without the matcher, and the
    matcher is proved to agree with them. *)

Fixpoint take_while (p : ascii -> bool) (s : string) : string :=
  match s with
  | String a s' => if p a then String a (take_while p s') else EmptyString
  | EmptyString => EmptyString
  end.

Fixpoint drop_while (p : ascii -> bool) (s : string) : string :=
  match s with
  | String a s' => if p a then drop_while p s' else s
  | EmptyString => EmptyString
  end.

Fixpoint string_drop (n : nat) (s : string) : string :=
  match n, s with
  | S n', String _ s' => string_drop n' s'
  | _, _ => s
  end.

(** The value right at the start of [s]: [s] starts with the key and goes
    on with at least one character of the class; the value is the longest
    run of them. *)
Definition value_after (key : string) (p : ascii -> bool) (s : string)
  : option string :=
  if String.prefix key s then
    match take_while p (string_drop (String.length key) s) with
    | EmptyString => None
    | v => Some v
    end
  else None.

(** The value at the first place of [s] that has one. *)
Fixpoint find_value (key : string) (p : ascii -> bool) (s : string)
  : option string :=
  match value_after key p s with
  | Some v => Some v
  | None =>
      match s with
      | String _ s' => find_value key p s'
      | EmptyString => None
      end
  end.

(** Every character of [s] is in the class. *)
Fixpoint all_chars (p : ascii -> bool) (s : string) : bool :=
  match s with
  | String a s' => p a && all_chars p s'
  | EmptyString => true
  end.

(** [s] holds a value at offset [n]: from there it reads the key, the
    value [v] (not empty, in the class), and goes on with the end of the
    string or a character outside the class. *)
Definition value_at (key : string) (p : ascii -> bool) (s : string)
    (n : nat) (v : string) : Prop :=
  exists pre post,
    s = pre +:+ key +:+ v +:+ post /\ String.length pre = n /\
    v <> EmptyString /\ all_chars p v = true /\
    take_while p post = EmptyString.

(** ** A scripted world for worked examples *)

Module Example.

(** The world answers a command by the first entry of the script whose
    key starts the command line, and with empty output and status zero
    when there is none; the clock stands still. *)
Definition scripted (script : list (string * (string * Z))) (now : Z)
  : World :=
  {| exec := fun _ cmd _ =>
               match find (fun e => Py.startswith cmd e.1) script with
               | Some e => Exited {| stdout_of := e.2.1; returncode := e.2.2 |}
               | None => Exited {| stdout_of := EmptyString; returncode := 0 |}
               end;
     clock := fun _ => now;
     strftime_F := fun _ => "2020-01-01" |}.

(** A job as a test would request it. *)
Definition requested (tasks tasks_per_node : option Z)
    (access opts : list string) (pending_limit : option Z) : Job :=
  {| name := Some "check"; script_filename := "check.sh"; workdir := "/w";
     stdout := Some "/w/out"; stderr := Some "/w/err";
     num_tasks := tasks; num_tasks_per_node := tasks_per_node;
     num_tasks_per_core := None; num_tasks_per_socket := None;
     num_cpus_per_task := None;
     sched_partition := None; sched_account := None; sched_nodelist := None;
     sched_exclude_nodelist := None; sched_reservation := None;
     sched_exclusive_access := None; sched_access := access; use_smt := None;
     time_limit := None; max_pending_time := pending_limit; options := opts;
     jobid := None; state := None; exitcode := None; nodelist := None;
     exception := None |}.

(** The same job once submitted under an id and polled into a state. *)
Definition running (j : Job) (id : Z) (st : option string) : Job :=
  set_state st (set_jobid (Some id) j).

(** A scheduler of class [b] that has submitted the jobs given, each at
    time zero, and nothing else. *)
Definition submitted (b : Backend) (ignore_reqnodenotavail use_nodes : bool)
    (jobs : list Job) : State :=
  let refs := seq 0 (length jobs) in
  let self := init b ignore_reqnodenotavail None use_nodes in
  {| heap := list_to_map (zip refs jobs);
     sched := with_books self ∅ ∅
                (list_to_map (map (fun r => (r, 0)) refs))
                (list_to_map (map (fun r => (r, 0)) refs)) ∅;
     trace := [] |}.

End Example.

(** The classifier, the string methods and the matcher are kept folded
    when a goal is simplified. *)
#[global] Arguments slurm_state_completed : simpl never.
#[global] Arguments slurm_state_pending : simpl never.
#[global] Arguments Py.join : simpl never.
#[global] Arguments Py.strip : simpl never.
#[global] Arguments Py.str_of_int : simpl never.
#[global] Arguments Re.finditer : simpl never.
#[global] Arguments Re.search : simpl never.
#[global] Arguments Re.match_ : simpl never.
#[global] Arguments group_matches : simpl never.
#[global] Arguments Argparse.parse_known_args : simpl never.

(** * The vocabulary of the statements *)

Definition always {A : Type} (R : State -> State -> Prop) (m : M A) : Prop :=
  forall w st, R st (m w st).2.

Definition on_ok {A : Type} (R : State -> State -> Prop) (m : M A) : Prop :=
  forall w st a st', m w st = (Ok a, st') -> R st st'.

(** A computation that never returns normally. *)
Definition never_ok {A : Type} (m : M A) : Prop :=
  forall w st a st', m w st <> (Ok a, st').

(** The relations the proofs below use. *)
Definition heap_same (st st' : State) : Prop := heap st' = heap st.

Definition sched_same (st st' : State) : Prop := sched st' = sched st.

Definition trace_grows (st st' : State) : Prop :=
  exists tl, trace st' = (trace st ++ tl)%list.

(** The matches of one job: those whose base job id is the job's id. *)
Definition lines_of (ms : list Re.Match) (j : Job) : list Re.Match :=
  filter (fun m => jobid j = Some (base_jobid m)) ms.

(** What the world said to the first command run after [st], as seen
    from the trace of [st']. *)
Definition first_answer (w : World) (st st' : State) (out : string) : Prop :=
  exists pre cmd timeout rest c,
    trace st' = (trace st ++ pre ++ EvRun cmd timeout :: rest)%list /\
    Forall (fun e => match e with EvRun _ _ => False | _ => True end) pre /\
    exec w (trace st ++ pre)%list cmd timeout = Exited c /\
    stdout_of c = out.

(** The state the poll makes up for a job without a line. *)
Definition synthesized_state (self : Scheduler) (job : nat) : string :=
  if bool_decide (job ∈ _cancelled self) then "CANCELLED" else "COMPLETED".

(** Job id, state and exit code of every job are as before. *)
Definition results_kept (st st' : State) : Prop :=
  forall x,
    jobid (heap st' !!! x) = jobid (heap st !!! x) /\
    state (heap st' !!! x) = state (heap st !!! x) /\
    exitcode (heap st' !!! x) = exitcode (heap st !!! x).

(** The state the poll joins from the lines of a job, and the exit
    codes on them. *)
Definition joined_state (lines : list Re.Match) : string :=
  Py.join "," (map (fun m => group_ m "state") lines).

Definition exitcodes (lines : list Re.Match) : list Z :=
  map (fun m => Py.int_of_digits (group_ m "exitcode")) lines.

(** What one turn of the last loop of the sacct poll does to the results
    of the jobs, whatever its outcome. *)
Definition sacct_step_post (ms : list Re.Match) (job : nat) (st : State)
    (r : result unit) (st' : State) : Prop :=
  (forall x, x <> job ->
     jobid (heap st' !!! x) = jobid (heap st !!! x) /\
     state (heap st' !!! x) = state (heap st !!! x) /\
     exitcode (heap st' !!! x) = exitcode (heap st !!! x)) /\
  jobid (heap st' !!! job) = jobid (heap st !!! job) /\
  let lines := lines_of ms (heap st !!! job) in
  (lines = [] ->
     state (heap st' !!! job) = state (heap st !!! job) /\
     exitcode (heap st' !!! job) = exitcode (heap st !!! job)) /\
  (lines <> [] ->
     state (heap st' !!! job) = Some (joined_state lines) /\
     exists v,
       py_max (exitcodes lines) = Ok v /\
       (exitcode (heap st' !!! job) = exitcode (heap st !!! job) \/
        slurm_state_completed (Some (joined_state lines)) = true /\
        exitcode (heap st' !!! job) = Some v) /\
       (r = Ok tt ->
        exitcode (heap st' !!! job)
        = if slurm_state_completed (Some (joined_state lines))
          then Some v else exitcode (heap st !!! job))).

(** What holds of every job at every point of the last loop of a sacct
    poll that started in [st0]: the job id is the same, and the exit code
    is the same or is the highest of the job's lines under a joined state
    that is complete. *)
Definition sacct_inv (ms : list Re.Match) (st0 st : State) : Prop :=
  forall x,
    jobid (heap st !!! x) = jobid (heap st0 !!! x) /\
    (exitcode (heap st !!! x) = exitcode (heap st0 !!! x) \/
     let lines := lines_of ms (heap st0 !!! x) in
     lines <> [] /\
     state (heap st !!! x) = Some (joined_state lines) /\
     slurm_state_completed (Some (joined_state lines)) = true /\
     exists v, py_max (exitcodes lines) = Ok v /\
               exitcode (heap st !!! x) = Some v).

(** The loop of the sacct poll that counts the polls of each job. *)
Definition count_polls (jobs : list nat) : M unit :=
  for_each jobs
    (fun job =>
       let* self := get_sched in
       let* n := book (_update_state_count self) job in
       put_sched (with_books self (_is_cancelling self)
                    (_is_job_array self)
                    (<[job := n + 1]> (_update_state_count self))
                    (_submit_time self) (_cancelled self))).

(** What a sacct poll that started in [st] has done to the jobs. *)
Definition sacct_poll_post (w : World) (jobs : list nat) (st : State)
    (r : result unit) (st' : State) : Prop :=
  exists ms,
    (ms = [] \/
     exists out, first_answer w st st' out /\
                 ms = Re.finditer sacct_patt out) /\
    sacct_inv ms st st' /\
    (r = Ok tt ->
     forall x, In x jobs -> lines_of ms (heap st !!! x) <> [] ->
       state (heap st' !!! x)
       = Some (joined_state (lines_of ms (heap st !!! x))) /\
       exists v,
         py_max (exitcodes (lines_of ms (heap st !!! x))) = Ok v /\
         exitcode (heap st' !!! x)
         = if slurm_state_completed
                (Some (joined_state (lines_of ms (heap st !!! x))))
           then Some v else exitcode (heap st !!! x)).

(** The scancel command of a job and the state once it has been run. *)
Definition scancel_cmd (j : Job) : string :=
  "scancel " +:+ str_of_jobid (jobid j).

Definition ran (st : State) (e : event) : State :=
  {| heap := heap st; sched := sched st; trace := (trace st ++ [e])%list |}.

(** [out] is the outcome of cancelling the job in [st] and then raising
    [e]: scancel has been run, no job object has changed, and what is
    raised is [e] when scancel succeeded (the job is then marked as being
    cancelled) and the failure of scancel otherwise. *)
Definition cancel_then {A : Type} (w : World) (st : State) (job : nat)
    (e : exn) (out : result A * State) : Prop :=
  let j := heap st !!! job in
  let timeout := _submit_timeout (sched st) in
  trace out.2 = (trace st ++ [EvRun (scancel_cmd j) timeout])%list /\
  heap out.2 = heap st /\
  match exec w (trace st) (scancel_cmd j) timeout with
  | Exited c =>
      if returncode c =? 0
      then out.1 = Raise e /\ job ∈ _is_cancelling (sched out.2)
      else out.1 = Raise (SpawnedProcessError (scancel_cmd j))
  | Expired => out.1 = Raise (SpawnedProcessTimeout (scancel_cmd j))
  end.

(** The key-value pattern at one place. *)
Definition key_value_patt (key g : string) (p : ascii -> bool) : Re.regex :=
  Re.Seq (Re.Lit key) (Re.Group g (Re.Plus (Re.Chr p))).

(** The line that sbatch prints, and what the job id pattern reads. *)
Definition submitted_key : string := "Submitted batch job ".

(** A step of the node filter shrinks the node set: every node it gives
    back has the name of a node it was given, which is what the subset
    test of Python sets of nodes compares. *)
Definition shrinks (step : NodeSet -> M NodeSet) : Prop :=
  forall nodes w st out st',
    step nodes w st = (Ok out, st') -> dom out ⊆ dom nodes.

(** The class [\S]. *)
Definition nonspace (c : ascii) : bool := negb (Py.isspace c).

(** The first description of a list that makes a node of a given name. *)
Fixpoint first_node (name : string) (descriptions : list string)
  : option Node :=
  match descriptions with
  | [] => None
  | descr :: rest =>
      match _SlurmNode descr with
      | Ok n => if decide (name = _name n) then Some n
                else first_node name rest
      | Raise _ => first_node name rest
      end
  end.

(** A line that sets the constraint: the prefix, a space, and the long
    option with its equals sign. *)
Definition constraint_directive (self : Scheduler) (l : string) : bool :=
  Py.startswith l (_prefix self +:+ " --constraint=").

(** The lines of the preamble for the option fragments, those that are
    no constraint: the access options after the prefix, the job options
    after the prefix unless they bring their own. *)
Definition access_lines (self : Scheduler) (j : Job) : list string :=
  map (fun opt => _prefix self +:+ " " +:+ opt)
      (filter (fun opt => Is_true (negb (is_constraint_opt opt)))
              (sched_access j)).

Definition option_lines (self : Scheduler) (j : Job) : list string :=
  map (fun opt =>
         match Re.match_ prefix_patt opt with
         | None => _prefix self +:+ " " +:+ opt
         | Some _ => opt
         end)
      (filter (fun opt => Is_true (negb (is_constraint_opt opt))) (options j)).

(** The one line of the merged constraints, if there are any. *)
Definition merged_constraint (self : Scheduler) (constraints : list string)
  : list string :=
  match constraints with
  | [] => []
  | _ :: _ => [_prefix self +:+ " --constraint=" +:+ Py.join "&" constraints]
  end.

(** The hint line. *)
Definition hint_line (self : Scheduler) (j : Job) : string :=
  _format_option self
    match use_smt j with
    | None => None
    | Some b => Some (if b then "multithread" else "nomultithread")
    end "--hint={0}".


(** The entries of [_is_job_array] are stored under job objects. *)
Definition keyed_by_jobs (self : Scheduler) : Prop :=
  forall k, k ∈ dom (_is_job_array self) -> exists job : nat, k = inl job.

(** A node list that is set stays as it is. *)
Definition nodelist_kept (st st' : State) : Prop :=
  forall x l, nodelist (heap st !!! x) = Some l ->
              nodelist (heap st' !!! x) = Some l.

(** No node list changes. *)
Definition nodelist_same (st st' : State) : Prop :=
  forall x, nodelist (heap st' !!! x) = nodelist (heap st !!! x).

(** A line that the batch system reads as a directive: it begins with
    the prefix of the scheduler and a blank, or it is an option of the
    job that begins with a prefix of its own ([#] and word characters)
    and was passed on as it is. *)
Definition directive_line (self : Scheduler) (j : Job) (l : string) : Prop :=
  Py.startswith l (_prefix self +:+ " ") = true \/
  (In l (options j) /\ Re.match_ prefix_patt l <> None).

(** The patterns of the form: a group around a key and one or more
    characters of a class. *)
Definition keyed_group_patt (key g : string) (p : ascii -> bool) : Re.regex :=
  Re.Group g (Re.Seq (Re.Lit key) (Re.Plus (Re.Chr p))).

(** The job objects picked out by [keep] are as before. *)
Definition others_kept (keep : nat -> Prop) (st st' : State) : Prop :=
  forall y, keep y -> heap st' !!! y = heap st !!! y.






(** The trace grows by events of one kind. *)
Definition trace_adds (P : event -> Prop) (st st' : State) : Prop :=
  exists tl, trace st' = (trace st ++ tl)%list /\ Forall P tl.

(** The commands of the cancel policy: a node query and scancel. *)
Definition cancelling_event (e : event) : Prop :=
  exists arg timeout,
    e = EvRun ("scontrol -a show -o node " +:+ arg) timeout \/
    e = EvRun ("scancel " +:+ arg) timeout.

(** The poll counts are as before. *)
Definition counts_same (st st' : State) : Prop :=
  _update_state_count (sched st') = _update_state_count (sched st).

(* ===== Properties ===== *)

(** ** Strings *)

Lemma truthy_nonempty (s : string) : Py.truthy s = true <-> s <> EmptyString.
Proof. destruct s; simpl; split; congruence. Qed.

Lemma split_nonempty (sep : ascii) (s : string) : Py.split sep s <> [].
Proof.
  destruct s as [|c s]; simpl; [discriminate|].
  destruct (Ascii.eqb c sep); [discriminate|].
  destruct (Py.split sep s); discriminate.
Qed.

Lemma concat_cons (sep x : string) (t : string) (ts : list string) :
  String.concat sep (x :: t :: ts) = x +:+ sep +:+ String.concat sep (t :: ts).
Proof. reflexivity. Qed.

(** Joining the pieces of a split with the separator gives the string
    back. *)
Lemma join_split (sep : ascii) (s : string) :
  Py.join (String sep EmptyString) (Py.split sep s) = s.
Proof.
  unfold Py.join. induction s as [|c s IH]; [reflexivity|].
  simpl Py.split. destruct (Ascii.eqb_spec c sep) as [->|Hne].
  - pose proof (split_nonempty sep s) as Hn.
    destruct (Py.split sep s) as [|t ts]; [congruence|].
    rewrite concat_cons, IH. reflexivity.
  - pose proof (split_nonempty sep s) as Hn.
    destruct (Py.split sep s) as [|t ts]; [congruence|].
    destruct ts as [|t' ts].
    + rewrite <- IH. reflexivity.
    + rewrite <- IH. reflexivity.
Qed.

(** No piece of a split holds the separator. *)
Lemma split_sep_free (sep : ascii) (s : string) :
  Forall (fun t => Py.contains_char sep t = false) (Py.split sep s).
Proof.
  induction s as [|c s IH]; simpl.
  - constructor; [reflexivity|constructor].
  - destruct (Ascii.eqb c sep) eqn:E.
    + constructor; [reflexivity|exact IH].
    + destruct (Py.split sep s) as [|t ts]; inversion IH; subst.
      * constructor; [simpl; rewrite E; reflexivity|constructor].
      * constructor; [simpl; rewrite E; assumption|assumption].
Qed.

(** A split is the only way to cut a string into separator-free pieces. *)
Lemma split_join (sep : ascii) (toks : list string) :
  toks <> [] ->
  Forall (fun t => Py.contains_char sep t = false) toks ->
  Py.split sep (Py.join (String sep EmptyString) toks) = toks.
Proof.
  unfold Py.join. induction toks as [|t toks IH]; [congruence|].
  intros _ Hfree. inversion Hfree as [|? ? Ht Hts]; subst.
  destruct toks as [|t' toks].
  - simpl. clear IH Hfree Hts. induction t as [|c t IHt]; [reflexivity|].
    simpl in Ht. apply orb_false_iff in Ht as [Hc Ht].
    simpl. rewrite Hc, (IHt Ht). reflexivity.
  - rewrite concat_cons. specialize (IH ltac:(discriminate) Hts).
    clear Hfree Hts.
    remember (String.concat (String sep EmptyString) (t' :: toks)) as rest.
    clear Heqrest. induction t as [|c t IHt].
    + simpl. change (EmptyString +:+ rest) with rest.
      rewrite Ascii.eqb_refl, IH. reflexivity.
    + simpl in Ht. apply orb_false_iff in Ht as [Hc Ht].
      simpl. rewrite Hc. simpl in IHt. rewrite (IHt Ht). reflexivity.
Qed.

(** ** State classifier *)

Lemma completed_all (s : string) :
  slurm_state_completed (Some s) = true <->
  s <> EmptyString /\ Forall (fun t => t ∈ completion_states) (Py.split "," s).
Proof.
  unfold slurm_state_completed. rewrite <- truthy_nonempty.
  destruct (Py.truthy s); [|intuition congruence].
  rewrite forallb_forall, Forall_forall. split.
  - intros H. split; [reflexivity|]. intros t Ht.
    apply list_elem_of_In, H in Ht. by apply bool_decide_eq_true in Ht.
  - intros [_ H] t Ht. apply bool_decide_eq_true, H, list_elem_of_In, Ht.
Qed.

Lemma pending_any (s : string) :
  slurm_state_pending (Some s) = true <->
  s <> EmptyString /\ Exists (fun t => t ∈ pending_states) (Py.split "," s).
Proof.
  unfold slurm_state_pending. rewrite <- truthy_nonempty.
  destruct (Py.truthy s); [|intuition congruence].
  rewrite existsb_exists, Exists_exists. split.
  - intros (t & Ht & Hin). split; [reflexivity|]. exists t.
    split; [by apply list_elem_of_In|by apply bool_decide_eq_true in Hin].
  - intros [_ (t & Ht & Hin)]. exists t.
    split; [by apply list_elem_of_In|by apply bool_decide_eq_true].
Qed.

(** The two sets of state names, name by name. *)
Lemma completion_states_names (t : string) :
  t ∈ completion_states <->
  In t ["BOOT_FAIL"; "CANCELLED"; "COMPLETED"; "DEADLINE"; "FAILED";
        "NODE_FAIL"; "OUT_OF_MEMORY"; "PREEMPTED"; "TIMEOUT"].
Proof.
  unfold completion_states. rewrite !elem_of_union, !elem_of_singleton.
  cbn [In]. intuition congruence.
Qed.

Lemma pending_states_names (t : string) :
  t ∈ pending_states <->
  In t ["COMPLETING"; "CONFIGURING"; "PENDING"; "RESV_DEL_HOLD";
        "REQUEUE_FED"; "REQUEUE_HOLD"; "REQUEUED"; "RESIZING"; "REVOKED";
        "SIGNALING"; "SPECIAL_EXIT"; "STAGE_OUT"; "STOPPED"; "SUSPENDED"].
Proof.
  unfold pending_states. rewrite !elem_of_union, !elem_of_singleton.
  cbn [In]. intuition congruence.
Qed.

(** C1. For every state string, cut at the commas into its tokens (the
    one list of comma-free pieces that joins back to the string):
    [slurm_state_completed] holds exactly when the string is not empty
    and every token is one of BOOT_FAIL, CANCELLED, COMPLETED, DEADLINE,
    FAILED, NODE_FAIL, OUT_OF_MEMORY, PREEMPTED and TIMEOUT;
    [slurm_state_pending] holds exactly when the string is not empty and
    some token is one of COMPLETING, CONFIGURING, PENDING, RESV_DEL_HOLD,
    REQUEUE_FED, REQUEUE_HOLD, REQUEUED, RESIZING, REVOKED, SIGNALING,
    SPECIAL_EXIT, STAGE_OUT, STOPPED and SUSPENDED; both are false on the
    empty string. *)
Theorem slurm_state_classifier (s : string) :
  let tokens := Py.split "," s in
  (tokens <> [] /\
   Forall (fun t => Py.contains_char "," t = false) tokens /\
   Py.join "," tokens = s) /\
  (slurm_state_completed (Some s) = true <->
   s <> EmptyString /\
   Forall (fun t => In t ["BOOT_FAIL"; "CANCELLED"; "COMPLETED"; "DEADLINE";
                          "FAILED"; "NODE_FAIL"; "OUT_OF_MEMORY"; "PREEMPTED";
                          "TIMEOUT"]) tokens) /\
  (slurm_state_pending (Some s) = true <->
   s <> EmptyString /\
   Exists (fun t => In t ["COMPLETING"; "CONFIGURING"; "PENDING";
                          "RESV_DEL_HOLD"; "REQUEUE_FED"; "REQUEUE_HOLD";
                          "REQUEUED"; "RESIZING"; "REVOKED"; "SIGNALING";
                          "SPECIAL_EXIT"; "STAGE_OUT"; "STOPPED"; "SUSPENDED"])
          tokens) /\
  slurm_state_completed (Some EmptyString) = false /\
  slurm_state_pending (Some EmptyString) = false.
Proof.
  cbv zeta. split; [|split; [|split; [|split]]].
  - split; [apply split_nonempty|].
    split; [apply split_sep_free|apply (join_split ",")].
  - rewrite completed_all. apply and_iff_compat_l.
    split; intros H; (eapply Forall_impl; [exact H|]); intros t;
      apply completion_states_names.
  - rewrite pending_any. apply and_iff_compat_l.
    rewrite !Exists_exists.
    split; intros (t & Ht & Hin); exists t; (split; [exact Ht|]);
      by apply pending_states_names.
  - reflexivity.
  - reflexivity.
Qed.

(** ** Reasoning about the monad

    Two ways to say that a computation respects a relation between the
    state before and the state after: whatever the outcome ([always]), or
    when it returns normally ([on_ok]). Both go through [bind] when the
    relation is a preorder. *)

Lemma bind_ok {A B : Type} (m : M A) (k : A -> M B) w st b st' :
  bind m k w st = (Ok b, st') ->
  exists a st1, m w st = (Ok a, st1) /\ k a w st1 = (Ok b, st').
Proof.
  unfold bind. destruct (m w st) as [[a|e] st1]; [eauto|discriminate].
Qed.

Lemma bind_eq {A B : Type} (m : M A) (k : A -> M B) w st a st1 :
  m w st = (Ok a, st1) -> bind m k w st = k a w st1.
Proof. unfold bind. intros ->. reflexivity. Qed.

Lemma bind_raise {A B : Type} (m : M A) (k : A -> M B) w st e st1 :
  m w st = (Raise e, st1) -> bind m k w st = (Raise e, st1).
Proof. unfold bind. intros ->. reflexivity. Qed.

Section Respect.
Context (R : State -> State -> Prop).
Hypothesis R_refl : forall st, R st st.
Hypothesis R_trans : forall a b c, R a b -> R b c -> R a c.

Lemma always_ret {A : Type} (a : A) : always R (ret a).
Proof. intros w st. apply R_refl. Qed.

Lemma always_raise {A : Type} (e : exn) : always R (@raise A e).
Proof. intros w st. apply R_refl. Qed.

Lemma always_lift {A : Type} (r : result A) : always R (lift r).
Proof. intros w st. apply R_refl. Qed.

Lemma always_get_job (job : nat) : always R (get_job job).
Proof. intros w st. apply R_refl. Qed.

Lemma always_get_sched : always R get_sched.
Proof. intros w st. apply R_refl. Qed.

Lemma always_bind {A B : Type} (m : M A) (k : A -> M B) :
  always R m -> (forall a, always R (k a)) -> always R (bind m k).
Proof.
  intros Hm Hk w st. unfold bind. specialize (Hm w st).
  destruct (m w st) as [[a|e] st1]; simpl in *; [|exact Hm].
  eapply R_trans; [exact Hm|apply Hk].
Qed.

Lemma always_try_except {A : Type} (m : M A) c (h : exn -> M A) :
  always R m -> (forall e, always R (h e)) -> always R (try_except m c h).
Proof.
  intros Hm Hh w st. unfold try_except. specialize (Hm w st).
  destruct (m w st) as [[a|e] st1]; simpl in *; [exact Hm|].
  destruct (c e); [|exact Hm].
  eapply R_trans; [exact Hm|apply Hh].
Qed.

Lemma always_for_each {A : Type} (l : list A) (body : A -> M unit) :
  (forall x, always R (body x)) -> always R (for_each l body).
Proof.
  intros Hb. induction l as [|x l IH]; simpl.
  - apply always_ret.
  - apply always_bind; [apply Hb|intros _; exact IH].
Qed.

Lemma always_book (d : gmap nat Z) (job : nat) : always R (book d job).
Proof. unfold book. destruct (d !! job); [apply always_ret|apply always_raise]. Qed.

Lemma always_books (d : gmap nat Z) (jobs : list nat) : always R (books d jobs).
Proof.
  induction jobs as [|job jobs IH]; simpl; [apply always_ret|].
  apply always_bind; [apply always_book|intros v].
  apply always_bind; [exact IH|intros vs; apply always_ret].
Qed.

Lemma on_ok_ret {A : Type} (a : A) : on_ok R (ret a).
Proof. intros w st a' st' [= _ <-]. apply R_refl. Qed.

Lemma on_ok_never {A : Type} (m : M A) : never_ok m -> on_ok R m.
Proof. intros Hn w st a st' H. destruct (Hn _ _ _ _ H). Qed.

Lemma on_ok_always {A : Type} (m : M A) : always R m -> on_ok R m.
Proof. intros Hm w st a st' H. specialize (Hm w st). by rewrite H in Hm. Qed.

Lemma on_ok_bind {A B : Type} (m : M A) (k : A -> M B) :
  on_ok R m -> (forall a, on_ok R (k a)) -> on_ok R (bind m k).
Proof.
  intros Hm Hk w st b st' H.
  apply bind_ok in H as (a & st1 & H1 & H2).
  eapply R_trans; [eapply Hm, H1|eapply Hk, H2].
Qed.

Lemma on_ok_for_each {A : Type} (l : list A) (body : A -> M unit) :
  (forall x, on_ok R (body x)) -> on_ok R (for_each l body).
Proof.
  intros Hb. induction l as [|x l IH]; simpl.
  - apply on_ok_ret.
  - apply on_ok_bind; [apply Hb|intros _; exact IH].
Qed.
End Respect.

Lemma never_ok_raise {A : Type} (e : exn) : never_ok (@raise A e).
Proof. intros w st a st'. discriminate. Qed.

Lemma never_ok_bind {A B : Type} (m : M A) (k : A -> M B) :
  (forall a, never_ok (k a)) -> never_ok (bind m k).
Proof.
  intros Hk w st b st' H. apply bind_ok in H as (a & st1 & _ & H2).
  exact (Hk _ _ _ _ _ H2).
Qed.

Lemma heap_same_refl st : heap_same st st.
Proof. reflexivity. Qed.

Lemma heap_same_trans a b c : heap_same a b -> heap_same b c -> heap_same a c.
Proof. unfold heap_same. congruence. Qed.

Lemma sched_same_refl st : sched_same st st.
Proof. reflexivity. Qed.

Lemma sched_same_trans a b c :
  sched_same a b -> sched_same b c -> sched_same a c.
Proof. unfold sched_same. congruence. Qed.

Lemma trace_grows_refl st : trace_grows st st.
Proof. exists []. by rewrite app_nil_r. Qed.

Lemma trace_grows_trans a b c :
  trace_grows a b -> trace_grows b c -> trace_grows a c.
Proof.
  intros [t1 H1] [t2 H2]. exists (t1 ++ t2)%list.
  by rewrite H2, H1, app_assoc.
Qed.

Create HintDb frames.

#[local] Hint Resolve heap_same_refl heap_same_trans sched_same_refl
  sched_same_trans trace_grows_refl trace_grows_trans : frames.

(** One step of a frame proof: split the computation at its outermost
    construct, case on the test of a conditional, and close the side
    conditions on the relation. *)
Ltac frame_side :=
  first [ exact heap_same_refl | exact heap_same_trans
        | exact sched_same_refl | exact sched_same_trans
        | exact trace_grows_refl | exact trace_grows_trans ].

Ltac frame_intro :=
  lazymatch goal with
  | |- forall _, _ => intros ?
  | _ => idtac
  end.

Ltac frame_step :=
  lazymatch goal with
  | |- always _ (ret _) => apply always_ret
  | |- always _ (raise _) => apply always_raise
  | |- always _ (lift _) => apply always_lift
  | |- always _ (get_job _) => apply always_get_job
  | |- always _ get_sched => apply always_get_sched
  | |- always _ (book _ _) => apply always_book
  | |- always _ (books _ _) => apply always_books
  | |- always _ (bind _ _) => apply always_bind
  | |- always _ (for_each _ _) => apply always_for_each
  | |- always _ (try_except _ _ _) => apply always_try_except
  | |- always _ (if ?c then _ else _) => destruct c
  | |- always _ (match ?x with _ => _ end) => destruct x
  end; try frame_side; frame_intro.

Ltac frame := repeat first [ solve [auto with frames] | frame_step ].

Lemma heap_same_put_sched s : always heap_same (put_sched s).
Proof. intros w st. reflexivity. Qed.

Lemma heap_same_emit e : always heap_same (emit e).
Proof. intros w st. reflexivity. Qed.

Lemma heap_same_run_command cmd check timeout :
  always heap_same (run_command cmd check timeout).
Proof.
  intros w st. unfold run_command.
  destruct (exec w (trace st) cmd timeout) as [c|]; [|reflexivity].
  destruct (check && negb (returncode c =? 0)); reflexivity.
Qed.

Lemma heap_same_datetime_now : always heap_same datetime_now.
Proof. intros w st. reflexivity. Qed.

#[local] Hint Resolve heap_same_put_sched heap_same_emit
  heap_same_run_command heap_same_datetime_now : frames.

Lemma heap_same__run_strict cmd timeout :
  always heap_same (_run_strict cmd timeout).
Proof. apply heap_same_run_command. Qed.

Lemma heap_same_time_sleep d : always heap_same (time_sleep d).
Proof. apply heap_same_emit. Qed.

#[local] Hint Resolve heap_same__run_strict heap_same_time_sleep : frames.

Lemma heap_same_SlurmJobScheduler_cancel job :
  always heap_same (SlurmJobScheduler_cancel job).
Proof. unfold SlurmJobScheduler_cancel. frame. Qed.

#[local] Hint Resolve heap_same_SlurmJobScheduler_cancel : frames.

Lemma heap_same_cancel job : always heap_same (cancel job).
Proof. unfold cancel, SqueueJobScheduler_cancel. frame. Qed.

Lemma heap_same__get_nodes_by_name nodespec :
  always heap_same (_get_nodes_by_name nodespec).
Proof. unfold _get_nodes_by_name. frame. Qed.

#[local] Hint Resolve heap_same_cancel heap_same__get_nodes_by_name : frames.

Lemma heap_same__check_and_cancel job reason_descr :
  always heap_same (_check_and_cancel job reason_descr).
Proof. unfold _check_and_cancel. frame. Qed.

#[local] Hint Resolve heap_same__check_and_cancel : frames.

Lemma heap_same__cancel_if_blocked job :
  always heap_same (_cancel_if_blocked job).
Proof. unfold _cancel_if_blocked. frame. Qed.

#[local] Hint Resolve heap_same__cancel_if_blocked : frames.

Lemma sched_same_emit e : always sched_same (emit e).
Proof. intros w st. reflexivity. Qed.

Lemma sched_same_run_command cmd check timeout :
  always sched_same (run_command cmd check timeout).
Proof.
  intros w st. unfold run_command.
  destruct (exec w (trace st) cmd timeout) as [c|]; [|reflexivity].
  destruct (check && negb (returncode c =? 0)); reflexivity.
Qed.

Lemma sched_same_datetime_now : always sched_same datetime_now.
Proof. intros w st. reflexivity. Qed.

Lemma sched_same_modify_job job f : always sched_same (modify_job job f).
Proof. intros w st. reflexivity. Qed.

#[local] Hint Resolve sched_same_emit sched_same_run_command
  sched_same_datetime_now sched_same_modify_job : frames.

Lemma sched_same__get_nodes_by_name nodespec :
  always sched_same (_get_nodes_by_name nodespec).
Proof. unfold _get_nodes_by_name. frame. Qed.

#[local] Hint Resolve sched_same__get_nodes_by_name : frames.

(** The same walk for [on_ok]; a branch that ends in [raise] is closed
    at once. *)
Ltac never_ok_tac :=
  repeat (apply never_ok_bind; intros ?); apply never_ok_raise.

Ltac ok_step :=
  first
    [ apply on_ok_never; solve [never_ok_tac]
    | apply on_ok_always; [try frame_side..|solve [auto with frames]]
    | lazymatch goal with
      | |- on_ok _ (ret _) => apply on_ok_ret
      | |- on_ok _ (bind _ _) => apply on_ok_bind
      | |- on_ok _ (for_each _ _) => apply on_ok_for_each
      | |- on_ok _ (if ?c then _ else _) => destruct c
      | |- on_ok _ (match ?x with _ => _ end) => destruct x
      end; try frame_side; frame_intro ].

Ltac ok_frame := repeat first [ solve [auto with frames] | ok_step ].

(** A [_check_and_cancel] that returns has left the scheduler as it was:
    every cancellation ends in [JobBlockedError]. *)
Lemma on_ok_sched__check_and_cancel job reason_descr :
  on_ok sched_same (_check_and_cancel job reason_descr).
Proof. unfold _check_and_cancel. cbv zeta. ok_frame. Qed.

#[local] Hint Resolve on_ok_sched__check_and_cancel : frames.

(** ** The matches of a poll, by base job id *)

Lemma group_matches_fold (ms : list Re.Match) (acc : gmap Z (list Re.Match))
    (n : Z) :
  (forall k, acc !! k <> Some []) ->
  fold_left (fun jobs_info s =>
               <[base_jobid s :=
                   (default [] (jobs_info !! base_jobid s) ++ [s])%list]>
                 jobs_info) ms acc !! n
  = match (default [] (acc !! n)
           ++ filter (fun m => base_jobid m = n) ms)%list with
    | [] => None
    | l => Some l
    end.
Proof.
  revert acc. induction ms as [|m ms IH]; intros acc Hacc; simpl.
  - rewrite filter_nil, app_nil_r. specialize (Hacc n).
    destruct (acc !! n) as [[|x l]|]; simpl; congruence.
  - rewrite IH.
    + destruct (decide (base_jobid m = n)) as [Heq|Hne].
      * rewrite filter_cons_True by exact Heq.
        rewrite Heq, lookup_insert_eq. simpl.
        by rewrite <- app_assoc.
      * rewrite filter_cons_False by exact Hne.
        rewrite lookup_insert_ne by exact Hne. done.
    + intros k. destruct (decide (base_jobid m = k)) as [->|Hne].
      * rewrite lookup_insert_eq. intros [= H]. by destruct (default _ _).
      * rewrite lookup_insert_ne by done. apply Hacc.
Qed.

(** The entry of a base job id holds its matches in match order, and
    there is no entry without a match. *)
Lemma group_matches_lookup (ms : list Re.Match) (n : Z) :
  group_matches ms !! n
  = match filter (fun m => base_jobid m = n) ms with
    | [] => None
    | l => Some l
    end.
Proof.
  unfold group_matches. rewrite group_matches_fold.
  - by rewrite lookup_empty.
  - intros k. by rewrite lookup_empty.
Qed.

Lemma info_of_lines (ms : list Re.Match) (j : Job) :
  info_of (group_matches ms) j
  = match lines_of ms j with [] => None | l => Some l end.
Proof.
  unfold info_of, lines_of. destruct (jobid j) as [n|].
  - rewrite group_matches_lookup.
    replace (filter (fun m => Some n = Some (base_jobid m)) ms)
      with (filter (fun m => base_jobid m = n) ms); [done|].
    apply list_filter_iff. intros m. split; [by intros ->|by intros [= ->]].
  - induction ms as [|m ms IH]; [done|].
    by rewrite filter_cons_False.
Qed.

(** ** Inversion of the primitive steps *)

Lemma get_job_ok job w st a st1 :
  get_job job w st = (Ok a, st1) -> a = heap st !!! job /\ st1 = st.
Proof. unfold get_job. intros [= <- <-]. done. Qed.

Lemma get_sched_ok w st a st1 :
  get_sched w st = (Ok a, st1) -> a = sched st /\ st1 = st.
Proof. unfold get_sched. intros [= <- <-]. done. Qed.

Lemma ret_ok {A : Type} (x : A) w st a st1 :
  ret x w st = (Ok a, st1) -> a = x /\ st1 = st.
Proof. unfold ret. intros [= <- <-]. done. Qed.

Lemma lift_ok {A : Type} (r : result A) w st a st1 :
  lift r w st = (Ok a, st1) -> r = Ok a /\ st1 = st.
Proof. unfold lift. intros [= -> <-]. done. Qed.

Lemma book_ok d job w st a st1 :
  book d job w st = (Ok a, st1) -> d !! job = Some a /\ st1 = st.
Proof.
  unfold book. destruct (d !! job); [|discriminate].
  intros [= <- <-]. done.
Qed.

Lemma books_ok d jobs w st l st1 :
  books d jobs w st = (Ok l, st1) -> st1 = st.
Proof.
  revert l st1. induction jobs as [|job jobs IH]; simpl; intros l st1 H.
  - by apply ret_ok in H as [_ ->].
  - apply bind_ok in H as (v & s1 & H1 & H).
    apply book_ok in H1 as [_ ->].
    apply bind_ok in H as (vs & s2 & H2 & H).
    apply IH in H2 as ->. by apply ret_ok in H as [_ ->].
Qed.

Lemma datetime_now_ok w st a st1 :
  datetime_now w st = (Ok a, st1) ->
  a = clock w (trace st) /\
  st1 = {| heap := heap st; sched := sched st;
           trace := (trace st ++ [EvNow])%list |}.
Proof. unfold datetime_now. intros [= <- <-]. done. Qed.

Lemma emit_ok e w st a st1 :
  emit e w st = (Ok a, st1) ->
  st1 = {| heap := heap st; sched := sched st;
           trace := (trace st ++ [e])%list |}.
Proof. unfold emit. intros [= _ <-]. done. Qed.

Lemma run_command_ok cmd check timeout w st c st1 :
  run_command cmd check timeout w st = (Ok c, st1) ->
  exec w (trace st) cmd timeout = Exited c /\
  (check = true -> returncode c = 0) /\
  st1 = {| heap := heap st; sched := sched st;
           trace := (trace st ++ [EvRun cmd timeout])%list |}.
Proof.
  unfold run_command. destruct (exec w (trace st) cmd timeout) as [c'|];
    [|discriminate].
  destruct (check && negb (returncode c' =? 0)) eqn:E; [discriminate|].
  intros [= <- <-]. split; [done|]. split; [|done].
  intros ->. simpl in E. apply negb_false_iff in E. lia.
Qed.

Lemma modify_job_ok job f w st a st1 :
  modify_job job f w st = (Ok a, st1) ->
  st1 = {| heap := <[job := f (heap st !!! job)]> (heap st);
           sched := sched st; trace := trace st |}.
Proof. unfold modify_job. intros [= _ <-]. done. Qed.

(** ** The trace only grows *)

Lemma trace_grows_emit e : always trace_grows (emit e).
Proof. intros w st. by exists [e]. Qed.

Lemma trace_grows_put_sched s : always trace_grows (put_sched s).
Proof. intros w st. exists []. simpl. by rewrite app_nil_r. Qed.

Lemma trace_grows_modify_job job f : always trace_grows (modify_job job f).
Proof. intros w st. exists []. simpl. by rewrite app_nil_r. Qed.

Lemma trace_grows_datetime_now : always trace_grows datetime_now.
Proof. intros w st. by exists [EvNow]. Qed.

Lemma trace_grows_run_command cmd check timeout :
  always trace_grows (run_command cmd check timeout).
Proof.
  intros w st. unfold run_command.
  destruct (exec w (trace st) cmd timeout) as [c|];
    [destruct (check && negb (returncode c =? 0))|];
    by exists [EvRun cmd timeout].
Qed.

#[local] Hint Resolve trace_grows_emit trace_grows_put_sched
  trace_grows_modify_job trace_grows_datetime_now
  trace_grows_run_command : frames.

Lemma trace_grows__run_strict cmd timeout :
  always trace_grows (_run_strict cmd timeout).
Proof. apply trace_grows_run_command. Qed.

Lemma trace_grows_time_sleep d : always trace_grows (time_sleep d).
Proof. apply trace_grows_emit. Qed.

#[local] Hint Resolve trace_grows__run_strict trace_grows_time_sleep : frames.

Lemma trace_grows_cancel job : always trace_grows (cancel job).
Proof.
  unfold cancel, SqueueJobScheduler_cancel, SlurmJobScheduler_cancel. frame.
Qed.

Lemma trace_grows__get_nodes_by_name nodespec :
  always trace_grows (_get_nodes_by_name nodespec).
Proof. unfold _get_nodes_by_name. frame. Qed.

#[local] Hint Resolve trace_grows_cancel trace_grows__get_nodes_by_name
  : frames.

Lemma trace_grows__check_and_cancel job reason_descr :
  always trace_grows (_check_and_cancel job reason_descr).
Proof. unfold _check_and_cancel. frame. Qed.

#[local] Hint Resolve trace_grows__check_and_cancel : frames.

Lemma trace_grows__cancel_if_blocked job :
  always trace_grows (_cancel_if_blocked job).
Proof. unfold _cancel_if_blocked. frame. Qed.

Lemma trace_grows__set_nodelist job nodespec :
  always trace_grows (_set_nodelist job nodespec).
Proof. unfold _set_nodelist. frame. Qed.

#[local] Hint Resolve trace_grows__cancel_if_blocked
  trace_grows__set_nodelist : frames.

Lemma trace_grows_squeue_update info job :
  always trace_grows (squeue_update info job).
Proof. unfold squeue_update. frame. Qed.

Lemma trace_grows_sacct_update info job :
  always trace_grows (sacct_update info job).
Proof. unfold sacct_update. frame. Qed.

#[local] Hint Resolve trace_grows_squeue_update trace_grows_sacct_update
  : frames.

(** ** The squeue poll on a job that left the queue *)

Lemma squeue_update_ok info job w st st' :
  squeue_update info job w st = (Ok tt, st') ->
  sched st' = sched st /\
  (forall x, x <> job -> heap st' !!! x = heap st !!! x) /\
  jobid (heap st' !!! job) = jobid (heap st !!! job) /\
  (info_of info (heap st !!! job) = None ->
   state (heap st' !!! job) = Some (synthesized_state (sched st) job) /\
   exitcode (heap st' !!! job)
   = Some (default 0 (exitcode (heap st !!! job)))).
Proof.
  unfold squeue_update. intros H.
  apply bind_ok in H as (j & s0 & Hj & H). apply get_job_ok in Hj as [-> ->].
  destruct (info_of info (heap st !!! job)) as [job_match|] eqn:Hinfo.
  - apply bind_ok in H as ([] & s1 & H1 & H). apply modify_job_ok in H1 as ->.
    apply bind_ok in H as (self & s2 & H2 & H). apply get_sched_ok in H2 as [-> ->].
    apply bind_ok in H as (j & s3 & H3 & H). apply get_job_ok in H3 as [-> ->].
    simpl in H.
    assert (sched st' = sched st /\
            heap st' = <[job := set_state
                                  (Some (Py.join ","
                                     (map (fun s => group_ s "state") job_match)))
                                  (heap st !!! job)]> (heap st)) as [Hs Hh].
    { match type of H with
      | (if ?c then _ else _) _ _ = _ => destruct c
      end.
      - split.
        + eapply (on_ok_for_each sched_same) in H;
            [exact H|frame_side|frame_side|].
          intros x. apply on_ok_sched__check_and_cancel.
        + pose proof (always_for_each heap_same heap_same_refl heap_same_trans
                        job_match
                        (fun s => _check_and_cancel job (group_ s "reason"))
                        (fun s => heap_same__check_and_cancel job _) w) as Hk.
          specialize (Hk {| heap := <[job := set_state
                                  (Some (Py.join ","
                                     (map (fun s => group_ s "state") job_match)))
                                  (heap st !!! job)]> (heap st);
                            sched := sched st; trace := trace st |}).
          rewrite H in Hk. exact Hk.
      - apply ret_ok in H as [_ ->]. done. }
    rewrite Hs, Hh. split; [done|]. split; [|split].
    + intros x Hx. by rewrite lookup_total_insert_ne.
    + by rewrite lookup_total_insert_eq.
    + discriminate.
  - apply bind_ok in H as (self & s1 & H1 & H). apply get_sched_ok in H1 as [-> ->].
    apply bind_ok in H as ([] & s2 & H2 & H). apply modify_job_ok in H2 as ->.
    apply bind_ok in H as (j & s3 & H3 & H). apply get_job_ok in H3 as [-> ->].
    simpl in H. rewrite lookup_total_insert_eq in H. simpl in H.
    destruct (exitcode (heap st !!! job)) as [e|] eqn:He.
    + apply ret_ok in H as [_ ->]. simpl. split; [done|]. split; [|split].
      * intros x Hx. by rewrite lookup_total_insert_ne.
      * by rewrite lookup_total_insert_eq.
      * intros _. rewrite lookup_total_insert_eq. simpl. by rewrite He.
    + apply modify_job_ok in H as ->. simpl. split; [done|]. split; [|split].
      * intros x Hx. by rewrite !lookup_total_insert_ne.
      * by rewrite !lookup_total_insert_eq.
      * intros _. by rewrite !lookup_total_insert_eq.
Qed.

(** The last loop of the squeue poll, when it runs to its end. *)
Lemma squeue_loop_ok info jobs w st st' :
  for_each jobs (squeue_update info) w st = (Ok tt, st') ->
  sched st' = sched st /\
  (forall x, jobid (heap st' !!! x) = jobid (heap st !!! x)) /\
  (forall x, info_of info (heap st !!! x) = None ->
     (In x jobs ->
      state (heap st' !!! x) = Some (synthesized_state (sched st) x) /\
      exitcode (heap st' !!! x) = Some (default 0 (exitcode (heap st !!! x))))
     /\ (~ In x jobs -> heap st' !!! x = heap st !!! x)).
Proof.
  revert st. induction jobs as [|job jobs IH]; intros st H; simpl in H.
  - apply ret_ok in H as [_ ->]. split; [done|]. split; [done|].
    intros x _. split; [intros []|done].
  - apply bind_ok in H as ([] & st1 & H1 & H).
    apply squeue_update_ok in H1 as (Hs1 & Hother & Hid & Hnone).
    apply IH in H as (Hs & Hids & Hx). clear IH.
    assert (Hid1 : forall x, jobid (heap st1 !!! x) = jobid (heap st !!! x)).
    { intros x. destruct (decide (x = job)) as [->|Hne]; [done|].
      by rewrite Hother. }
    split; [congruence|]. split; [intros x; by rewrite Hids|].
    intros x Hinfo.
    assert (Hinfo1 : info_of info (heap st1 !!! x) = None).
    { unfold info_of in *. by rewrite Hid1. }
    destruct (Hx x Hinfo1) as [Hin Hnin]. rewrite Hs1 in Hin.
    destruct (decide (x = job)) as [->|Hne].
    + destruct (Hnone Hinfo) as [Hst Hex]. split; [|intros []; by left].
      intros _. destruct (in_dec Nat.eq_dec job jobs) as [Hj|Hj].
      * destruct (Hin Hj) as [-> ->]. by rewrite Hex.
      * by rewrite (Hnin Hj).
    + rewrite Hother in Hin by done. split.
      * intros [->|Hj]; [done|]. by apply Hin.
      * intros Hj. rewrite Hnin, Hother; [done|done|]. intros Hj'. apply Hj. by right.
Qed.

Lemma lines_of_nil (ms : list Re.Match) (j : Job) :
  (forall m, In m ms -> jobid j <> Some (base_jobid m)) -> lines_of ms j = [].
Proof.
  intros H. unfold lines_of. induction ms as [|m ms IH]; [done|].
  rewrite filter_cons_False; [|apply H; by left].
  apply IH. intros m' Hm'. apply H. by right.
Qed.

Lemma squeue_cancel_marks job w st st' :
  backend (sched st) = Squeue ->
  cancel job w st = (Ok tt, st') ->
  job ∈ _cancelled (sched st') /\ job ∈ _is_cancelling (sched st').
Proof.
  intros Hb H. unfold cancel in H.
  apply bind_ok in H as (self & s0 & H0 & H). apply get_sched_ok in H0 as [-> ->].
  rewrite Hb in H. unfold SqueueJobScheduler_cancel, SlurmJobScheduler_cancel in H.
  apply bind_ok in H as ([] & s1 & H1 & H).
  apply bind_ok in H1 as (j & s2 & H2 & H1). apply get_job_ok in H2 as [-> ->].
  apply bind_ok in H1 as (self & s3 & H3 & H1). apply get_sched_ok in H3 as [-> ->].
  apply bind_ok in H1 as (c & s4 & H4 & H1).
  apply run_command_ok in H4 as (_ & _ & ->).
  apply bind_ok in H1 as (self & s5 & H5 & H1). apply get_sched_ok in H5 as [-> ->].
  unfold put_sched in H1. injection H1 as <-.
  apply bind_ok in H as (self & s6 & H6 & H). apply get_sched_ok in H6 as [-> ->].
  unfold put_sched in H. injection H as <-. simpl. set_solver.
Qed.

(** C6. In a squeue poll that runs to its end, take the output of the
    squeue command (the first command the poll runs). Every polled job
    whose id is the base job id of no line of that output gets the state
    CANCELLED if it is in the cancelled set and COMPLETED otherwise, and
    its exit code becomes 0 only if it was unset: one that was set stays.
    The cancelled set is where a successful [cancel] of the squeue back
    end puts the job. *)
Theorem squeue_poll_absent_job (w : World) (st st' : State)
    (jobs : list nat) (job : nat) :
  SqueueJobScheduler_poll jobs w st = (Ok tt, st') ->
  In job jobs ->
  (exists out,
     first_answer w st st' out /\
     ((forall m, In m (Re.finditer squeue_patt out) ->
                 jobid (heap st !!! job) <> Some (base_jobid m)) ->
      state (heap st' !!! job)
      = Some (if bool_decide (job ∈ _cancelled (sched st))
              then "CANCELLED" else "COMPLETED") /\
      exitcode (heap st' !!! job)
      = Some (default 0 (exitcode (heap st !!! job))))) /\
  (forall w0 s0 s1,
     backend (sched s0) = Squeue ->
     cancel job w0 s0 = (Ok tt, s1) -> job ∈ _cancelled (sched s1)).
Proof.
  intros H Hjob. split; [|intros w0 s0 s1 Hb Hc;
                          by destruct (squeue_cancel_marks _ _ _ _ Hb Hc)].
  unfold SqueueJobScheduler_poll in H.
  destruct jobs as [|job0 jobs0]; [destruct Hjob|].
  set (jobs := job0 :: jobs0) in *.
  apply bind_ok in H as (self & s0 & H0 & H). apply get_sched_ok in H0 as [-> ->].
  apply bind_ok in H as (times & s1 & H1 & H). apply books_ok in H1 as ->.
  apply bind_ok in H as (m & s2 & H2 & H). apply lift_ok in H2 as [_ ->].
  apply bind_ok in H as (now & s3 & H3 & H). apply datetime_now_ok in H3 as [-> ->].
  apply bind_ok in H as ([] & s4 & H4 & H).
  assert (exists pre,
             Forall (fun e => match e with EvRun _ _ => False | _ => True end)
                    pre /\
             s4 = {| heap := heap st; sched := sched st;
                     trace := (trace st ++ pre)%list |}) as (pre & Hpre & ->).
  { destruct (0 <? _) in H4.
    - unfold time_sleep in H4. apply (emit_ok _ w) in H4 as ->. simpl.
      exists [EvNow; EvSleep (_squeue_delay (sched st)
                               - (clock w (trace st) - m))].
      split; [by repeat constructor|]. by rewrite <- app_assoc.
    - apply ret_ok in H4 as [_ ->]. exists [EvNow].
      split; [by repeat constructor|done]. }
  apply bind_ok in H as (jobids & s5 & H5 & H). injection H5 as <- <-.
  apply bind_ok in H as (c & s6 & H6 & H).
  apply run_command_ok in H6 as (Hexec & _ & ->).
  cbn [heap sched trace] in *.
  exists (stdout_of c). split.
  - pose proof (always_for_each trace_grows trace_grows_refl trace_grows_trans
                  jobs _ (trace_grows_squeue_update
                            (group_matches
                               (Re.finditer squeue_patt (stdout_of c)))) w)
      as Hg.
    match type of H with ?f _ ?s = _ => specialize (Hg s) end.
    rewrite H in Hg. destruct Hg as [tl Htl]. cbn [trace snd] in Htl.
    eexists pre, _, None, tl, c. split; [|split; [exact Hpre|split; [exact Hexec|done]]].
    rewrite Htl. by rewrite <- !app_assoc.
  - intros Hnone. apply squeue_loop_ok in H as (_ & _ & Hx).
    cbn [heap sched trace] in Hx.
    destruct (Hx job) as [Hin _].
    + rewrite info_of_lines, lines_of_nil; [done|exact Hnone].
    + by apply Hin.
Qed.

(** ** The sacct poll and the exit code *)

Lemma results_kept_refl st : results_kept st st.
Proof. intros x. done. Qed.

Lemma results_kept_trans a b c :
  results_kept a b -> results_kept b c -> results_kept a c.
Proof.
  intros H1 H2 x. destruct (H1 x) as (E1 & E2 & E3).
  destruct (H2 x) as (F1 & F2 & F3). by rewrite F1, F2, F3.
Qed.

Lemma heap_same_results_kept st st' : heap_same st st' -> results_kept st st'.
Proof. unfold heap_same. intros H x. by rewrite H. Qed.

Lemma results_kept__get_nodes_by_name nodespec :
  always results_kept (_get_nodes_by_name nodespec).
Proof.
  intros w st. apply heap_same_results_kept, heap_same__get_nodes_by_name.
Qed.

Lemma results_kept_set_nodelist job v :
  always results_kept (modify_job job (set_nodelist v)).
Proof.
  intros w st x. simpl. destruct (decide (x = job)) as [->|Hne].
  - by rewrite lookup_total_insert_eq.
  - by rewrite lookup_total_insert_ne.
Qed.

Lemma results_kept__set_nodelist job nodespec :
  always results_kept (_set_nodelist job nodespec).
Proof.
  unfold _set_nodelist.
  apply always_bind;
    [exact results_kept_trans|apply always_get_job, results_kept_refl|].
  intros j. destruct (nodelist j).
  - apply always_ret, results_kept_refl.
  - destruct (_ && _); [|apply always_ret, results_kept_refl].
    apply always_bind;
      [exact results_kept_trans|apply results_kept__get_nodes_by_name|].
    intros nodes. apply results_kept_set_nodelist.
Qed.

Lemma fold_max_ge (l : list Z) (x : Z) :
  x <= fold_left Z.max l x /\ Forall (fun e => e <= fold_left Z.max l x) l /\
  (fold_left Z.max l x = x \/ In (fold_left Z.max l x) l).
Proof.
  revert x. induction l as [|y l IH]; intros x; simpl.
  - split; [lia|]. split; [constructor|by left].
  - destruct (IH (Z.max x y)) as (H1 & H2 & H3).
    split; [lia|]. split.
    + constructor; [lia|exact H2].
    + destruct H3 as [H3|H3]; [|right; by right].
      rewrite H3. destruct (Z.max_spec x y) as [[_ ->]|[_ ->]];
        [right; by left|by left].
Qed.

(** [max] gives an element that no element exceeds. *)
Lemma py_max_spec (l : list Z) (v : Z) :
  py_max l = Ok v -> In v l /\ Forall (fun e => e <= v) l.
Proof.
  destruct l as [|x l]; [discriminate|]. simpl. intros [= <-].
  destruct (fold_max_ge l x) as (H1 & H2 & H3). split.
  - destruct H3 as [->|H3]; [by left|by right].
  - by constructor.
Qed.

Lemma py_max_nonempty (l : list Z) :
  l <> [] -> exists v, py_max l = Ok v.
Proof. destruct l; [done|]. intros _. eexists. reflexivity. Qed.

(** A postcondition goes through [bind] outcome by outcome. *)
Lemma bind_post {A B : Type} (m : M A) (k : A -> M B) (w : World) (st : State)
    (Q : result B -> State -> Prop) :
  (forall a st1, m w st = (Ok a, st1) -> Q (k a w st1).1 (k a w st1).2) ->
  (forall e st1, m w st = (Raise e, st1) -> Q (Raise e) st1) ->
  Q (bind m k w st).1 (bind m k w st).2.
Proof.
  intros Hok Hraise. unfold bind.
  destruct (m w st) as [[a|e] st1]; [by apply Hok|by apply Hraise].
Qed.

Lemma sacct_step_post_kept ms job st r st1 st' :
  sacct_step_post ms job st (Raise KeyError) st1 ->
  results_kept st1 st' ->
  (forall r0, r = Ok tt -> sacct_step_post ms job st r0 st1) ->
  sacct_step_post ms job st r st'.
Proof.
  intros (H1 & H2 & H3 & H4) Hk Hok. split; [|split; [|split]].
  - intros x Hx. destruct (Hk x) as (-> & -> & ->). by apply H1.
  - destruct (Hk job) as (-> & _). exact H2.
  - intros Hl. destruct (Hk job) as (_ & -> & ->). by apply H3.
  - intros Hl. destruct (Hk job) as (_ & -> & ->).
    destruct (H4 Hl) as (Hs & v & Hv & Hor & _). split; [done|].
    exists v. split; [done|]. split; [done|].
    intros ->. destruct (Hok (Ok tt) eq_refl) as (_ & _ & _ & H4').
    destruct (H4' Hl) as (_ & v' & Hv' & _ & Hr).
    assert (v' = v) as -> by congruence. by apply Hr.
Qed.

Lemma sacct_update_post ms job w st :
  sacct_step_post ms job st
    (sacct_update (group_matches ms) job w st).1
    (sacct_update (group_matches ms) job w st).2.
Proof.
  unfold sacct_update. apply bind_post; [|discriminate].
  intros j s0 Hj. apply get_job_ok in Hj as [-> ->].
  rewrite info_of_lines.
  destruct (lines_of ms (heap st !!! job)) as [|m0 l0] eqn:Hlines.
  { simpl. unfold sacct_step_post. rewrite Hlines.
    split; [done|]. split; [done|]. split; [done|]. by intros []. }
  set (lines := m0 :: l0) in *.
  fold (joined_state lines).
  destruct (py_max_nonempty (exitcodes lines)) as [v Hv]; [done|].
  set (j1 := set_state (Some (joined_state lines)) (heap st !!! job)).
  set (st1 := {| heap := <[job := j1]> (heap st); sched := sched st;
                 trace := trace st |}).
  (* the results once the state is written *)
  assert (Hbase : forall r, (r = Ok tt ->
                    slurm_state_completed (Some (joined_state lines)) = false) ->
                  sacct_step_post ms job st r st1).
  { intros r Hr. unfold sacct_step_post. rewrite Hlines. fold lines. simpl.
    split; [|split; [|split]].
    - intros x Hx. by rewrite lookup_total_insert_ne.
    - by rewrite lookup_total_insert_eq.
    - done.
    - intros _. rewrite lookup_total_insert_eq. split; [done|].
      exists v. split; [done|]. split; [by left|].
      intros Hok. by rewrite (Hr Hok). }
  apply bind_post; [|discriminate].
  intros [] s1 H1. apply modify_job_ok in H1. fold j1 st1 in H1. subst s1.
  apply bind_post; [|discriminate].
  intros self s2 H2. apply get_sched_ok in H2 as [-> ->].
  apply bind_post;
    [|intros e s3 H3; unfold book in H3;
      destruct (_ !! job); [discriminate|]; injection H3 as <- <-;
      by apply Hbase].
  intros n s3 H3. apply book_ok in H3 as [_ ->].
  apply bind_post.
  2:{ intros e s4 H4. eapply sacct_step_post_kept;
        [by apply (Hbase (Raise KeyError))| |discriminate].
      apply heap_same_results_kept.
      destruct (_ =? 0) in H4.
      - pose proof (heap_same__cancel_if_blocked job w st1) as Hh.
        by rewrite H4 in Hh.
      - discriminate. }
  intros [] s4 H4.
  assert (Hh4 : heap s4 = heap st1).
  { destruct (_ =? 0) in H4.
    - pose proof (heap_same__cancel_if_blocked job w st1) as Hh.
      by rewrite H4 in Hh.
    - by apply ret_ok in H4 as [_ ->]. }
  apply bind_post; [|discriminate].
  intros j2 s5 H5. apply get_job_ok in H5 as [-> ->].
  assert (Hj2 : heap s4 !!! job = j1).
  { rewrite Hh4. simpl. by rewrite lookup_total_insert_eq. }
  rewrite Hj2. change (state j1) with (Some (joined_state lines)).
  destruct (slurm_state_completed (Some (joined_state lines))) eqn:Hc.
  - (* completed: the exit code is written *)
    apply bind_post.
    2:{ intros e s6 H6. apply bind_ok in H6 as (? & ? & ? & ?) || idtac.
        unfold bind in H6. fold (exitcodes lines) in H6.
        unfold lift in H6. rewrite Hv in H6. discriminate. }
    intros [] s6 H6. apply bind_ok in H6 as (v' & s7 & H7 & H6).
    fold (exitcodes lines) in H7. apply lift_ok in H7 as [H7 ->].
    assert (v' = v) as -> by congruence.
    apply modify_job_ok in H6. rewrite Hj2 in H6.
    set (st6 := {| heap := <[job := set_exitcode (Some v) j1]> (heap s4);
                   sched := sched s4; trace := trace s4 |}) in *.
    subst s6.
    assert (Hst6 : forall r, sacct_step_post ms job st r st6).
    { intros r. unfold sacct_step_post. rewrite Hlines. fold lines. simpl.
      rewrite Hh4. simpl. split; [|split; [|split]].
      - intros x Hx. by rewrite !lookup_total_insert_ne.
      - by rewrite !lookup_total_insert_eq.
      - done.
      - intros _. rewrite !lookup_total_insert_eq. split; [done|].
        exists v. split; [done|]. split; [right; by rewrite Hc|].
        intros _. by rewrite Hc. }
    eapply sacct_step_post_kept; [apply Hst6| |intros r0 _; apply Hst6].
    apply results_kept__set_nodelist.
  - (* not completed: the exit code stays *)
    apply bind_post; [|discriminate].
    intros [] s6 H6. apply ret_ok in H6 as [_ ->].
    assert (Hs4 : forall r, sacct_step_post ms job st r s4).
    { intros r. destruct (Hbase r) as (B1 & B2 & B3 & B4); [done|].
      unfold sacct_step_post. rewrite Hh4. done. }
    eapply sacct_step_post_kept; [apply Hs4| |intros r0 _; apply Hs4].
    apply results_kept__set_nodelist.
Qed.

Lemma lines_of_jobid ms (j j' : Job) :
  jobid j' = jobid j -> lines_of ms j' = lines_of ms j.
Proof. unfold lines_of. by intros ->. Qed.

Lemma sacct_inv_start ms st0 st :
  heap st = heap st0 -> sacct_inv ms st0 st.
Proof. intros H x. rewrite H. split; [done|by left]. Qed.

Lemma sacct_inv_step ms job st0 st r st1 :
  sacct_inv ms st0 st ->
  sacct_step_post ms job st r st1 ->
  sacct_inv ms st0 st1.
Proof.
  intros Hinv (Hother & Hid & Hnil & Hcons) x.
  destruct (Hinv x) as [Hjid Hex].
  destruct (decide (x = job)) as [->|Hne].
  - rewrite Hid. split; [done|].
    rewrite (lines_of_jobid ms _ _ Hjid) in Hnil, Hcons.
    destruct (lines_of ms (heap st0 !!! job)) as [|m0 l0] eqn:Hl.
    + destruct (Hnil eq_refl) as [Hs He]. rewrite He, Hs. exact Hex.
    + destruct Hcons as (Hs & v & Hv & Hor & _); [done|].
      destruct Hor as [He|[Hc He]].
      * rewrite He. destruct Hex as [Hex|(Hn & _ & Hc & v' & Hv' & Hex)];
          [by left|right].
        split; [done|]. split; [done|]. split; [done|]. by exists v'.
      * right. split; [done|]. split; [done|]. split; [done|]. by exists v.
  - destruct (Hother x Hne) as (-> & -> & ->). done.
Qed.

Lemma sacct_loop_inv ms jobs w st0 st :
  sacct_inv ms st0 st ->
  sacct_inv ms st0 (for_each jobs (sacct_update (group_matches ms)) w st).2.
Proof.
  revert st. induction jobs as [|job jobs IH]; intros st Hinv; [done|].
  simpl. unfold bind at 1.
  pose proof (sacct_update_post ms job w st) as Hpost.
  destruct (sacct_update (group_matches ms) job w st) as [[[]|e] st1];
    simpl in Hpost |- *.
  - apply IH. eapply sacct_inv_step; [exact Hinv|exact Hpost].
  - eapply sacct_inv_step; [exact Hinv|exact Hpost].
Qed.

(** The last loop of the sacct poll, when it runs to its end. *)
Lemma sacct_loop_ok ms jobs w st st' :
  for_each jobs (sacct_update (group_matches ms)) w st = (Ok tt, st') ->
  forall x,
    jobid (heap st' !!! x) = jobid (heap st !!! x) /\
    (~ In x jobs ->
     state (heap st' !!! x) = state (heap st !!! x) /\
     exitcode (heap st' !!! x) = exitcode (heap st !!! x)) /\
    let lines := lines_of ms (heap st !!! x) in
    (In x jobs -> lines <> [] ->
     state (heap st' !!! x) = Some (joined_state lines) /\
     exists v, py_max (exitcodes lines) = Ok v /\
               exitcode (heap st' !!! x)
               = if slurm_state_completed (Some (joined_state lines))
                 then Some v else exitcode (heap st !!! x)).
Proof.
  revert st. induction jobs as [|job jobs IH]; intros st H x; simpl in H.
  - apply ret_ok in H as [_ ->]. split; [done|]. split; [done|]. by intros [].
  - apply bind_ok in H as ([] & st1 & H1 & H).
    pose proof (sacct_update_post ms job w st) as Hpost.
    rewrite H1 in Hpost. simpl in Hpost.
    destruct Hpost as (Hother & Hid & Hnil & Hcons).
    destruct (IH _ H x) as (Hjid & Hnin & Hin). clear IH.
    assert (Hjid1 : jobid (heap st1 !!! x) = jobid (heap st !!! x)).
    { destruct (decide (x = job)) as [->|Hne]; [done|]. by apply Hother. }
    rewrite (lines_of_jobid ms _ _ Hjid1) in Hin.
    split; [congruence|]. cbv zeta in *.
    destruct (decide (x = job)) as [->|Hne].
    + split; [intros Hn; destruct Hn; by left|].
      intros _ Hl. destruct (Hcons Hl) as (Hs & v & Hv & _ & Hr).
      specialize (Hr eq_refl).
      destruct (in_dec Nat.eq_dec job jobs) as [Hj|Hj].
      * destruct (Hin Hj Hl) as (Hs' & v' & Hv' & He').
        assert (v' = v) as -> by congruence.
        split; [done|]. exists v. split; [done|].
        rewrite He', Hr. by destruct (slurm_state_completed _).
      * destruct (Hnin Hj) as [E1 E2]. rewrite E1, E2.
        split; [done|]. by exists v.
    + destruct (Hother x Hne) as (_ & Hs1 & He1). split.
      * intros Hn. destruct Hnin as [E1 E2].
        { intros Hj. apply Hn. by right. }
        by rewrite E1, E2.
      * intros [->|Hj]; [done|]. intros Hl.
        destruct (Hin Hj Hl) as (Hs' & v & Hv & He').
        split; [done|]. exists v. split; [done|]. by rewrite He', He1.
Qed.

Lemma books_state d jobs w st : (books d jobs w st).2 = st.
Proof.
  exact (always_books (fun st st' => st' = st) (fun _ => eq_refl)
           (fun a b c H1 H2 => eq_trans H2 H1) d jobs w st).
Qed.

Lemma heap_same_count_polls jobs : always heap_same (count_polls jobs).
Proof. unfold count_polls. frame. Qed.

Lemma trace_grows_count_polls jobs : always trace_grows (count_polls jobs).
Proof. unfold count_polls. frame. Qed.

Lemma sacct_poll_post_untouched w jobs st r st' :
  heap st' = heap st -> sacct_poll_post w jobs st r st'.
Proof.
  intros Hh. exists []. split; [by left|].
  split; [by apply sacct_inv_start|].
  intros _ x _ Hl. by destruct Hl.
Qed.

Lemma SlurmJobScheduler_poll_post w jobs st :
  sacct_poll_post w jobs st
    (SlurmJobScheduler_poll jobs w st).1 (SlurmJobScheduler_poll jobs w st).2.
Proof.
  unfold SlurmJobScheduler_poll. destruct jobs as [|job0 jobs0].
  { by apply sacct_poll_post_untouched. }
  set (jobs := job0 :: jobs0).
  apply bind_post; [|discriminate].
  intros self s0 H0. apply get_sched_ok in H0 as [-> ->].
  apply bind_post.
  2:{ intros e s1 H1.
      pose proof (books_state (_submit_time (sched st)) jobs w st) as Hb.
      rewrite H1 in Hb. simpl in Hb. subst s1.
      by apply sacct_poll_post_untouched. }
  intros times s1 H1. apply books_ok in H1 as ->.
  apply bind_post.
  2:{ intros e s2 H2. unfold lift in H2. injection H2 as _ <-.
      by apply sacct_poll_post_untouched. }
  intros start_time s2 H2. apply lift_ok in H2 as [_ ->].
  apply bind_post; [|discriminate].
  intros jobids s3 H3. injection H3 as <- <-.
  apply bind_post.
  2:{ intros e s4 H4. cbv beta in H4.
      match type of H4 with
      | _run_strict ?cmd ?t w st = _ =>
          pose proof (heap_same__run_strict cmd t w st) as Hh
      end.
      rewrite H4 in Hh. by apply sacct_poll_post_untouched. }
  intros c s4 H4. apply run_command_ok in H4 as (Hexec & _ & ->).
  fold (count_polls jobs).
  match goal with
  | |- context [EvRun ?cmd None] => set (sacct := cmd) in *
  end.
  set (s4 := {| heap := heap st; sched := sched st;
                trace := (trace st ++ [EvRun sacct None])%list |}).
  assert (Hfirst : forall s, trace_grows s4 s ->
                             first_answer w st s (stdout_of c)).
  { intros s [tl Htl]. exists [], sacct, None, tl, c.
    rewrite app_nil_r. split; [|done].
    rewrite Htl. simpl. by rewrite <- app_assoc. }
  apply bind_post.
  2:{ intros e s5 H5.
      pose proof (heap_same_count_polls jobs w s4) as Hh. rewrite H5 in Hh.
      by apply sacct_poll_post_untouched. }
  intros [] s5 H5.
  pose proof (heap_same_count_polls jobs w s4) as Hh5. rewrite H5 in Hh5.
  pose proof (trace_grows_count_polls jobs w s4) as Hg5. rewrite H5 in Hg5.
  unfold heap_same in Hh5. cbn [snd heap] in Hh5, Hg5.
  destruct (Re.finditer sacct_patt (stdout_of c)) as [|m0 ms0] eqn:Hms.
  { by apply sacct_poll_post_untouched. }
  set (ms := m0 :: ms0) in *.
  exists ms. split; [|split].
  - right. exists (stdout_of c). split; [|done]. apply Hfirst.
    eapply trace_grows_trans; [exact Hg5|].
    apply (always_for_each trace_grows trace_grows_refl trace_grows_trans).
    intros x. apply trace_grows_sacct_update.
  - apply sacct_loop_inv. by apply sacct_inv_start.
  - intros Hr x Hx Hl.
    destruct (for_each jobs (sacct_update (group_matches ms)) w s5)
      as [r' s6] eqn:Hloop.
    simpl in Hr |- *. subst r'.
    destruct (sacct_loop_ok _ _ _ _ _ Hloop x) as (_ & _ & Hin).
    rewrite Hh5 in Hin. by apply Hin.
Qed.

(** C2. Take a sacct poll, with whatever outcome, and the lines of its
    sacct output (the first command the poll runs) that the line pattern
    matches; the lines of a job are those whose base job id is the job's
    id. If the poll has changed the exit code of a job, then the job has
    lines, its state is complete by [slurm_state_completed], and the new
    exit code is the highest of the exit codes on its lines. If the poll
    runs to its end, every polled job with lines has the joined state of
    its lines, keeps its exit code when that state is not complete, and
    has the highest exit code of its lines when it is. *)
Theorem sacct_poll_exitcode (w : World) (st : State) (jobs : list nat) :
  let r := (SlurmJobScheduler_poll jobs w st).1 in
  let st' := (SlurmJobScheduler_poll jobs w st).2 in
  exists state_match,
    (state_match = [] \/
     exists out, first_answer w st st' out /\
                 state_match = Re.finditer sacct_patt out) /\
    forall job,
      let j := heap st !!! job in
      let j' := heap st' !!! job in
      let lines := lines_of state_match j in
      (exitcode j' <> exitcode j ->
       lines <> [] /\
       slurm_state_completed (state j') = true /\
       exists v, exitcode j' = Some v /\
                 In v (exitcodes lines) /\
                 Forall (fun e => e <= v) (exitcodes lines)) /\
      (r = Ok tt -> In job jobs -> lines <> [] ->
       state j' = Some (joined_state lines) /\
       (slurm_state_completed (state j') = false ->
        exitcode j' = exitcode j) /\
       (slurm_state_completed (state j') = true ->
        exists v, exitcode j' = Some v /\
                  In v (exitcodes lines) /\
                  Forall (fun e => e <= v) (exitcodes lines))).
Proof.
  cbv zeta.
  destruct (SlurmJobScheduler_poll_post w jobs st) as (ms & Hpin & Hinv & Hok).
  exists ms. split; [exact Hpin|]. intros job. split.
  - intros Hne. destruct (Hinv job) as [_ [He|(Hl & Hs & Hc & v & Hv & He)]];
      [done|].
    split; [done|]. rewrite Hs. split; [done|].
    exists v. split; [done|]. by apply py_max_spec.
  - intros Hr Hin Hl. destruct (Hok Hr job Hin Hl) as (Hs & v & Hv & He).
    rewrite Hs. split; [done|]. rewrite He. split.
    + by intros ->.
    + intros ->. exists v. split; [done|]. by apply py_max_spec.
Qed.

(** ** Cancellation *)

(** [cancel] runs scancel with the submit timeout. When scancel fails or
    outlives the timeout, that error leaves [cancel]; when it succeeds,
    the job is in [_is_cancelling] and no job object has changed. *)
Lemma cancel_outcome (w : World) (st : State) (job : nat) :
  let j := heap st !!! job in
  let timeout := _submit_timeout (sched st) in
  let st1 := ran st (EvRun (scancel_cmd j) timeout) in
  match exec w (trace st) (scancel_cmd j) timeout with
  | Exited c =>
      if returncode c =? 0
      then exists st', cancel job w st = (Ok tt, st') /\
                       heap st' = heap st /\ trace st' = trace st1 /\
                       job ∈ _is_cancelling (sched st')
      else cancel job w st = (Raise (SpawnedProcessError (scancel_cmd j)), st1)
  | Expired =>
      cancel job w st = (Raise (SpawnedProcessTimeout (scancel_cmd j)), st1)
  end.
Proof.
  cbv zeta. unfold cancel, SqueueJobScheduler_cancel, SlurmJobScheduler_cancel,
    _run_strict, run_command, bind, get_sched, get_job, put_sched, scancel_cmd,
    ran.
  destruct (backend (sched st));
    destruct (exec w (trace st) _ _) as [c|]; simpl; try reflexivity;
    destruct (returncode c =? 0); simpl; try reflexivity;
    eexists; (split; [reflexivity|]); simpl;
    (split; [reflexivity|]); (split; [reflexivity|]); set_solver.
Qed.

Lemma cancel_then_raises {A : Type} w st job e (out : result A * State) :
  cancel_then w st job e out -> exists e', out.1 = Raise e'.
Proof.
  intros (_ & _ & H). destruct (exec _ _ _ _) as [c|]; [|eauto].
  destruct (returncode c =? 0); [destruct H|]; eauto.
Qed.

Lemma cancel_then_intro {A : Type} w st job (E : option Z -> exn) :
  cancel_then w st job (E (jobid (heap st !!! job)))
    ((let* _ := cancel job in
      let* j := get_job job in
      @raise A (E (jobid j))) w st).
Proof.
  pose proof (cancel_outcome w st job) as H. cbv zeta in H.
  unfold cancel_then. cbv zeta.
  destruct (exec w (trace st) _ _) as [c|].
  - destruct (returncode c =? 0).
    + destruct H as (st' & H & Hh & Ht & Hc).
      rewrite (bind_eq _ _ _ _ _ _ H).
      unfold raise, get_job, bind. simpl. rewrite Hh. done.
    + rewrite (bind_raise _ _ _ _ _ _ H). done.
  - rewrite (bind_raise _ _ _ _ _ _ H). done.
Qed.

Lemma cancel_then_bind {A B : Type} w st job e (m : M A) (k : A -> M B)
    (s : State) :
  cancel_then w st job e (m w s) -> cancel_then w st job e (bind m k w s).
Proof.
  intros H. destruct (cancel_then_raises _ _ _ _ _ H) as [e' He'].
  destruct (m w s) as [r s'] eqn:Hm. simpl in He'. subst r.
  rewrite (bind_raise _ _ _ _ _ _ Hm).
  unfold cancel_then in *. simpl in *. destruct H as (H1 & H2 & H3).
  split; [done|]. split; [done|].
  destruct (exec _ _ _ _) as [c|]; [destruct (returncode c =? 0)|].
  - destruct H3 as [[= ->] H3]. done.
  - by injection H3 as ->.
  - by injection H3 as ->.
Qed.

Lemma enforce_max_pending_time_exceeded w st job d t :
  let j := heap st !!! job in
  max_pending_time j = Some d -> d <> 0 ->
  slurm_state_pending (state j) = true ->
  _submit_time (sched st) !! job = Some t ->
  d <= clock w (trace st) - t ->
  cancel_then w (ran st EvNow) job
    (JobError "maximum pending time exceeded" (jobid j))
    (enforce_max_pending_time job w st).
Proof.
  intros j Hd Hd0 Hp Ht Hle.
  assert (enforce_max_pending_time job w st
          = (let* _ := cancel job in
             let* j := get_job job in
             raise (JobError "maximum pending time exceeded" (jobid j)))
              w (ran st EvNow)) as ->.
  { unfold enforce_max_pending_time. unfold bind at 1, get_job at 1.
    fold j. rewrite Hd, Hp.
    replace (negb (d =? 0)) with true by (symmetry; apply negb_true_iff; lia).
    cbn [andb]. unfold bind at 1, datetime_now. unfold bind at 1, get_sched.
    cbn [sched]. unfold bind at 1, book. rewrite Ht. cbn [default ret].
    unfold id. replace (d <=? clock w (trace st) - t) with true by (symmetry; lia).
    reflexivity. }
  apply (cancel_then_intro w (ran st EvNow) job
           (JobError "maximum pending time exceeded")).
Qed.

(** C3, as amended. Take a job whose pending-time limit is set and not
    zero, that has a submit time, and for which the time since then is at
    least the limit when the clock is read. If the state of the job is
    pending by [slurm_state_pending], a turn of the loop of [wait], and
    [finished] on a job without a stored exception, read the clock, run
    scancel, and raise: the error of the exceeded pending time when
    scancel succeeded, the failure of scancel otherwise. *)
Theorem max_pending_time_enforced (w : World) (st : State) (job : nat)
    (d t : Z) :
  let j := heap st !!! job in
  max_pending_time j = Some d -> d <> 0 ->
  slurm_state_pending (state j) = true ->
  _submit_time (sched st) !! job = Some t ->
  d <= clock w (trace st) - t ->
  (forall i,
     cancel_then w (ran st EvNow) job
       (JobError "maximum pending time exceeded" (jobid j))
       (wait_body job i w st)) /\
  (exception j = None ->
   cancel_then w (ran st EvNow) job
     (JobError "maximum pending time exceeded" (jobid j))
     (finished job w st)).
Proof.
  intros j Hd Hd0 Hp Ht Hle.
  pose proof (enforce_max_pending_time_exceeded w st job d t Hd Hd0 Hp Ht Hle)
    as H.
  split.
  - intros i. unfold wait_body. by apply cancel_then_bind.
  - intros Hex. unfold finished. unfold bind at 1, get_job at 1.
    fold j. rewrite Hex. unfold bind at 1, ret at 1.
    by apply cancel_then_bind.
Qed.

(** C3, as the claim states it, fails: a job that is running, six seconds
    after its submission and with a pending-time limit of five, is
    neither cancelled nor timed out by [finished], which leaves the state
    as it was and answers that the job has not finished. *)
Lemma max_pending_time_running_job :
  let w := Example.scripted [] 6000000 in
  let j := Example.running (Example.requested None None [] [] (Some 5000000))
             42 (Some "RUNNING") in
  let st := Example.submitted Sacct false false [j] in
  max_pending_time (heap st !!! 0%nat) = Some 5000000 /\
  _submit_time (sched st) !! 0%nat = Some 0 /\
  5000000 <= clock w (trace st) - 0 /\
  finished 0 w st = (Ok false, st).
Proof. vm_compute. repeat split; congruence. Qed.

Lemma max_pending_time_enforced_witness :
  let w := Example.scripted [] 6000000 in
  let j := Example.running (Example.requested None None [] [] (Some 5000000))
             42 (Some "PENDING") in
  let st := Example.submitted Sacct false false [j] in
  (max_pending_time (heap st !!! 0%nat) = Some 5000000 /\
   5000000 <> 0 /\
   slurm_state_pending (state (heap st !!! 0%nat)) = true /\
   _submit_time (sched st) !! 0%nat = Some 0 /\
   5000000 <= clock w (trace st) - 0) /\
  cancel_then w (ran st EvNow) 0
    (JobError "maximum pending time exceeded" (jobid (heap st !!! 0%nat)))
    (finished 0 w st).
Proof.
  cbv zeta.
  assert (H1 : max_pending_time
                 (heap (Example.submitted Sacct false false
                    [Example.running
                       (Example.requested None None [] [] (Some 5000000))
                       42 (Some "PENDING")]) !!! 0%nat) = Some 5000000)
    by (vm_compute; reflexivity).
  assert (H2 : 5000000 <> 0) by lia.
  assert (H3 : slurm_state_pending
                 (state (heap (Example.submitted Sacct false false
                    [Example.running
                       (Example.requested None None [] [] (Some 5000000))
                       42 (Some "PENDING")]) !!! 0%nat)) = true)
    by (vm_compute; reflexivity).
  assert (H4 : _submit_time
                 (sched (Example.submitted Sacct false false
                    [Example.running
                       (Example.requested None None [] [] (Some 5000000))
                       42 (Some "PENDING")])) !! 0%nat = Some 0)
    by (vm_compute; reflexivity).
  assert (H5 : 5000000
               <= clock (Example.scripted [] 6000000)
                    (trace (Example.submitted Sacct false false
                       [Example.running
                          (Example.requested None None [] [] (Some 5000000))
                          42 (Some "PENDING")])) - 0)
    by (vm_compute; congruence).
  split; [done|].
  refine (proj2 (max_pending_time_enforced _ _ 0%nat 5000000 0 H1 H2 H3 H4 H5) _).
  vm_compute. reflexivity.
Defined.

(** ** The reason-based cancel policy *)

Lemma existsb_eqb_In (x : string) (l : list string) :
  existsb (String.eqb x) l = true <-> In x l.
Proof.
  rewrite existsb_exists. split.
  - intros (y & Hy & Heq). apply String.eqb_eq in Heq. by subst.
  - intros H. exists x. split; [done|apply String.eqb_refl].
Qed.

Lemma existsb_eqb_not_In (x : string) (l : list string) :
  existsb (String.eqb x) l = false <-> ~ In x l.
Proof.
  rewrite <- existsb_eqb_In. destruct (existsb _ l); split; congruence.
Qed.

(** The reasons a scheduler cancels for, after [__init__]. *)
Lemma init_cancel_reasons b (ignore_reqnodenotavail : bool) timeout nodes
    (reason : string) :
  In reason (_cancel_reasons (init b ignore_reqnodenotavail timeout nodes))
  <-> In reason ["FrontEndDown"; "Licenses"; "NodeDown"; "PartitionDown";
                 "PartitionInactive"; "PartitionNodeLimit"; "QOSJobLimit";
                 "QOSResourceLimit"; "QOSUsageThreshold"]
      \/ (reason = "ReqNodeNotAvail" /\ ignore_reqnodenotavail = false).
Proof.
  unfold init. cbn [_cancel_reasons]. rewrite in_app_iff.
  destruct ignore_reqnodenotavail; simpl; intuition congruence.
Qed.

(** C5, as amended. Cut the reason line at its first comma into the
    reason and, if there is a comma, the details. A reason outside the
    cancel reasons of the scheduler makes [_check_and_cancel] return at
    once, and so does ReqNodeNotAvail when the configuration leaves it
    out. For a reason among them:
    - any reason but ReqNodeNotAvail: the job is cancelled and
      [JobBlockedError] is raised, its message holding the reason and,
      after a comma, the details if there are any;
    - ReqNodeNotAvail with details that, stripped, match the pattern of
      the unavailable nodes: without node names it returns at once; with
      node names it asks for these nodes and returns when none of them
      is down, and cancels and raises as above when one is;
    - ReqNodeNotAvail without details, or with details that do not match:
      it cancels and raises as above. *)
Theorem check_and_cancel_policy (w : World) (st : State) (job : nat)
    (reason_descr : string) :
  let reason := (Py.split1 "," reason_descr).1 in
  let details := (Py.split1 "," reason_descr).2 in
  let blocked :=
    JobBlockedError
      ("job cancelled because it was blocked due to a perhaps non-recoverable reason: "
       +:+ reason
       +:+ match details with Some d => ", " +:+ d | None => EmptyString end)
      (jobid (heap st !!! job)) in
  let out := _check_and_cancel job reason_descr w st in
  (~ In reason (_cancel_reasons (sched st)) -> out = (Ok tt, st)) /\
  (In reason (_cancel_reasons (sched st)) ->
   (reason <> "ReqNodeNotAvail" -> cancel_then w st job blocked out) /\
   (reason = "ReqNodeNotAvail" ->
    (forall d m,
       details = Some d -> d <> EmptyString ->
       Re.match_ unavailable_nodes_patt (Py.strip d) = Some m ->
       match Re.group m "node_names" with
       | None => out = (Ok tt, st)
       | Some node_names =>
           node_names <> EmptyString ->
           let query := _get_nodes_by_name node_names w st in
           forall nodes,
             query.1 = Ok nodes ->
             if existsb (fun kv => is_down kv.2) (map_to_list nodes)
             then cancel_then w query.2 job blocked out
             else out = (Ok tt, query.2)
       end) /\
    (details = None \/ details = Some EmptyString \/
     (exists d, details = Some d /\
                Re.match_ unavailable_nodes_patt (Py.strip d) = None) ->
     cancel_then w st job blocked out))).
Proof.
  cbv zeta. unfold _check_and_cancel.
  destruct (Py.split1 "," reason_descr) as [reason details]. cbn [fst snd].
  fold (reason_msg reason details). cbv zeta.
  match goal with
  | |- context [bind get_sched ?k w st] =>
      remember (bind get_sched k w st) as out eqn:Hout
  end.
  unfold bind at 1, get_sched at 1 in Hout. cbv beta iota in Hout.
  split.
  - intros Hn. apply (proj2 (existsb_eqb_not_In _ _)) in Hn.
    by rewrite Hn in Hout.
  - intros Hin. apply (proj2 (existsb_eqb_In _ _)) in Hin.
    rewrite Hin in Hout. split.
    + intros Hne. apply String.eqb_neq in Hne. rewrite Hne in Hout.
      cbn [andb] in Hout. subst out.
      apply (cancel_then_intro w st job
               (JobBlockedError (reason_msg reason details))).
    + intros ->. rewrite String.eqb_refl in Hout. cbn [andb] in Hout.
      split.
      2:{ intros [->|[->|(d & -> & Hm)]]; cbn in Hout;
            [subst out; apply (cancel_then_intro w st job
                                 (JobBlockedError (reason_msg _ _)))..|].
          destruct (Py.truthy d); cbn [default] in Hout; unfold id in Hout;
            rewrite ?Hm in Hout; subst out;
            apply (cancel_then_intro w st job
                     (JobBlockedError (reason_msg _ _))). }
      intros d m -> Hd Hm.
      replace (Py.truthy_opt (Some d)) with true in Hout
        by (symmetry; by apply truthy_nonempty).
      cbn [default] in Hout. unfold id in Hout. rewrite Hm in Hout.
      destruct (Re.group m "node_names") as [node_names|]; [|done].
      intros Hnames. cbn [default] in Hout. unfold id in Hout.
      replace (Py.truthy_opt (Some node_names)) with true in Hout
        by (symmetry; by apply truthy_nonempty).
      intros nodes Hq.
      destruct (_get_nodes_by_name node_names w st) as [r s1] eqn:Hquery.
      simpl in Hq. subst r. cbn [snd].
      rewrite (bind_eq _ _ _ _ _ _ Hquery) in Hout.
      destruct (existsb _ (map_to_list nodes)); cbn [negb] in Hout; [|done].
      pose proof (heap_same__get_nodes_by_name node_names w st) as Hh.
      rewrite Hquery in Hh. unfold heap_same in Hh. cbn [snd] in Hh.
      rewrite <- Hh. subst out.
      apply (cancel_then_intro w s1 job
               (JobBlockedError (reason_msg "ReqNodeNotAvail" (Some d)))).
Qed.

(** ** The matcher on the patterns that read a value after a key *)

Lemma advance_S n c a s' :
  Re.cur_rest c = String a s' ->
  Re.advance (S n) c = Re.advance n (Re.advance 1 c).
Proof. intros H. simpl. by rewrite H. Qed.

Lemma advance_rest n c :
  Re.cur_rest (Re.advance n c) = string_drop n (Re.cur_rest c).
Proof.
  revert c. induction n as [|n IH]; intros c; [reflexivity|].
  simpl. destruct (Re.cur_rest c) as [|a s'] eqn:E; [by rewrite E|].
  by rewrite IH.
Qed.

Lemma advance_groups n c :
  Re.cur_groups (Re.advance n c) = Re.cur_groups c.
Proof.
  revert c. induction n as [|n IH]; intros c; [done|].
  simpl. destruct (Re.cur_rest c); [done|]. by rewrite IH.
Qed.

Lemma advance_pos n c :
  (n <= String.length (Re.cur_rest c))%nat ->
  Re.cur_pos (Re.advance n c) = (Re.cur_pos c + n)%nat.
Proof.
  revert c. induction n as [|n IH]; intros c Hn; [simpl; lia|].
  simpl. destruct (Re.cur_rest c) as [|a s'] eqn:E; [simpl in Hn; lia|].
  rewrite IH; simpl in *; lia.
Qed.

Lemma take_while_length p s :
  (String.length (take_while p s) <= String.length s)%nat.
Proof.
  induction s as [|a s IH]; simpl; [lia|]. destruct (p a); simpl; lia.
Qed.

Lemma append_cons a (x y : string) : String a x +:+ y = String a (x +:+ y).
Proof. reflexivity. Qed.

Lemma append_nil (y : string) : EmptyString +:+ y = y.
Proof. reflexivity. Qed.

Lemma take_drop_while p s : take_while p s +:+ drop_while p s = s.
Proof.
  induction s as [|a s IH]; [done|]. simpl.
  destruct (p a); [by rewrite append_cons, IH|done].
Qed.

Lemma substring_take_while p s :
  String.substring 0 (String.length (take_while p s)) s = take_while p s.
Proof.
  induction s as [|a s IH]; [done|]. simpl.
  destruct (p a); simpl; [by rewrite IH|done].
Qed.

Lemma rmatch_chr p k c :
  Re.rmatch (Re.Chr p) k c
  = match Re.cur_rest c with
    | String a _ => if p a then k (Re.advance 1 c) else None
    | EmptyString => None
    end.
Proof. reflexivity. Qed.

Lemma star_loop_S body k fuel c :
  Re.star_loop body k (S fuel) c
  = match body (fun c' => if (Re.cur_pos c <? Re.cur_pos c')%nat
                          then Re.star_loop body k fuel c' else None) c with
    | Some m => Some m
    | None => k c
    end.
Proof. reflexivity. Qed.

Lemma advance_1 c a s' :
  Re.cur_rest c = String a s' ->
  Re.advance 1 c = {| Re.cur_prev := Some a; Re.cur_rest := s';
                      Re.cur_pos := S (Re.cur_pos c);
                      Re.cur_groups := Re.cur_groups c |}.
Proof. intros E. simpl. by rewrite E. Qed.

(** A repeated class before a continuation that always succeeds takes
    the longest run. *)
Lemma star_loop_chr p k fuel c :
  (forall c', k c' <> None) ->
  (String.length (Re.cur_rest c) <= fuel)%nat ->
  Re.star_loop (Re.rmatch (Re.Chr p)) k fuel c
  = k (Re.advance (String.length (take_while p (Re.cur_rest c))) c).
Proof.
  intros Hk. revert c. induction fuel as [|fuel IH]; intros c Hlen.
  - destruct (Re.cur_rest c) as [|a s'] eqn:E; [|simpl in Hlen; lia].
    reflexivity.
  - rewrite star_loop_S, rmatch_chr.
    destruct (Re.cur_rest c) as [|a s'] eqn:E; [reflexivity|].
    simpl take_while. destruct (p a) eqn:Hp; [|reflexivity].
    rewrite (advance_1 c a s' E). cbn [Re.cur_pos].
    replace (Re.cur_pos c <? S (Re.cur_pos c))%nat with true
      by (symmetry; apply Nat.ltb_lt; lia).
    rewrite IH by (simpl in *; lia). cbn [Re.cur_rest String.length].
    rewrite (advance_S _ c a s' E), (advance_1 c a s' E).
    destruct (k _) eqn:Ek; [done|by apply Hk in Ek].
Qed.

Lemma prefix_drop key s :
  String.prefix key s = true -> s = key +:+ string_drop (String.length key) s.
Proof.
  revert s. induction key as [|a key IH]; intros s H; [by destruct s|].
  destruct s as [|b s]; [discriminate|]. simpl in H.
  destruct (Ascii.ascii_dec a b) as [->|]; [|discriminate].
  rewrite append_cons. cbn [String.length string_drop]. f_equal. by apply IH.
Qed.

Lemma rmatch_plus_chr p k c :
  (forall c', k c' <> None) ->
  Re.rmatch (Re.Plus (Re.Chr p)) k c
  = match take_while p (Re.cur_rest c) with
    | EmptyString => None
    | v => k (Re.advance (String.length v) c)
    end.
Proof.
  intros Hk. unfold Re.Plus. change (Re.rmatch (Re.Seq ?a ?b) k c)
    with (Re.rmatch a (Re.rmatch b k) c).
  rewrite rmatch_chr.
  destruct (Re.cur_rest c) as [|a s'] eqn:E; [done|].
  simpl take_while. destruct (p a); [|done].
  change (Re.rmatch (Re.Star (Re.Chr p)) k (Re.advance 1 c))
    with (Re.star_loop (Re.rmatch (Re.Chr p)) k
            (String.length (Re.cur_rest (Re.advance 1 c))) (Re.advance 1 c)).
  rewrite star_loop_chr; [|done|lia].
  rewrite (advance_1 c a s' E). cbn [Re.cur_rest String.length].
  by rewrite <- (advance_1 c a s' E), <- (advance_S _ c a s' E).
Qed.

Lemma match_at_key_value key g p c :
  option_map (fun m => Re.group m g) (Re.match_at (key_value_patt key g p) c)
  = option_map Some (value_after key p (Re.cur_rest c)).
Proof.
  unfold Re.match_at, key_value_patt, value_after.
  set (c0 := {| Re.cur_prev := Re.cur_prev c; Re.cur_rest := Re.cur_rest c;
                Re.cur_pos := Re.cur_pos c; Re.cur_groups := [] |}).
  change (Re.rmatch (Re.Seq ?a ?b) Some c0)
    with (Re.rmatch a (Re.rmatch b Some) c0).
  change (Re.rmatch (Re.Lit key) ?k c0)
    with (if String.prefix key (Re.cur_rest c0)
          then k (Re.advance (String.length key) c0) else None).
  cbn [Re.cur_rest c0].
  destruct (String.prefix key (Re.cur_rest c)) eqn:Hpre; [|done].
  set (c1 := Re.advance (String.length key) c0).
  assert (Hrest : Re.cur_rest c1
                  = string_drop (String.length key) (Re.cur_rest c)).
  { unfold c1. by rewrite advance_rest. }
  rewrite <- Hrest.
  change (Re.rmatch (Re.Group g ?r) Some c1)
    with (Re.rmatch r (fun c' => Some (Re.close_group g c1 c')) c1).
  rewrite rmatch_plus_chr by done.
  destruct (take_while p (Re.cur_rest c1)) as [|a v] eqn:Hv; [done|].
  rewrite <- Hv. clear a v Hv.
  pose proof (take_while_length p (Re.cur_rest c1)) as Hn.
  simpl. unfold Re.group. simpl. rewrite String.eqb_refl.
  rewrite advance_pos by done.
  replace (Re.cur_pos c1 + String.length (take_while p (Re.cur_rest c1))
           - Re.cur_pos c1)%nat
    with (String.length (take_while p (Re.cur_rest c1))) by lia.
  by rewrite substring_take_while.
Qed.

Lemma search_from_unfold r fuel c :
  Re.search_from r fuel c
  = match Re.match_at r c with
    | Some m => Some m
    | None =>
        match fuel, Re.cur_rest c with
        | S fuel', String _ _ => Re.search_from r fuel' (Re.advance 1 c)
        | _, _ => None
        end
    end.
Proof. destruct fuel; reflexivity. Qed.

Lemma search_from_key_value key g p fuel c :
  (String.length (Re.cur_rest c) <= fuel)%nat ->
  option_map (fun m => Re.group m g)
             (Re.search_from (key_value_patt key g p) fuel c)
  = option_map Some (find_value key p (Re.cur_rest c)).
Proof.
  revert c. induction fuel as [|fuel IH]; intros c Hlen;
    rewrite search_from_unfold;
    pose proof (match_at_key_value key g p c) as H;
    destruct (Re.cur_rest c) as [|a s'] eqn:E;
    try (simpl in Hlen; lia); simpl find_value;
    destruct (Re.match_at _ c), (value_after key p _);
    simpl in H; try congruence; try done.
  rewrite IH; rewrite (advance_1 c a s' E); cbn [Re.cur_rest];
    [done|simpl in Hlen; lia].
Qed.

(** What [re.search] finds for a key-value pattern is what [find_value]
    reads. *)
Lemma search_key_value key g p s :
  option_map (fun m => Re.group m g) (Re.search (key_value_patt key g p) s)
  = option_map Some (find_value key p s).
Proof. unfold Re.search. by rewrite search_from_key_value. Qed.

(** ** [find_value] against the text *)

Lemma take_while_all p s : all_chars p (take_while p s) = true.
Proof.
  induction s as [|a s IH]; [done|]. simpl.
  destruct (p a) eqn:E; [simpl; by rewrite E|done].
Qed.

Lemma take_while_app p v post :
  all_chars p v = true -> take_while p post = EmptyString ->
  take_while p (v +:+ post) = v.
Proof.
  induction v as [|a v IH]; intros Hv Hpost; [by rewrite append_nil|].
  simpl in Hv. apply andb_true_iff in Hv as [Ha Hv].
  rewrite append_cons. simpl. by rewrite Ha, IH.
Qed.

Lemma take_while_drop_while p s :
  take_while p (drop_while p s) = EmptyString.
Proof.
  induction s as [|a s IH]; [done|]. simpl.
  destruct (p a) eqn:E; [done|]. simpl. by rewrite E.
Qed.

Lemma string_drop_app (pre s : string) :
  string_drop (String.length pre) (pre +:+ s) = s.
Proof. induction pre as [|a pre IH]; [by destruct s|]. by simpl. Qed.

Lemma prefix_app (key s : string) : String.prefix key (key +:+ s) = true.
Proof.
  induction key as [|a key IH]; [by destruct s|]. rewrite append_cons. simpl.
  destruct (Ascii.ascii_dec a a); [exact IH|done].
Qed.

(** The value read at the start of a string is the one the text holds at
    offset zero. *)
Lemma value_after_spec key p s v :
  value_after key p s = Some v <-> value_at key p s 0 v.
Proof.
  unfold value_after, value_at. split.
  - destruct (String.prefix key s) eqn:Hpre; [|discriminate].
    apply prefix_drop in Hpre. set (t := string_drop _ s) in *.
    destruct (take_while p t) as [|a v'] eqn:Hv; [discriminate|].
    intros [= <-]. exists EmptyString, (drop_while p t).
    rewrite append_nil, <- Hv, take_drop_while.
    split; [done|]. split; [done|]. split; [by rewrite Hv|].
    split; [apply take_while_all|apply take_while_drop_while].
  - intros (pre & post & -> & Hlen & Hv & Hall & Hpost).
    destruct pre; [|discriminate]. rewrite append_nil.
    rewrite prefix_app, string_drop_app, take_while_app by done.
    by destruct v.
Qed.

Lemma value_at_S key p a s n v :
  value_at key p (String a s) (S n) v <-> value_at key p s n v.
Proof.
  unfold value_at. split.
  - intros (pre & post & Hs & Hlen & H). destruct pre as [|b pre]; [done|].
    rewrite append_cons in Hs. injection Hs as -> ->.
    exists pre, post. split; [done|]. split; [simpl in Hlen; lia|done].
  - intros (pre & post & -> & <- & H). exists (String a pre), post. done.
Qed.

(** [find_value] reads the value at the first offset that holds one, and
    finds nothing exactly when no offset holds one. *)
Lemma find_value_spec key p s :
  match find_value key p s with
  | Some v =>
      exists n, value_at key p s n v /\
                forall n' v', (n' < n)%nat -> ~ value_at key p s n' v'
  | None => forall n v, ~ value_at key p s n v
  end.
Proof.
  induction s as [|a s IH]; simpl find_value.
  - destruct (value_after key p EmptyString) as [v|] eqn:E.
    + exists 0%nat. split; [by apply value_after_spec|]. intros; lia.
    + intros n v (pre & post & Hs & Hlen & H).
      destruct pre; [|discriminate]. simpl in Hlen. subst n.
      assert (value_after key p EmptyString = Some v) as Hv.
      { apply value_after_spec. by exists EmptyString, post. }
      congruence.
  - destruct (value_after key p (String a s)) as [v|] eqn:E.
    + exists 0%nat. split; [by apply value_after_spec|]. intros; lia.
    + assert (H0 : forall v, ~ value_at key p (String a s) 0 v).
      { intros v Hv. apply value_after_spec in Hv. congruence. }
      destruct (find_value key p s) as [v|].
      * destruct IH as (n & Hn & Hfirst). exists (S n).
        split; [by apply value_at_S|].
        intros [|n'] v' Hlt; [apply H0|].
        rewrite value_at_S. apply Hfirst. lia.
      * intros [|n] v; [apply H0|]. rewrite value_at_S. apply IH.
Qed.

Lemma value_at_drop key p s n v :
  value_at key p s n v -> value_after key p (string_drop n s) = Some v.
Proof.
  intros (pre & post & -> & <- & H). rewrite string_drop_app.
  apply value_after_spec. by exists EmptyString, post.
Qed.

(** The first value of a text is unique. *)
Lemma first_value_unique key p s n v :
  value_at key p s n v ->
  (forall n' v', (n' < n)%nat -> ~ value_at key p s n' v') ->
  find_value key p s = Some v.
Proof.
  intros Hv Hfirst. pose proof (find_value_spec key p s) as H.
  destruct (find_value key p s) as [v0|]; [|by destruct (H n v)].
  destruct H as (n0 & Hv0 & Hfirst0).
  destruct (Nat.lt_trichotomy n n0) as [Hlt|[->|Hlt]].
  - by destruct (Hfirst0 _ _ Hlt Hv).
  - apply value_at_drop in Hv, Hv0. congruence.
  - by destruct (Hfirst _ _ Hlt Hv0).
Qed.

(** ** Submission *)

Lemma search_jobid (out : string) :
  match find_value submitted_key Py.isdigit out with
  | Some d => exists m, Re.search jobid_patt out = Some m /\
                        Re.group m "jobid" = Some d
  | None => Re.search jobid_patt out = None
  end.
Proof.
  pose proof (search_key_value submitted_key "jobid" Py.isdigit out) as H.
  change (key_value_patt submitted_key "jobid" Py.isdigit) with jobid_patt in H.
  destruct (find_value submitted_key Py.isdigit out) as [d|],
    (Re.search jobid_patt out) as [m|]; simpl in H; try discriminate.
  - exists m. split; [done|]. congruence.
  - done.
Qed.

(** C7. [submit] runs sbatch on the script of the job with the submit
    timeout. If sbatch outlives the timeout, or exits with a status that
    is not zero, the error of the command is raised and nothing but the
    command has happened. If sbatch exits with status zero and its
    output holds the text [Submitted batch job] followed by digits,
    [submit] takes the first such place, stores the number written there
    as the job id, sets the poll count of the job to zero and its submit
    time to the time read after the command. If the output holds no such
    place, [submit] raises the [JobError] of the job id that could not
    be retrieved, and no job and no book of the scheduler has changed. *)
Theorem submit_outcome (w : World) (st : State) (job : nat) :
  let j := heap st !!! job in
  let cmd := "sbatch " +:+ script_filename j in
  let timeout := _submit_timeout (sched st) in
  let st1 := ran st (EvRun cmd timeout) in
  (exec w (trace st) cmd timeout = Expired ->
   submit job w st = (Raise (SpawnedProcessTimeout cmd), st1)) /\
  (forall c,
     exec w (trace st) cmd timeout = Exited c ->
     (returncode c <> 0 ->
      submit job w st = (Raise (SpawnedProcessError cmd), st1)) /\
     (returncode c = 0 ->
      (forall n d,
         value_at submitted_key Py.isdigit (stdout_of c) n d ->
         (forall n' d', (n' < n)%nat ->
                        ~ value_at submitted_key Py.isdigit (stdout_of c) n' d') ->
         submit job w st
         = (Ok tt,
            {| heap := <[job := set_jobid (Some (Py.int_of_digits d)) j]>
                         (heap st);
               sched := with_books (sched st) (_is_cancelling (sched st))
                          (_is_job_array (sched st))
                          (<[job := 0]> (_update_state_count (sched st)))
                          (<[job := clock w (trace st1)]>
                             (_submit_time (sched st)))
                          (_cancelled (sched st));
               trace := (trace st1 ++ [EvNow])%list |})) /\
      ((forall n d, ~ value_at submitted_key Py.isdigit (stdout_of c) n d) ->
       submit job w st
       = (Raise (JobError "could not retrieve the job id of the submitted job"
                          None), st1)))).
Proof.
  intros j cmd timeout st1.
  assert (Hfail : forall e,
            _run_strict cmd timeout w st = (Raise e, st1) ->
            submit job w st = (Raise e, st1)).
  { intros e Hrun. unfold submit.
    unfold bind at 1, get_job at 1. unfold bind at 1, get_sched at 1.
    fold j cmd timeout. unfold bind at 1. by rewrite Hrun. }
  split.
  { intros Hexec. apply Hfail. unfold _run_strict, run_command.
    by rewrite Hexec. }
  intros c Hexec. split.
  { intros Hrc. apply Hfail. unfold _run_strict, run_command.
    rewrite Hexec. apply Z.eqb_neq in Hrc. by rewrite Hrc. }
  intros Hrc.
  assert (Hrun : _run_strict cmd timeout w st = (Ok c, st1)).
  { unfold _run_strict, run_command. rewrite Hexec, Hrc. reflexivity. }
  assert (Hsubmit : submit job w st
          = match Re.search jobid_patt (stdout_of c) with
            | None =>
                (Raise (JobError
                          "could not retrieve the job id of the submitted job"
                          None), st1)
            | Some jobid_match =>
                (Ok tt,
                 {| heap := <[job := set_jobid
                                   (Some (Py.int_of_digits
                                            (default EmptyString
                                               (Re.group jobid_match "jobid"))))
                                   j]> (heap st);
                    sched := with_books (sched st) (_is_cancelling (sched st))
                               (_is_job_array (sched st))
                               (<[job := 0]> (_update_state_count (sched st)))
                               (<[job := clock w (trace st1)]>
                                  (_submit_time (sched st)))
                               (_cancelled (sched st));
                    trace := (trace st1 ++ [EvNow])%list |})
            end).
  { unfold submit. unfold bind at 1, get_job at 1. unfold bind at 1, get_sched at 1.
    fold j cmd timeout. rewrite (bind_eq _ _ _ _ _ _ Hrun).
    destruct (Re.search jobid_patt (stdout_of c)); reflexivity. }
  rewrite Hsubmit. pose proof (search_jobid (stdout_of c)) as Hs. split.
  - intros n d Hv Hfirst.
    rewrite (first_value_unique _ _ _ _ _ Hv Hfirst) in Hs.
    destruct Hs as (m & -> & Hg). by rewrite Hg.
  - intros Hnone. pose proof (find_value_spec submitted_key Py.isdigit
                                (stdout_of c)) as Hf.
    destruct (find_value submitted_key Py.isdigit (stdout_of c)) as [d|].
    + destruct Hf as (n & Hv & _). by destruct (Hnone n d).
    + by rewrite Hs.
Qed.

(** ** Node sets and the node filter *)

Lemma dom_set_iand (a b : NodeSet) : dom (set_iand a b) = dom a ∩ dom b.
Proof.
  unfold set_iand. apply set_eq. intros k.
  rewrite elem_of_intersection, !elem_of_dom.
  destruct (size a <? size b)%nat.
  - split.
    + intros [n Hn]. apply map_lookup_filter_Some in Hn as [Hn Hk].
      simpl in Hk. apply elem_of_dom in Hk. eauto.
    + intros [[n Hn] Hb]. exists n. apply map_lookup_filter_Some.
      split; [done|]. simpl. by apply elem_of_dom.
  - split.
    + intros [n Hn]. apply map_lookup_filter_Some in Hn as [Hn Hk].
      simpl in Hk. apply elem_of_dom in Hk. eauto.
    + intros [Ha [n Hn]]. exists n. apply map_lookup_filter_Some.
      split; [done|]. simpl. by apply elem_of_dom.
Qed.

Lemma dom_set_isub (a b : NodeSet) : dom (set_isub a b) = dom a ∖ dom b.
Proof.
  unfold set_isub. apply set_eq. intros k.
  rewrite elem_of_difference, !elem_of_dom. split.
  - intros [n Hn]. apply map_lookup_filter_Some in Hn as [Hn Hk].
    simpl in Hk. rewrite elem_of_dom in Hk. eauto.
  - intros [[n Hn] Hb]. exists n. apply map_lookup_filter_Some.
    split; [done|]. simpl. by rewrite elem_of_dom.
Qed.

Lemma shrinks_filter_reservation v : shrinks (filter_reservation v).
Proof.
  intros nodes w st out st' H. unfold filter_reservation in H.
  destruct (if_set v).
  - apply bind_ok in H as (found & s1 & _ & H). apply ret_ok in H as [-> _].
    rewrite dom_set_iand. set_solver.
  - by apply ret_ok in H as [-> _].
Qed.

Lemma shrinks_filter_partitions v : shrinks (filter_partitions v).
Proof.
  intros nodes w st out st' H. unfold filter_partitions in H.
  apply bind_ok in H as (partitions & s1 & _ & H).
  apply ret_ok in H as [-> _]. apply dom_filter_subseteq.
Qed.

Lemma shrinks_filter_constraints v : shrinks (filter_constraints v).
Proof.
  intros nodes w st out st' H. unfold filter_constraints in H.
  destruct (if_set v); apply ret_ok in H as [-> _]; [|done].
  apply dom_filter_subseteq.
Qed.

Lemma shrinks_filter_nodelist v : shrinks (filter_nodelist v).
Proof.
  intros nodes w st out st' H. unfold filter_nodelist in H.
  destruct (if_set v).
  - apply bind_ok in H as (found & s1 & _ & H). apply ret_ok in H as [-> _].
    rewrite dom_set_iand. set_solver.
  - by apply ret_ok in H as [-> _].
Qed.

Lemma shrinks_filter_exclude v : shrinks (filter_exclude v).
Proof.
  intros nodes w st out st' H. unfold filter_exclude in H.
  destruct (if_set v).
  - apply bind_ok in H as (found & s1 & _ & H). apply ret_ok in H as [-> _].
    rewrite dom_set_isub. set_solver.
  - by apply ret_ok in H as [-> _].
Qed.

(** C8. Each of the five steps of the node filter (reservation,
    partitions, constraints, node list, exclusion) gives back a subset of
    the node set it is given, whatever option value it is run with and
    whatever the world answers to its queries; and so does [filternodes]
    as a whole, for every job and every candidate node set. *)
Theorem filternodes_subset :
  (forall v, shrinks (filter_reservation v)) /\
  (forall v, shrinks (filter_partitions v)) /\
  (forall v, shrinks (filter_constraints v)) /\
  (forall v, shrinks (filter_nodelist v)) /\
  (forall v, shrinks (filter_exclude v)) /\
  (forall job, shrinks (filternodes job)).
Proof.
  split; [exact shrinks_filter_reservation|].
  split; [exact shrinks_filter_partitions|].
  split; [exact shrinks_filter_constraints|].
  split; [exact shrinks_filter_nodelist|].
  split; [exact shrinks_filter_exclude|].
  intros job nodes w st out st' H. unfold filternodes in H.
  apply bind_ok in H as (j & s0 & _ & H).
  apply bind_ok in H as (parsed_args & s1 & _ & H).
  apply bind_ok in H as (n1 & s2 & H1 & H).
  apply bind_ok in H as (n2 & s3 & H2 & H).
  apply bind_ok in H as (n3 & s4 & H3 & H).
  apply bind_ok in H as (n4 & s5 & H4 & H).
  apply shrinks_filter_reservation in H1.
  apply shrinks_filter_partitions in H2.
  apply shrinks_filter_constraints in H3.
  apply shrinks_filter_nodelist in H4.
  apply shrinks_filter_exclude in H.
  set_solver.
Qed.

(** ** Node discovery *)

Lemma _extract_attribute_find attr_name node_descr :
  _extract_attribute attr_name node_descr
  = find_value (attr_name +:+ "=") nonspace node_descr.
Proof.
  unfold _extract_attribute.
  pose proof (search_key_value (attr_name +:+ "=") "1" nonspace node_descr)
    as H.
  change (key_value_patt (attr_name +:+ "=") "1" nonspace)
    with (attribute_patt attr_name) in H.
  destruct (Re.search (attribute_patt attr_name) node_descr),
    (find_value (attr_name +:+ "=") nonspace node_descr);
    simpl in H; congruence.
Qed.

(** A description is a node exactly when it holds a node name: the first
    [NodeName=] followed by a character that is no white space, with the
    run of such characters as the name. *)
Lemma _SlurmNode_name node_descr :
  match find_value "NodeName=" nonspace node_descr with
  | Some n => exists node, _SlurmNode node_descr = Ok node /\ _name node = n /\
                           _descr node = node_descr
  | None => exists e, _SlurmNode node_descr = Raise e
  end.
Proof.
  unfold _SlurmNode. rewrite _extract_attribute_find.
  change ("NodeName" +:+ "=") with "NodeName=".
  pose proof (find_value_spec "NodeName=" nonspace node_descr) as H.
  destruct (find_value "NodeName=" nonspace node_descr) as [n|]; [|eauto].
  destruct H as (k & (pre & post & _ & _ & Hn & _) & _).
  destruct n; [done|]. simpl. eauto.
Qed.

Lemma set_add_lookup (n : Node) (nodes : NodeSet) (k : string) :
  set_add n nodes !! k
  = match nodes !! k with
    | Some n' => Some n'
    | None => if decide (k = _name n) then Some n else None
    end.
Proof.
  unfold set_add. destruct (nodes !! _name n) as [n0|] eqn:E.
  - destruct (nodes !! k) eqn:E'; [done|].
    case_decide; [congruence|done].
  - destruct (decide (k = _name n)) as [->|Hne].
    + by rewrite lookup_insert_eq, E.
    + rewrite lookup_insert_ne by done. by destruct (nodes !! k).
Qed.

Lemma _create_nodes_fold descriptions (acc : NodeSet) (k : string) :
  fold_left (fun nodes descr =>
               match _SlurmNode descr with
               | Ok n => set_add n nodes
               | Raise _ => nodes
               end) descriptions acc !! k
  = match acc !! k with
    | Some n => Some n
    | None => first_node k descriptions
    end.
Proof.
  revert acc. induction descriptions as [|descr rest IH]; intros acc; simpl.
  - by destruct (acc !! k).
  - rewrite IH. destruct (_SlurmNode descr) as [n|e]; [|done].
    rewrite set_add_lookup. destruct (acc !! k); [done|].
    by case_decide.
Qed.

(** The node set made from a list of descriptions holds, under each
    name, the node of the first description with that name. *)
Lemma _create_nodes_lookup descriptions (k : string) :
  _create_nodes descriptions !! k = first_node k descriptions.
Proof. unfold _create_nodes. by rewrite _create_nodes_fold, lookup_empty. Qed.

Lemma first_node_Some name descriptions n :
  first_node name descriptions = Some n ->
  _name n = name /\ exists descr, In descr descriptions /\ _SlurmNode descr = Ok n.
Proof.
  induction descriptions as [|descr rest IH]; [discriminate|]. simpl.
  destruct (_SlurmNode descr) as [n0|e] eqn:E.
  - case_decide as Hn.
    + intros [= <-]. split; [done|]. exists descr. split; [by left|done].
    + intros H. destruct (IH H) as (? & d & ? & ?). split; [done|].
      exists d. split; [by right|done].
  - intros H. destruct (IH H) as (? & d & ? & ?). split; [done|].
    exists d. split; [by right|done].
Qed.

Lemma first_node_In descriptions descr n :
  In descr descriptions -> _SlurmNode descr = Ok n ->
  is_Some (first_node (_name n) descriptions).
Proof.
  induction descriptions as [|d rest IH]; [intros []|].
  intros [->|Hin] Hn; simpl.
  - rewrite Hn. case_decide; [eauto|done].
  - destruct (_SlurmNode d) as [n0|e]; [case_decide; [eauto|]|]; by apply IH.
Qed.

Lemma _SlurmNode_Ok node_descr n :
  _SlurmNode node_descr = Ok n ->
  find_value "NodeName=" nonspace node_descr = Some (_name n) /\
  _descr n = node_descr.
Proof.
  intros H. pose proof (_SlurmNode_name node_descr) as Hn.
  destruct (find_value "NodeName=" nonspace node_descr) as [nm|].
  - destruct Hn as (node & Hnode & Hname & Hdescr).
    rewrite H in Hnode. injection Hnode as <-. by rewrite Hname.
  - destruct Hn as [e He]. congruence.
Qed.

(** C9. Let the node listing command exit with status zero. Then
    [allnodes] returns a node set such that every line of the output
    that holds a node name (the first [NodeName=] that is followed by a
    character that is no white space, with the run of such characters as
    the name) gives a node of that name in the set: the node made of the
    first line with that name. Every node of the set is the node made of
    a line of the output that holds its name. A line without a node name
    makes no node and is skipped: no node of the set has it as its
    description. *)
Theorem allnodes_parses_lines (w : World) (st : State) (c : CompletedProcess) :
  exec w (trace st) "scontrol -a show -o nodes" None = Exited c ->
  returncode c = 0 ->
  let lines := Py.splitlines (stdout_of c) in
  exists nodes st',
    allnodes w st = (Ok nodes, st') /\
    (forall line name,
       In line lines -> find_value "NodeName=" nonspace line = Some name ->
       exists n, nodes !! name = Some n /\ first_node name lines = Some n /\
                 _name n = name) /\
    (forall name n,
       nodes !! name = Some n ->
       _name n = name /\
       exists line, In line lines /\ _SlurmNode line = Ok n /\
                    _descr n = line /\
                    find_value "NodeName=" nonspace line = Some name) /\
    (forall line,
       In line lines -> find_value "NodeName=" nonspace line = None ->
       (exists e, _SlurmNode line = Raise e) /\
       forall name n, nodes !! name = Some n -> _descr n <> line).
Proof.
  intros Hexec Hrc lines. unfold allnodes.
  assert (Hrun : _run_strict "scontrol -a show -o nodes" None w st
                 = (Ok c, ran st (EvRun "scontrol -a show -o nodes" None))).
  { unfold _run_strict, run_command. rewrite Hexec, Hrc. reflexivity. }
  exists (_create_nodes lines),
    (ran st (EvRun "scontrol -a show -o nodes" None)).
  split; [unfold bind, try_except; rewrite Hrun; reflexivity|].
  assert (Hmade : forall name n,
            _create_nodes lines !! name = Some n ->
            _name n = name /\
            exists line, In line lines /\ _SlurmNode line = Ok n /\
                         _descr n = line /\
                         find_value "NodeName=" nonspace line = Some name).
  { intros name n Hn. rewrite _create_nodes_lookup in Hn.
    apply first_node_Some in Hn as (Hname & line & Hin & Hline).
    split; [done|]. exists line. split; [done|]. split; [done|].
    apply _SlurmNode_Ok in Hline as [Hf Hd]. split; [done|]. by rewrite <- Hname. }
  split; [|split; [exact Hmade|]].
  - intros line name Hin Hname.
    pose proof (_SlurmNode_name line) as Hn. rewrite Hname in Hn.
    destruct Hn as (node & Hnode & <- & _).
    destruct (first_node_In lines line node Hin Hnode) as [n Hn].
    exists n. rewrite _create_nodes_lookup. split; [done|]. split; [done|].
    by apply first_node_Some in Hn as [? _].
  - intros line Hin Hnone. pose proof (_SlurmNode_name line) as Hn.
    rewrite Hnone in Hn. split; [exact Hn|].
    intros name n Hlook Hd.
    destruct (Hmade name n Hlook) as (_ & line' & _ & _ & Hd' & Hf).
    congruence.
Qed.

(** ** The preamble *)

Lemma prefix_app_cancel (p a b : string) :
  String.prefix (p +:+ a) (p +:+ b) = String.prefix a b.
Proof.
  induction p as [|c p IH]; [done|]. rewrite !append_cons. simpl.
  destruct (Ascii.ascii_dec c c); [exact IH|done].
Qed.

Lemma prefix_of_empty (p a : string) :
  a <> EmptyString -> String.prefix (p +:+ a) EmptyString = false.
Proof. intros Ha. destruct p; [by destruct a|done]. Qed.

Lemma truthy_prefixed (p x : string) : Py.truthy (p +:+ " " +:+ x) = true.
Proof. by destruct p. Qed.

(** A formatted option is no constraint directive when its format does
    not begin like one. *)
Lemma _format_option_plain self var option :
  (forall v, String.prefix " --constraint=" (" " +:+ format option v) = false) ->
  constraint_directive self (_format_option self var option) = false.
Proof.
  intros H. unfold constraint_directive, _format_option, Py.startswith.
  destruct var as [v|]; [by rewrite prefix_app_cancel|].
  by apply prefix_of_empty.
Qed.

Ltac plain_line :=
  apply _format_option_plain; intros ?; repeat destruct_bool; reflexivity
with destruct_bool :=
  match goal with
  | |- context [if ?b then _ else _] => is_var b; destruct b
  end.

Lemma append_nil_r (s : string) : s +:+ EmptyString = s.
Proof. induction s as [|a s IH]; [done|]. by rewrite append_cons, IH. Qed.

Lemma append_assoc (a b c : string) : (a +:+ b) +:+ c = a +:+ (b +:+ c).
Proof. induction a as [|x a IH]; [done|]. by rewrite !append_cons, IH. Qed.

Lemma _format_option_constraint self x :
  _format_option self (Some x) "--constraint={0}"
  = _prefix self +:+ " --constraint=" +:+ x.
Proof.
  unfold _format_option. simpl format. rewrite append_nil_r. reflexivity.
Qed.

Lemma _format_option_nodes self x :
  _format_option self (Some x) "--nodes={0}"
  = _prefix self +:+ " --nodes=" +:+ x.
Proof.
  unfold _format_option. simpl format. rewrite append_nil_r. reflexivity.
Qed.

(** A preamble that is returned has this shape: lines that are no
    constraint directive, the access lines, the merged constraint, the
    hint and the option lines, without the empty ones. *)
Lemma emit_preamble_ok w st job out st' :
  emit_preamble job w st = (Ok out, st') ->
  let j := heap st !!! job in
  let self := sched st in
  exists head nsa nsb,
    Argparse.parse_known_args constraint_parser (sched_access j) = Ok nsa /\
    Argparse.parse_known_args constraint_parser (options j) = Ok nsb /\
    Forall (fun l => constraint_directive self l = false) head /\
    (_use_nodes_opt self = true ->
     exists n d, num_tasks j = Some n /\ num_tasks_per_node j = Some d /\
                 d <> 0 /\
                 In (_prefix self +:+ " --nodes=" +:+ Py.str_of_int (n / d))
                    head) /\
    out = filter (fun l => Is_true (Py.truthy l))
            (head ++ access_lines self j
             ++ merged_constraint self
                  (stripped_if_set (nsa !! "constraint")
                   ++ stripped_if_set (nsb !! "constraint"))
             ++ [hint_line self j] ++ option_lines self j)%list.
Proof.
  intros H j self. unfold emit_preamble in H.
  apply bind_ok in H as (j0 & s0 & H0 & H). apply get_job_ok in H0 as [-> ->].
  fold j in H.
  apply bind_ok in H as (self0 & s1 & H1 & H). apply get_sched_ok in H1 as [-> ->].
  fold self in H. cbv zeta in H.
  apply bind_ok in H as (arr1 & s2 & _ & H).
  apply bind_ok in H as (arr2 & s3 & _ & H).
  apply bind_ok in H as (preamble & s4 & Hnodes & H).
  apply bind_ok in H as (nsa & s5 & Ha & H). apply lift_ok in Ha as [Ha ->].
  apply bind_ok in H as (nsb & s6 & Hb & H). apply lift_ok in Hb as [Hb ->].
  apply ret_ok in H as [-> _].
  exists preamble, nsa, nsb. split; [done|]. split; [done|].
  assert (Hbase : forall l,
            In l
              (let base :=
                 ([_format_option self (name j)
                     ("--job-name=" +:+ dquote +:+ "{0}" +:+ dquote);
                   _format_option self (Py.str_of_int <$> num_tasks j)
                     "--ntasks={0}";
                   _format_option self (Py.str_of_int <$> num_tasks_per_node j)
                     "--ntasks-per-node={0}";
                   _format_option self (Py.str_of_int <$> num_tasks_per_core j)
                     "--ntasks-per-core={0}";
                   _format_option self
                     (Py.str_of_int <$> num_tasks_per_socket j)
                     "--ntasks-per-socket={0}";
                   _format_option self (Py.str_of_int <$> num_cpus_per_task j)
                     "--cpus-per-task={0}";
                   _format_option self (sched_partition j) "--partition={0}";
                   _format_option self (sched_account j) "--account={0}";
                   _format_option self (sched_nodelist j) "--nodelist={0}";
                   _format_option self (sched_exclude_nodelist j)
                     "--exclude={0}";
                   _format_option self (sched_reservation j)
                     "--reservation={0}"]
                  ++ [_format_option self (stdout j)
                        ("--output={0}" +:+ (if arr1 then "_%a" else ""));
                      _format_option self (stderr j)
                        ("--error={0}" +:+ (if arr2 then "_%a" else ""))])%list
               in
               let timed :=
                 match time_limit j with
                 | Some t =>
                     let '(h, m, s) := seconds_to_hms t in
                     (base
                      ++ [_format_option self
                            (Some (Py.str_of_int h +:+ ":" +:+ Py.str_of_int m
                                   +:+ ":" +:+ Py.str_of_int s))
                            "--time={0}"])%list
                 | None => base
                 end in
               match sched_exclusive_access j with
               | Some true =>
                   (timed ++ [_format_option self (Some "True") "--exclusive"])%list
               | _ => timed
               end) ->
            constraint_directive self l = false).
  { cbv zeta. intros l Hl.
    destruct (sched_exclusive_access j) as [[|]|];
      destruct (time_limit j) as [t|];
      try destruct (seconds_to_hms t) as [[h m] s];
      rewrite ?in_app_iff in Hl; cbn [In] in Hl;
      intuition (subst; plain_line). }
  cbv zeta in Hbase.
  match type of Hnodes with
  | (if _ then _ else ret ?P) _ _ = _ => set (before := P) in *
  end.
  assert (Hbefore : Forall (fun l => constraint_directive self l = false) before)
    by (apply Forall_forall; intros x Hx; apply Hbase;
        by apply list_elem_of_In).
  clear Hbase. clearbody before.
  assert (Hpre : Forall (fun l => constraint_directive self l = false) preamble
                 /\ (_use_nodes_opt self = true ->
                     exists n d, num_tasks j = Some n /\
                                 num_tasks_per_node j = Some d /\ d <> 0 /\
                                 In (_prefix self +:+ " --nodes="
                                     +:+ Py.str_of_int (n / d)) preamble)).
  { destruct (_use_nodes_opt self).
    - destruct (num_tasks j) as [n|]; [|discriminate].
      destruct (num_tasks_per_node j) as [d|]; [|discriminate].
      destruct (d =? 0) eqn:Hd; [discriminate|].
      apply ret_ok in Hnodes as [-> _]. split.
      + apply Forall_app. split; [done|].
        constructor; [plain_line|constructor].
      + intros _. exists n, d. split; [done|]. split; [done|].
        split; [lia|]. apply in_app_iff. right. left.
        apply _format_option_nodes.
    - apply ret_ok in Hnodes as [-> _]. split; done. }
  destruct Hpre as [Hplain Huse]. split; [done|]. split; [done|].
  unfold access_lines, option_lines, merged_constraint, hint_line.
  fold j self. f_equal.
  destruct (stripped_if_set (nsa !! "constraint")
            ++ stripped_if_set (nsb !! "constraint"))%list as [|c0 cs] eqn:Hcs.
  - simpl. by rewrite <- !app_assoc.
  - rewrite _format_option_constraint. by rewrite <- !app_assoc.
Qed.

(** ** The number of nodes *)

(** C10. With the [use_nodes_option] setting [emit_preamble] divides
    [num_tasks] by [num_tasks_per_node] without a guard: a preamble is
    returned only if both are set and the divisor is not zero, and it then
    holds the [--nodes] directive of the floor quotient; with either
    unset, or with a zero divisor, the call ends in an error, which is a
    [TypeError] resp. a [ZeroDivisionError] once the two array tests have
    returned. *)
Theorem use_nodes_option_unguarded (w : World) (st : State) (job : nat) :
  _use_nodes_opt (sched st) = true ->
  let j := heap st !!! job in
  let r := (emit_preamble job w st).1 in
  (forall out, r = Ok out ->
     exists n d, num_tasks j = Some n /\ num_tasks_per_node j = Some d /\
                 d <> 0 /\
                 In (_prefix (sched st) +:+ " --nodes="
                     +:+ Py.str_of_int (n / d)) out) /\
  (num_tasks j = None \/ num_tasks_per_node j = None \/
   num_tasks_per_node j = Some 0 -> exists e, r = Raise e) /\
  (forall b1 s1 b2 s2,
     is_array job w st = (Ok b1, s1) -> is_array job w s1 = (Ok b2, s2) ->
     (num_tasks j = None \/ num_tasks_per_node j = None ->
      emit_preamble job w st = (Raise TypeError, s2)) /\
     (num_tasks j <> None -> num_tasks_per_node j = Some 0 ->
      emit_preamble job w st = (Raise ZeroDivisionError, s2))).
Proof.
  intros Huse j r.
  assert (Hok : forall out, r = Ok out ->
            exists n d, num_tasks j = Some n /\ num_tasks_per_node j = Some d /\
                        d <> 0 /\
                        In (_prefix (sched st) +:+ " --nodes="
                            +:+ Py.str_of_int (n / d)) out).
  { intros out Hr. subst r.
    destruct (emit_preamble job w st) as [r0 st'] eqn:Hrun.
    cbn [fst] in Hr. subst r0.
    apply emit_preamble_ok in Hrun
      as (head & nsa & nsb & _ & _ & _ & Hnodes & ->).
    destruct (Hnodes Huse) as (n & d & Hn & Hd & Hd0 & Hin).
    exists n, d. repeat (split; [done|]).
    apply list_elem_of_In, list_elem_of_filter. split.
    - change (" --nodes=" +:+ Py.str_of_int (n / d))
        with (" " +:+ "--nodes=" +:+ Py.str_of_int (n / d)).
      by rewrite truthy_prefixed.
    - apply list_elem_of_In, in_app_iff. by left. }
  split; [exact Hok|]. split.
  - intros Hunset. destruct r as [out|e] eqn:Hr; [|by exists e].
    destruct (Hok out eq_refl) as (n & d & Hn & Hd & Hd0 & _).
    destruct Hunset as [H|[H|H]]; congruence.
  - intros b1 s1 b2 s2 H1 H2.
    split; [intros Hunset|intros Hn Hd];
      unfold emit_preamble;
      unfold bind at 1; unfold get_job at 1; cbn iota;
      unfold bind at 1; unfold get_sched at 1; cbn iota; cbv zeta;
      rewrite (bind_eq _ _ _ _ _ _ H1); rewrite (bind_eq _ _ _ _ _ _ H2);
      fold j; rewrite Huse; apply bind_raise.
    + destruct (num_tasks j) as [n|]; [|done].
      destruct (num_tasks_per_node j) as [d|]; [|done].
      by destruct Hunset.
    + destruct (num_tasks j) as [n|]; [|done]. by rewrite Hd.
Qed.

Lemma use_nodes_option_unguarded_witness :
  let w := Example.scripted [] 0 in
  let st := Example.submitted Sacct false true
              [Example.requested (Some 9) (Some 4) [] [] None] in
  _use_nodes_opt (sched st) = true /\
  exists out, (emit_preamble 0 w st).1 = Ok out /\
    exists n d, num_tasks (heap st !!! 0%nat) = Some n /\
                num_tasks_per_node (heap st !!! 0%nat) = Some d /\ d <> 0 /\
                In (_prefix (sched st) +:+ " --nodes="
                    +:+ Py.str_of_int (n / d)) out.
Proof.
  cbv zeta. split; [reflexivity|]. eexists. split; [vm_compute; reflexivity|].
  apply (proj1 (use_nodes_option_unguarded
                  (Example.scripted [] 0)
                  (Example.submitted Sacct false true
                     [Example.requested (Some 9) (Some 4) [] [] None])
                  0%nat eq_refl)).
  vm_compute. reflexivity.
Defined.

(** ** Constraint merging *)


Lemma rstrip_cons (c : ascii) (s : string) :
  Py.isspace c = false -> Py.rstrip (String c s) = String c (Py.rstrip s).
Proof. intros H. simpl. rewrite H. by destruct (Py.rstrip s). Qed.

(** An option that begins like a constraint is skipped by both loops. *)
Lemma is_constraint_opt_long (opt : string) :
  String.prefix "--constraint=" opt = true -> is_constraint_opt opt = true.
Proof.
  intros H. apply prefix_drop in H. rewrite H.
  unfold is_constraint_opt, Py.strip. apply orb_true_iff. right.
  cbn [String.length]. rewrite !append_cons. cbn [Py.lstrip].
  change (Py.isspace "-") with false. cbn iota.
  rewrite !rstrip_cons by reflexivity. reflexivity.
Qed.

Lemma prefixed_directive self (opt : string) :
  constraint_directive self (_prefix self +:+ " " +:+ opt)
  = String.prefix "--constraint=" opt.
Proof.
  unfold constraint_directive, Py.startswith. rewrite prefix_app_cancel.
  reflexivity.
Qed.

Lemma prefixed_plain self (opt : string) :
  is_constraint_opt opt = false ->
  constraint_directive self (_prefix self +:+ " " +:+ opt) = false.
Proof.
  intros H. rewrite prefixed_directive.
  destruct (String.prefix "--constraint=" opt) eqn:Hp; [|done].
  apply is_constraint_opt_long in Hp. congruence.
Qed.



Lemma option_lines_spec self j :
  Forall (fun l => constraint_directive self l = true -> In l (options j))
         (option_lines self j).
Proof.
  apply List.Forall_forall. intros l Hl Hd. unfold option_lines in Hl.
  apply in_map_iff in Hl as (opt & <- & Hopt).
  apply list_elem_of_In, list_elem_of_filter in Hopt as [Hc Hopt].
  destruct (Re.match_ prefix_patt opt); [by apply list_elem_of_In|].
  rewrite prefixed_plain in Hd; [done|]. by destruct (is_constraint_opt opt).
Qed.

Lemma filter_none {A : Type} (P : A -> Prop) `{forall x, Decision (P x)}
    (l : list A) :
  Forall (fun x => ~ P x) l -> filter P l = [].
Proof.
  induction 1 as [|x l Hx _ IH]; [done|]. by rewrite filter_cons_False.
Qed.



(** *** What the constraint parser reads *)
























(** *** The last constraint wins *)

(** What follows an option matters to it only by its first string, and
    only if that is an argument. *)
Lemma consume_optional_following p tail fuel :
  match tail with (_, Argparse.TagA) :: _ => False | _ => True end ->
  forall seen act o e rest ns ns' n,
    Argparse.consume_optional fuel p seen act o e rest ns = Ok (ns', n) ->
    Argparse.consume_optional fuel p seen act o e (rest ++ tail) ns
    = Ok (ns', n) /\ (n <= length rest)%nat.
Proof.
  intros Htail. induction fuel as [|fuel IH];
    intros seen act o e rest ns ns' n H.
  - destruct act as [a|]; cbn in H |- *.
    + destruct e as [e|].
      * destruct (Argparse.kind a).
        -- destruct (Argparse.is_long o); [discriminate|]. by destruct e.
        -- destruct seen; [discriminate|]. injection H as <- <-.
           split; [done|lia].
      * destruct (Argparse.kind a); [discriminate|].
        destruct rest as [|[s [| |]] rest]; try discriminate.
        destruct seen; [discriminate|]. injection H as <- <-.
        split; [done|simpl; lia].
    + injection H as <- <-. split; [done|lia].
  - destruct act as [a|]; cbn [Argparse.consume_optional] in H |- *.
    + destruct e as [e|].
      * destruct (Argparse.kind a).
        -- destruct (Argparse.is_long o); [discriminate|].
           destruct e as [|c e']; [discriminate|].
           destruct (Argparse.lookup_action _ _) as [a'|]; [|discriminate].
           by apply IH.
        -- destruct seen; [discriminate|]. injection H as <- <-.
           split; [done|lia].
      * destruct (Argparse.kind a); [discriminate|].
        destruct rest as [|[s [| |]] rest]; try discriminate.
        destruct seen; [discriminate|]. injection H as <- <-.
        split; [done|simpl; lia].
    + injection H as <- <-. split; [done|lia].
Qed.

(** A one-value option with its argument glued on, read after strings
    that parse, sets its destination last. *)
Lemma consume_last p x a o e fuel :
  Argparse.kind a = Argparse.Store ->
  forall items ns ns1 fuel2,
    (length items <= fuel)%nat -> (length items < fuel2)%nat ->
    Argparse.consume fuel p items ns = Ok ns1 ->
    Argparse.consume fuel2 p
      (items ++ [(x, Argparse.TagO (Some a) o (Some e))]) ns
    = Ok (<[Argparse.dest a := Argparse.get_values e]> ns1).
Proof.
  intros Hstore.
  assert (Hbase : forall ns fuel2, (0 < fuel2)%nat ->
            Argparse.consume fuel2 p
              [(x, Argparse.TagO (Some a) o (Some e))] ns
            = Ok (<[Argparse.dest a := Argparse.get_values e]> ns)).
  { intros ns [|f] Hf; [lia|].
    cbn [Argparse.consume].
    destruct (String.length x); cbn [Argparse.consume_optional];
      rewrite Hstore; cbn [drop]; by destruct f. }
  induction fuel as [|fuel IH]; intros items ns ns1 fuel2 Hlen Hlen2 H.
  - destruct items; [|simpl in Hlen; lia]. cbn in H. injection H as <-.
    by apply Hbase.
  - destruct items as [|[s tag] rest].
    { cbn in H. injection H as <-. by apply Hbase. }
    destruct fuel2 as [|f2]; [lia|]. simpl in Hlen, Hlen2.
    cbn [app Argparse.consume] in H |- *.
    destruct tag as [act o0 e0| |].
    + destruct (Argparse.consume_optional (String.length s) p false act o0 e0
                  rest ns) as [[ns' n]|err] eqn:Hopt; [|discriminate].
      apply (consume_optional_following p
               [(x, Argparse.TagO (Some a) o (Some e))]) in Hopt
        as [-> Hn]; [|done].
      rewrite drop_app_le by done.
      apply IH; [rewrite length_drop; lia..|done].
    + apply IH; [lia..|done].
    + apply IH; [lia..|done].
Qed.

Lemma classify_snoc p x r args :
  ~ In "--" args -> x <> "--" -> Argparse.parse_optional p x = Ok r ->
  forall items,
    Argparse.classify p args = Ok items ->
    Argparse.classify p (args ++ [x])
    = Ok (items ++ [(x, match r with
                        | Argparse.Positional => Argparse.TagA
                        | Argparse.Optional act o e => Argparse.TagO act o e
                        end)])%list.
Proof.
  intros Hdash Hx Hr. induction args as [|a args IH]; intros items H.
  - cbn in H. injection H as <-. cbn [app Argparse.classify].
    apply String.eqb_neq in Hx. rewrite Hx, Hr. reflexivity.
  - cbn [app Argparse.classify] in H |- *.
    destruct (String.eqb a "--") eqn:Ha.
    { apply String.eqb_eq in Ha. subst a. destruct Hdash. by left. }
    destruct (Argparse.parse_optional p a) as [ra|]; [|discriminate].
    destruct (Argparse.classify p args) as [its|]; [|discriminate].
    injection H as <-.
    rewrite (IH (fun Hin => Hdash (or_intror Hin)) its eq_refl). reflexivity.
Qed.

Lemma classify_length p args items :
  Argparse.classify p args = Ok items -> length items = length args.
Proof.
  revert items. induction args as [|a args IH]; intros items H.
  - cbn in H. by injection H as <-.
  - cbn [Argparse.classify] in H. destruct (String.eqb a "--").
    + injection H as <-. simpl. by rewrite length_map.
    + destruct (Argparse.parse_optional p a); [|discriminate].
      destruct (Argparse.classify p args) as [its|]; [|discriminate].
      injection H as <-. simpl. by rewrite (IH its).
Qed.

(** [--constraint=v] at the end of arguments that parse, and that hold no
    double dash, decides the constraint. *)
Lemma constraint_last_wins (args : list string) (v : string)
    (ns : Argparse.Namespace) :
  ~ In "--" args ->
  Argparse.parse_known_args constraint_parser args = Ok ns ->
  Argparse.parse_known_args constraint_parser
    (args ++ ["--constraint=" +:+ v])
  = Ok (<["constraint" := Argparse.get_values v]> ns).
Proof.
  intros Hdash H. unfold Argparse.parse_known_args in H |- *.
  destruct (Argparse.classify constraint_parser args) as [items|] eqn:Hc;
    [|discriminate].
  assert (Hopt : Argparse.parse_optional constraint_parser
                   ("--constraint=" +:+ v)
                 = Ok (Argparse.Optional
                         (Some {| Argparse.option_strings :=
                                    ["-C"; "--constraint"];
                                  Argparse.dest := "constraint";
                                  Argparse.kind := Argparse.Store |})
                         "--constraint" (Some v))).
  { rewrite !append_cons, append_nil. vm_compute. reflexivity. }
  assert (Hx : "--constraint=" +:+ v <> "--") by (by rewrite !append_cons).
  rewrite (classify_snoc _ _ _ _ Hdash Hx Hopt items Hc).
  rewrite length_app. cbn [length].
  apply (consume_last constraint_parser ("--constraint=" +:+ v)
           {| Argparse.option_strings := ["-C"; "--constraint"];
              Argparse.dest := "constraint";
              Argparse.kind := Argparse.Store |}
           "--constraint" v (length items)); [done|lia|lia|done].
Qed.

(** ** The blocking reasons at work *)

(** With [ignore_reqnodenotavail] the reason ReqNodeNotAvail is no cancel
    reason: for a line that names a node, which the node listing would
    show as down, [_check_and_cancel] returns without running a command
    and without cancelling. *)
Lemma reqnodenotavail_ignored :
  let w := Example.scripted
             [("scontrol -a show -o node nid01",
               ("NodeName=nid01 State=DOWN+DRAIN Partitions=normal", 0))] 0 in
  let j := Example.running (Example.requested None None [] [] None)
             42 (Some "PENDING") in
  let st := Example.submitted Squeue true false [j] in
  let line := "ReqNodeNotAvail, UnavailableNodes:nid01" in
  Py.split1 "," line = ("ReqNodeNotAvail", Some " UnavailableNodes:nid01") /\
  (exists m, Re.match_ unavailable_nodes_patt
               (Py.strip " UnavailableNodes:nid01") = Some m /\
             Re.group m "node_names" = Some "nid01") /\
  (exists nodes, (_get_nodes_by_name "nid01" w st).1 = Ok nodes /\
                 existsb (fun kv => is_down kv.2) (map_to_list nodes) = true) /\
  _check_and_cancel 0 line w st = (Ok tt, st).
Proof.
  cbv zeta. split; [vm_compute; reflexivity|].
  split; [eexists; split; [vm_compute; reflexivity|vm_compute; reflexivity]|].
  split; [eexists; split; [vm_compute; reflexivity|vm_compute; reflexivity]|].
  vm_compute. reflexivity.
Qed.

Lemma check_and_cancel_policy_witness :
  let w := Example.scripted
             [("scontrol -a show -o node nid01",
               ("NodeName=nid01 State=DOWN+DRAIN Partitions=normal", 0))] 0 in
  let j := Example.running (Example.requested None None [] [] None)
             42 (Some "PENDING") in
  let st := Example.submitted Squeue false false [j] in
  let line := "ReqNodeNotAvail, UnavailableNodes:nid01" in
  let query := _get_nodes_by_name "nid01" w st in
  (In (Py.split1 "," line).1 (_cancel_reasons (sched st)) /\
   (Py.split1 "," line).1 = "ReqNodeNotAvail" /\
   (Py.split1 "," line).2 = Some " UnavailableNodes:nid01" /\
   " UnavailableNodes:nid01" <> EmptyString /\
   "nid01" <> EmptyString) /\
  cancel_then w query.2 0
    (JobBlockedError
       ("job cancelled because it was blocked due to a perhaps non-recoverable reason: "
        +:+ "ReqNodeNotAvail" +:+ ", " +:+ " UnavailableNodes:nid01")
       (Some 42))
    (_check_and_cancel 0 line w st).
Proof.
  intros w j st line query.
  assert (Hin : In (Py.split1 "," line).1 (_cancel_reasons (sched st)))
    by (vm_compute; tauto).
  assert (Hreason : (Py.split1 "," line).1 = "ReqNodeNotAvail")
    by (vm_compute; reflexivity).
  assert (Hdetails : (Py.split1 "," line).2 = Some " UnavailableNodes:nid01")
    by (vm_compute; reflexivity).
  assert (Hd : " UnavailableNodes:nid01" <> EmptyString) by discriminate.
  assert (Hnames : "nid01" <> EmptyString) by discriminate.
  split; [done|].
  assert (Hm : exists m, Re.match_ unavailable_nodes_patt
                           (Py.strip " UnavailableNodes:nid01") = Some m /\
                         Re.group m "node_names" = Some "nid01")
    by (eexists; split; [vm_compute; reflexivity|vm_compute; reflexivity]).
  destruct Hm as (m & Hm & Hg).
  assert (Hq : exists nodes,
             query.1 = Ok nodes /\
             existsb (fun kv => is_down kv.2) (map_to_list nodes) = true)
    by (eexists; split; [vm_compute; reflexivity|vm_compute; reflexivity]).
  destruct Hq as (nodes & Hq & Hdown).
  pose proof (proj1 (proj2 (proj2 (check_and_cancel_policy w st 0 line) Hin)
                      Hreason)
                _ m Hdetails Hd Hm) as H.
  rewrite Hg in H. specialize (H Hnames nodes Hq). rewrite Hdown in H.
  exact H.
Defined.

(** ** Worked examples *)

Lemma sacct_poll_exitcode_witness :
  let nl := String "010" EmptyString in
  let w := Example.scripted
             [(EmptyString,
               ("42_0|COMPLETED|0:0|nid01" +:+ nl
                +:+ "42_1|FAILED|3:0|nid02" +:+ nl, 0))] 0 in
  let st := Example.submitted Sacct false false
              [Example.running (Example.requested None None [] [] None)
                 42 (Some "RUNNING")] in
  let st' := (SlurmJobScheduler_poll [0%nat] w st).2 in
  exitcode (heap st' !!! 0%nat) <> exitcode (heap st !!! 0%nat) /\
  slurm_state_completed (state (heap st' !!! 0%nat)) = true /\
  exists v, exitcode (heap st' !!! 0%nat) = Some v /\ 3 <= v.
Proof.
  intros nl w st st'.
  assert (Hne : exitcode (heap st' !!! 0%nat) <> exitcode (heap st !!! 0%nat))
    by (vm_compute; discriminate).
  assert (Hout : forall tr cmd t c,
            exec w tr cmd t = Exited c ->
            stdout_of c = "42_0|COMPLETED|0:0|nid01" +:+ nl
                          +:+ "42_1|FAILED|3:0|nid02" +:+ nl).
  { intros tr cmd t c H. destruct cmd; cbv in H; by injection H as <-. }
  assert (Hcodes : exitcodes
                     (lines_of
                        (Re.finditer sacct_patt
                           ("42_0|COMPLETED|0:0|nid01" +:+ nl
                            +:+ "42_1|FAILED|3:0|nid02" +:+ nl))
                        (heap st !!! 0%nat)) = [0; 3])
    by (vm_compute; reflexivity).
  split; [exact Hne|].
  pose proof (sacct_poll_exitcode w st [0%nat]) as H. cbv zeta in H.
  fold st' in H. clearbody st'. clearbody st. clearbody w.
  destruct H as (ms & Hms & H). destruct (H 0%nat) as [H1 _].
  destruct (H1 Hne) as (Hl & Hc & v & Hv & _ & Hmax).
  split; [exact Hc|]. exists v. split; [exact Hv|].
  destruct Hms as [->|(out & Hfirst & ->)]; [exfalso; apply Hl; reflexivity|].
  destruct Hfirst as (pre & cmd & t & rest & c & _ & _ & Hexec & <-).
  rewrite (Hout _ _ _ _ Hexec), Hcodes in Hmax.
  inversion Hmax as [|? ? _ Hrest]. inversion Hrest. assumption.
Defined.

(** C6, as the claim states it, fails: in a poll of two jobs, squeue
    lists the first as running with a reason that blocks it and does not
    list the second. The first job is cancelled and the error leaves the
    loop before the second is looked at, which keeps its state and has
    no exit code. *)
Lemma squeue_poll_raise_skips_absent_job :
  let out := "42|RUNNING|nid01|NodeDown" in
  let w := Example.scripted [("squeue", (out, 0))] 0 in
  let j := Example.requested None None [] [] None in
  let st := Example.submitted Squeue false false
              [Example.running j 42 (Some "RUNNING");
               Example.running j 43 (Some "RUNNING")] in
  let r := SqueueJobScheduler_poll [0%nat; 1%nat] w st in
  (forall m, In m (Re.finditer squeue_patt out) ->
             jobid (heap st !!! 1%nat) <> Some (base_jobid m)) /\
  (exists msg, r.1 = Raise (JobBlockedError msg (Some 42))) /\
  In (EvRun ("squeue -h -j 42,43 -o " +:+ dquote +:+ "%i|%T|%N|%r" +:+ dquote)
            None) (trace r.2) /\
  state (heap r.2 !!! 1%nat) = Some "RUNNING" /\
  exitcode (heap r.2 !!! 1%nat) = None.
Proof.
  cbv zeta. split.
  { intros m Hm. vm_compute in Hm. destruct Hm as [<-|[]].
    vm_compute. discriminate. }
  split; [eexists; vm_compute; reflexivity|].
  split; [vm_compute; tauto|].
  split; vm_compute; reflexivity.
Qed.

Lemma squeue_poll_absent_job_witness :
  let w := Example.scripted [(EmptyString, ("43|RUNNING|nid01|None", 0))] 0 in
  let st := Example.submitted Squeue false false
              [Example.running (Example.requested None None [] [] None)
                 42 (Some "RUNNING")] in
  let st' := (SqueueJobScheduler_poll [0%nat] w st).2 in
  (SqueueJobScheduler_poll [0%nat] w st = (Ok tt, st') /\ In 0%nat [0%nat]) /\
  state (heap st' !!! 0%nat) = Some "COMPLETED" /\
  exitcode (heap st' !!! 0%nat) = Some 0.
Proof.
  intros w st st'.
  assert (Hrun : SqueueJobScheduler_poll [0%nat] w st = (Ok tt, st'))
    by (vm_compute; reflexivity).
  assert (Hin : In 0%nat [0%nat]) by (simpl; tauto).
  assert (Hout : forall tr cmd t c,
            exec w tr cmd t = Exited c ->
            stdout_of c = "43|RUNNING|nid01|None")
    by (intros tr cmd t c H; destruct cmd; cbv in H; by injection H as <-).
  assert (Hother : forall m,
            In m (Re.finditer squeue_patt "43|RUNNING|nid01|None") ->
            jobid (heap st !!! 0%nat) <> Some (base_jobid m)).
  { intros m Hm. vm_compute in Hm. destruct Hm as [<-|[]].
    vm_compute. discriminate. }
  assert (He : exitcode (heap st !!! 0%nat) = None)
    by (vm_compute; reflexivity).
  split; [split; [exact Hrun|exact Hin]|].
  destruct (squeue_poll_absent_job w st st' [0%nat] 0%nat Hrun Hin)
    as [(out & Hfirst & Habsent) _].
  clearbody st'.
  destruct Hfirst as (pre & cmd & t & rest & c & _ & _ & Hexec & <-).
  rewrite (Hout _ _ _ _ Hexec) in Habsent.
  destruct (Habsent Hother) as [Hstate Hcode].
  rewrite Hstate, Hcode, He. split; [vm_compute; reflexivity|reflexivity].
Defined.

(** C7, as the claim states it, fails: when sbatch exits with status 1,
    an output that names a job id is not read. [submit] raises the error
    of the command, not the error of the missing job id, and the job has
    no id. *)
Lemma submit_failing_sbatch :
  let c := {| stdout_of := "Submitted batch job 4242"
                           +:+ String "010" EmptyString;
              returncode := 1 |} in
  let w := Example.scripted [("sbatch", (stdout_of c, returncode c))] 7 in
  let st := Example.submitted Sacct false false
              [Example.requested None None [] [] None] in
  exec w (trace st) ("sbatch " +:+ script_filename (heap st !!! 0%nat))
       (_submit_timeout (sched st)) = Exited c /\
  value_at submitted_key Py.isdigit (stdout_of c) 0 "4242" /\
  (submit 0 w st).1 = Raise (SpawnedProcessError "sbatch check.sh") /\
  jobid (heap (submit 0 w st).2 !!! 0%nat) = None.
Proof.
  cbv zeta. split; [vm_compute; reflexivity|]. split.
  - exists EmptyString, (String "010" EmptyString).
    repeat split; try reflexivity. discriminate.
  - split; vm_compute; reflexivity.
Qed.

Lemma submit_outcome_witness :
  let c := {| stdout_of := "Submitted batch job 4242"
                           +:+ String "010" EmptyString;
              returncode := 0 |} in
  let w := Example.scripted [("sbatch", (stdout_of c, returncode c))] 7 in
  let st := Example.submitted Sacct false false
              [Example.requested None None [] [] None] in
  (exec w (trace st) ("sbatch " +:+ script_filename (heap st !!! 0%nat))
        (_submit_timeout (sched st)) = Exited c /\
   returncode c = 0 /\
   value_at submitted_key Py.isdigit (stdout_of c) 0 "4242") /\
  (submit 0 w st).1 = Ok tt /\
  jobid (heap (submit 0 w st).2 !!! 0%nat) = Some 4242 /\
  _update_state_count (sched (submit 0 w st).2) !! 0%nat = Some 0 /\
  _submit_time (sched (submit 0 w st).2) !! 0%nat = Some 7.
Proof.
  intros c w st.
  assert (Hexec : exec w (trace st)
                    ("sbatch " +:+ script_filename (heap st !!! 0%nat))
                    (_submit_timeout (sched st)) = Exited c)
    by (vm_compute; reflexivity).
  assert (Hrc : returncode c = 0) by reflexivity.
  assert (Hval : value_at submitted_key Py.isdigit (stdout_of c) 0 "4242").
  { exists EmptyString, (String "010" EmptyString).
    repeat split; try reflexivity. discriminate. }
  split; [done|].
  rewrite (proj1 (proj2 (proj2 (submit_outcome w st 0%nat) c Hexec) Hrc)
             0%nat "4242" Hval ltac:(intros; lia)).
  vm_compute. done.
Defined.

Lemma filternodes_subset_witness :
  let nodes :=
    _create_nodes
      ["NodeName=nid01 State=IDLE Partitions=normal ActiveFeatures=gpu";
       "NodeName=nid02 State=DOWN Partitions=normal ActiveFeatures=mc"] in
  let w := Example.scripted [] 0 in
  let st := Example.submitted Sacct false false
              [Example.requested None None ["--partition=normal"] ["-C gpu"]
                 None] in
  exists out, (filternodes 0 nodes w st).1 = Ok out /\
              elements (dom out) = ["nid01"] /\ dom out ⊆ dom nodes.
Proof.
  intros nodes w st.
  destruct (filternodes 0 nodes w st) as [r st'] eqn:Hrun.
  assert (Hr : exists out, r = Ok out /\ elements (dom out) = ["nid01"]).
  { replace r with (filternodes 0 nodes w st).1 by (by rewrite Hrun).
    vm_compute. eexists. split; reflexivity. }
  destruct Hr as (out & -> & Hdom). exists out. split; [done|].
  split; [done|].
  exact (proj2 (proj2 (proj2 (proj2 (proj2 filternodes_subset)))) 0%nat
           nodes w st out st' Hrun).
Defined.

(** C9, as the claim states it, fails: of four lines of output, two
    name the same node and two name none, and [allnodes] returns one
    node, made of the first line. *)
Lemma allnodes_skips_lines :
  let line1 := "NodeName=nid01 State=IDLE Partitions=normal" in
  let line2 := "NodeName=nid01 State=DOWN Partitions=debug" in
  let line3 := "slurm_load_node: node information is partial" in
  let line4 := "State=IDLE Partitions=normal" in
  let nl := String "010" EmptyString in
  let c := {| stdout_of := line1 +:+ nl +:+ line2 +:+ nl +:+ line3 +:+ nl
                           +:+ line4 +:+ nl;
              returncode := 0 |} in
  let w := Example.scripted
             [("scontrol -a show -o nodes", (stdout_of c, returncode c))] 0 in
  let st := Example.submitted Sacct false false [] in
  exec w (trace st) "scontrol -a show -o nodes" None = Exited c /\
  Py.splitlines (stdout_of c) = [line1; line2; line3; line4] /\
  exists nodes n,
    (allnodes w st).1 = Ok nodes /\
    map_to_list nodes = [("nid01", n)] /\ _descr n = line1.
Proof.
  cbv zeta. split; [vm_compute; reflexivity|]. split; [vm_compute; reflexivity|].
  eexists _, _. split; [vm_compute; reflexivity|].
  split; [vm_compute; reflexivity|vm_compute; reflexivity].
Qed.

Lemma allnodes_parses_lines_witness :
  let line1 :=
    "NodeName=nid01 State=IDLE Partitions=normal ActiveFeatures=gpu" in
  let line2 :=
    "NodeName=nid02 State=DOWN Partitions=normal ActiveFeatures=mc" in
  let nl := String "010" EmptyString in
  let c := {| stdout_of := line1 +:+ nl +:+ line2 +:+ nl; returncode := 0 |} in
  let w := Example.scripted
             [("scontrol -a show -o nodes", (stdout_of c, returncode c))] 0 in
  let st := Example.submitted Sacct false false [] in
  (exec w (trace st) "scontrol -a show -o nodes" None = Exited c /\
   returncode c = 0) /\
  exists nodes st',
    allnodes w st = (Ok nodes, st') /\
    is_Some (nodes !! "nid01") /\ is_Some (nodes !! "nid02").
Proof.
  intros line1 line2 nl c w st.
  assert (Hexec : exec w (trace st) "scontrol -a show -o nodes" None = Exited c)
    by (vm_compute; reflexivity).
  assert (Hrc : returncode c = 0) by reflexivity.
  split; [done|].
  destruct (allnodes_parses_lines w st c Hexec Hrc)
    as (nodes & st' & Hrun & Hlines & _).
  exists nodes, st'. split; [exact Hrun|].
  assert (Hl : Py.splitlines (stdout_of c) = [line1; line2])
    by (vm_compute; reflexivity).
  rewrite Hl in Hlines.
  assert (H1 : find_value "NodeName=" nonspace line1 = Some "nid01")
    by (vm_compute; reflexivity).
  assert (H2 : find_value "NodeName=" nonspace line2 = Some "nid02")
    by (vm_compute; reflexivity).
  split.
  - destruct (Hlines line1 "nid01") as (n & Hn & _); [by left|exact H1|].
    by exists n.
  - destruct (Hlines line2 "nid02") as (n & Hn & _); [right; by left|exact H2|].
    by exists n.
Defined.

(** * Further properties of the scheduler code *)

(** ** The two classifiers together *)

Lemma states_disjoint (t : string) :
  t ∈ completion_states -> t ∈ pending_states -> False.
Proof.
  assert (H : completion_states ∩ pending_states = ∅)
    by (apply (bool_decide_unpack _); vm_compute; exact I).
  intros Hc Hp. assert (Ht : t ∈ completion_states ∩ pending_states)
    by (by apply elem_of_intersection).
  rewrite H in Ht. by apply elem_of_empty in Ht.
Qed.

Lemma pending_not_completed (state : option string) :
  slurm_state_pending state = true -> slurm_state_completed state = false.
Proof.
  intros Hp. destruct state as [s|]; [|reflexivity].
  destruct (slurm_state_completed (Some s)) eqn:Hc; [|reflexivity].
  apply completed_all in Hc as [_ Hall]. apply pending_any in Hp as [_ Hany].
  apply Exists_exists in Hany as (t & Ht & Hpend).
  rewrite Forall_forall in Hall. destruct (states_disjoint t); auto.
Qed.

(** X1. No state is both complete and pending: the two state sets share
    no name, and a complete state has all its tokens in the first. *)
Theorem completed_excludes_pending (state : option string) :
  slurm_state_completed state && slurm_state_pending state = false.
Proof.
  destruct (slurm_state_pending state) eqn:Hp; [|by rewrite andb_false_r].
  by rewrite (pending_not_completed _ Hp).
Qed.

Lemma split_app_sep (sep : ascii) (a b : string) :
  Py.split sep (a +:+ String sep b) = (Py.split sep a ++ Py.split sep b)%list.
Proof.
  induction a as [|c a IH].
  - simpl. by rewrite Ascii.eqb_refl.
  - rewrite append_cons. simpl. rewrite IH.
    destruct (Ascii.eqb c sep); [reflexivity|].
    pose proof (split_nonempty sep a) as Hn.
    by destruct (Py.split sep a).
Qed.

(** The tokens of joined strings are the tokens of the strings. *)
Lemma split_join_concat (sep : ascii) (x : string) (l : list string) :
  Py.split sep (Py.join (String sep EmptyString) (x :: l))
  = concat (map (Py.split sep) (x :: l)).
Proof.
  unfold Py.join. revert x. induction l as [|y l IH]; intros x.
  - simpl. by rewrite app_nil_r.
  - rewrite concat_cons. change (String sep EmptyString +:+ ?r) with (String sep r).
    rewrite split_app_sep, IH. reflexivity.
Qed.

Lemma completed_tokens (s : string) :
  slurm_state_completed (Some s)
  = forallb (fun t => bool_decide (t ∈ completion_states)) (Py.split "," s).
Proof. by destruct s. Qed.

Lemma pending_tokens (s : string) :
  slurm_state_pending (Some s)
  = existsb (fun t => bool_decide (t ∈ pending_states)) (Py.split "," s).
Proof. by destruct s. Qed.

Lemma forallb_concat {A : Type} (p : A -> bool) (ls : list (list A)) :
  forallb p (concat ls) = forallb (forallb p) ls.
Proof.
  induction ls as [|l ls IH]; [done|]. simpl. by rewrite forallb_app, IH.
Qed.

Lemma existsb_concat {A : Type} (p : A -> bool) (ls : list (list A)) :
  existsb p (concat ls) = existsb (existsb p) ls.
Proof.
  induction ls as [|l ls IH]; [done|]. simpl. by rewrite existsb_app, IH.
Qed.

(** X2. The state that the polls join from the lines of a job array is
    complete exactly when the state on every line is, and pending exactly
    when the state on some line is. *)
Theorem joined_state_classified (s : string) (states : list string) :
  slurm_state_completed (Some (Py.join "," (s :: states)))
  = forallb (fun x => slurm_state_completed (Some x)) (s :: states) /\
  slurm_state_pending (Some (Py.join "," (s :: states)))
  = existsb (fun x => slurm_state_pending (Some x)) (s :: states).
Proof.
  rewrite completed_tokens, pending_tokens.
  rewrite (split_join_concat "," s states).
  rewrite forallb_concat, existsb_concat.
  generalize (s :: states). intros l. split.
  - induction l as [|x l IH]; [done|]. simpl.
    by rewrite IH, completed_tokens.
  - induction l as [|x l IH]; [done|]. simpl.
    by rewrite IH, pending_tokens.
Qed.

(** ** The array test *)

(** X3. [is_array] never answers from [_is_job_array]: the entries are
    stored under job objects and looked up by job id, so that every call
    parses the options of the job again. It returns whether they give a
    non-empty [-a] or [--array] value, stores that under the job, and
    changes nothing else; options that do not parse leave through the
    error of the parser, with nothing changed. *)
Theorem is_array_parses_again (w : World) (st : State) (job : nat) :
  keyed_by_jobs (sched st) ->
  let j := heap st !!! job in
  let self := sched st in
  match Argparse.parse_known_args array_parser (options j) with
  | Ok parsed_args =>
      let answer := Argparse.truthy (parsed_args !! "array") in
      let self' := with_books self (_is_cancelling self)
                     (<[inl job := answer]> (_is_job_array self))
                     (_update_state_count self) (_submit_time self)
                     (_cancelled self) in
      is_array job w st
      = (Ok answer, {| heap := heap st; sched := self'; trace := trace st |})
      /\ keyed_by_jobs self'
  | Raise e => is_array job w st = (Raise e, st)
  end.
Proof.
  intros Hkeys j self. subst j self. cbv zeta.
  assert (Hmiss : bool_decide (inr (jobid (heap st !!! job))
                               ∉ dom (_is_job_array (sched st))) = true).
  { apply bool_decide_eq_true. intros Hin.
    by destruct (Hkeys _ Hin) as [job' Hk]. }
  assert (Hrun : is_array job w st
                 = match Argparse.parse_known_args array_parser
                           (options (heap st !!! job)) with
                   | Ok parsed_args =>
                       (Ok (Argparse.truthy (parsed_args !! "array")),
                        {| heap := heap st;
                           sched :=
                             with_books (sched st) (_is_cancelling (sched st))
                               (<[inl job :=
                                    Argparse.truthy (parsed_args !! "array")]>
                                  (_is_job_array (sched st)))
                               (_update_state_count (sched st))
                               (_submit_time (sched st))
                               (_cancelled (sched st));
                           trace := trace st |})
                   | Raise e => (Raise e, st)
                   end).
  { unfold is_array, bind, get_job, get_sched, lift, put_sched.
    cbv beta iota. rewrite Hmiss.
    destruct (Argparse.parse_known_args array_parser
                (options (heap st !!! job))) as [parsed_args|e]; [|reflexivity].
    cbn [sched _is_job_array with_books]. by rewrite lookup_insert_eq. }
  rewrite Hrun.
  destruct (Argparse.parse_known_args array_parser
              (options (heap st !!! job))) as [parsed_args|e]; [|reflexivity].
  split; [reflexivity|].
  intros k Hk. cbn [_is_job_array with_books] in Hk.
  apply dom_insert, elem_of_union in Hk as [Hk|Hk].
  - apply elem_of_singleton in Hk. by exists job.
  - by apply Hkeys.
Qed.

(** ** Failures of the commands *)

(** X4. [allnodes] lets no error of the node listing out as it is: when
    the command exits with a status that is not zero, or does not end,
    [JobError] is raised in its place; with status zero the nodes made of
    the lines of the output are returned. In every case the command has
    been run once and nothing else has changed. *)
Theorem allnodes_outcome (w : World) (st : State) :
  let cmd := "scontrol -a show -o nodes" in
  let st1 := ran st (EvRun cmd None) in
  let failed := JobError "could not retrieve node information" None in
  allnodes w st
  = match exec w (trace st) cmd None with
    | Exited c =>
        if returncode c =? 0
        then (Ok (_create_nodes (Py.splitlines (stdout_of c))), st1)
        else (Raise failed, st1)
    | Expired => (Raise failed, st1)
    end.
Proof.
  cbv zeta. unfold allnodes, bind, try_except, _run_strict, run_command.
  destruct (exec w (trace st) "scontrol -a show -o nodes" None) as [c|];
    [|reflexivity].
  cbn [andb]. by destruct (returncode c =? 0).
Qed.

(** X5. A [submit] that fails leaves no trace in the books: when sbatch
    exits with a status that is not zero or outlives the submit timeout,
    the error of the command is raised, and whenever [submit] raises, no
    job object and no entry of the scheduler has changed; only the
    command has been run. *)
Theorem submit_failure (w : World) (st : State) (job : nat) :
  let j := heap st !!! job in
  let cmd := "sbatch " +:+ script_filename j in
  let timeout := _submit_timeout (sched st) in
  let st1 := ran st (EvRun cmd timeout) in
  match exec w (trace st) cmd timeout with
  | Expired => submit job w st = (Raise (SpawnedProcessTimeout cmd), st1)
  | Exited c =>
      returncode c <> 0 ->
      submit job w st = (Raise (SpawnedProcessError cmd), st1)
  end /\
  (forall e st', submit job w st = (Raise e, st') -> st' = st1).
Proof.
  cbv zeta.
  set (k := fun completed : CompletedProcess =>
              match Re.search jobid_patt (stdout_of completed) with
              | None =>
                  raise (JobError
                           "could not retrieve the job id of the submitted job"
                           None)
              | Some jobid_match =>
                  let* _ :=
                    modify_job job
                      (set_jobid
                         (Some (Py.int_of_digits
                                  (default EmptyString
                                     (Re.group jobid_match "jobid"))))) in
                  let* self := get_sched in
                  let* _ :=
                    put_sched
                      (with_books self (_is_cancelling self)
                         (_is_job_array self)
                         (<[job := 0]> (_update_state_count self))
                         (_submit_time self) (_cancelled self)) in
                  let* now := datetime_now in
                  let* self := get_sched in
                  put_sched
                    (with_books self (_is_cancelling self)
                       (_is_job_array self) (_update_state_count self)
                       (<[job := now]> (_submit_time self))
                       (_cancelled self))
              end).
  assert (Hrun : submit job w st
                 = bind (_run_strict ("sbatch "
                                      +:+ script_filename (heap st !!! job))
                           (_submit_timeout (sched st))) k w st)
    by reflexivity.
  rewrite Hrun. clear Hrun. unfold bind, _run_strict, run_command.
  destruct (exec w (trace st) _ _) as [c|]; cbn [andb].
  - destruct (returncode c =? 0) eqn:Hrc; cbn [negb].
    + split; [intros Hne; apply Z.eqb_eq in Hrc; contradiction|].
      intros e st'. unfold k.
      destruct (Re.search jobid_patt (stdout_of c)) as [m|].
      * unfold bind, modify_job, get_sched, put_sched, datetime_now.
        cbv beta iota. intros H. discriminate H.
      * unfold raise. by intros [= _ <-].
    + split; [done|]. by intros e st' [= _ <-].
  - split; [done|]. by intros e st' [= _ <-].
Qed.

(** ** Jobs that were never submitted *)

Lemma books_missing (d : gmap nat Z) (jobs : list nat) (job : nat) w st :
  In job jobs -> d !! job = None -> books d jobs w st = (Raise KeyError, st).
Proof.
  intros Hin Hd. induction jobs as [|x jobs IH]; [destruct Hin|].
  simpl. unfold bind at 1, book.
  destruct (decide (x = job)) as [->|Hne].
  - by rewrite Hd.
  - destruct Hin as [->|Hin]; [done|].
    destruct (d !! x) as [v|]; [|reflexivity].
    unfold ret at 1. unfold bind at 1. by rewrite (IH Hin).
Qed.

(** X6. A poll on jobs of which one has no submit time, because it was
    never submitted through this scheduler, raises [KeyError] before any
    command is run or anything is changed, with either back end. *)
Theorem poll_unsubmitted_job (w : World) (st : State) (jobs : list nat)
    (job : nat) :
  In job jobs -> _submit_time (sched st) !! job = None ->
  poll jobs w st = (Raise KeyError, st).
Proof.
  intros Hin Hd. unfold poll, bind at 1, get_sched at 1.
  destruct jobs as [|x jobs]; [destruct Hin|].
  destruct (backend (sched st));
    unfold SlurmJobScheduler_poll, SqueueJobScheduler_poll;
    unfold bind at 1, get_sched at 1;
    unfold bind at 1; by rewrite (books_missing _ _ job w st Hin Hd).
Qed.

(** ** The completion test *)

(** X7. A stored exception decides [finished] at once and is dropped: a
    [JobBlockedError] is raised again, any other [JobError] makes the
    answer [False], and an exception of another class is raised as it is.
    In each case the job holds no exception afterwards, the pending time
    is not looked at and no command is run. *)
Theorem finished_stored_exception (w : World) (st : State) (job : nat)
    (e : exn) :
  exception (heap st !!! job) = Some e ->
  let st1 := {| heap := <[job := set_exception None (heap st !!! job)]>
                          (heap st);
                sched := sched st; trace := trace st |} in
  finished job w st
  = (match e with
     | JobBlockedError _ _ => Raise e
     | JobError _ _ => Ok false
     | _ => Raise e
     end, st1) /\
  exception (heap st1 !!! job) = None.
Proof.
  intros He st1. split.
  - unfold finished, bind at 1, get_job at 1. cbn iota. rewrite He.
    unfold bind, modify_job, raise, ret. fold st1. by destruct e.
  - subst st1. cbn [heap]. by rewrite lookup_total_insert_eq.
Qed.

(** X8. Without a stored exception, and with no pending limit to apply
    (none set, a zero one, or a state that is not pending), [finished] is
    a plain query: it answers [slurm_state_completed] of the state, runs
    no command and changes nothing. *)
Theorem finished_plain_query (w : World) (st : State) (job : nat) :
  let j := heap st !!! job in
  exception j = None ->
  max_pending_time j = None \/ max_pending_time j = Some 0 \/
  slurm_state_pending (state j) = false ->
  finished job w st = (Ok (slurm_state_completed (state j)), st).
Proof.
  intros j He Hlimit. unfold finished, bind at 1, get_job at 1. cbn iota.
  fold j. rewrite He. unfold bind at 1, ret at 1. cbn iota.
  assert (Hskip : enforce_max_pending_time job w st = (Ok tt, st)).
  { unfold enforce_max_pending_time, bind at 1, get_job at 1. cbn iota.
    fold j. cbv zeta.
    destruct Hlimit as [-> | [-> | ->]]; [reflexivity|reflexivity|].
    by rewrite andb_false_r. }
  unfold bind at 1. rewrite Hskip. reflexivity.
Qed.

(** ** Waiting *)

Lemma heap_same_is_array job : always heap_same (is_array job).
Proof. unfold is_array. frame. Qed.

Lemma heap_same__merge_files job : always heap_same (_merge_files job).
Proof. unfold _merge_files. frame. Qed.

Lemma wait_loop_left fuel job i w st st' :
  wait_loop fuel job i w st = (Ok true, st') ->
  slurm_state_completed (state (heap st' !!! job)) = true.
Proof.
  revert i st. induction fuel as [|fuel IH]; intros i st H; simpl in H.
  - unfold bind at 1, get_job at 1 in H. cbn iota in H.
    destruct (slurm_state_completed (state (heap st !!! job))) eqn:Hc;
      [|discriminate].
    apply ret_ok in H as [_ ->]. exact Hc.
  - unfold bind at 1, get_job at 1 in H. cbn iota in H.
    destruct (slurm_state_completed (state (heap st !!! job))) eqn:Hc.
    + apply ret_ok in H as [_ ->]. exact Hc.
    + apply bind_ok in H as ([] & s1 & _ & H). by apply IH in H.
Qed.

(** X9. [wait] returns only for a job that is complete: when the call
    comes back (the loop was left), [slurm_state_completed] holds of the
    state of the job, also after the files of a job array were merged. *)
Theorem wait_returns_completed (fuel : nat) (job : nat) (w : World)
    (st st' : State) :
  wait fuel job w st = (Ok true, st') ->
  slurm_state_completed (state (heap st' !!! job)) = true.
Proof.
  intros H. unfold wait in H. cbv zeta in H.
  assert (Hmerge : forall s s' (r : result bool),
            (let* _ := (let* arr := is_array job in
                        if arr then _merge_files job else ret tt) in
             ret true) w s = (r, s') ->
            heap s' = heap s).
  { intros s s' r Hm.
    assert (Hh : always heap_same
                   (let* _ := (let* arr := is_array job in
                               if arr then _merge_files job else ret tt) in
                    ret true)).
    { pose proof heap_same_is_array. pose proof heap_same__merge_files.
      frame. }
    specialize (Hh w s). rewrite Hm in Hh. exact Hh. }
  unfold bind at 1, get_job at 1 in H. cbn iota in H.
  destruct (slurm_state_completed (state (heap st !!! job))) eqn:Hc.
  - apply Hmerge in H. by rewrite H.
  - apply bind_ok in H as ([] & s1 & _ & H).
    apply bind_ok in H as (left & s2 & Hloop & H).
    destruct left; [|by apply ret_ok in H as [? _]].
    apply wait_loop_left in Hloop. apply Hmerge in H. by rewrite H.
Qed.

(** ** The node list of a job *)

Lemma nodelist_same_refl st : nodelist_same st st.
Proof. by intros x. Qed.

Lemma nodelist_same_trans a b c :
  nodelist_same a b -> nodelist_same b c -> nodelist_same a c.
Proof. intros H1 H2 x. by rewrite H2, H1. Qed.

Lemma nodelist_kept_refl st : nodelist_kept st st.
Proof. by intros x l. Qed.

Lemma nodelist_kept_trans a b c :
  nodelist_kept a b -> nodelist_kept b c -> nodelist_kept a c.
Proof. intros H1 H2 x l H. by apply H2, H1. Qed.

Lemma nodelist_same_kept st st' : nodelist_same st st' -> nodelist_kept st st'.
Proof. intros H x l Hl. by rewrite H. Qed.

Lemma heap_same_nodelist_same {A : Type} (m : M A) :
  always heap_same m -> always nodelist_same m.
Proof. intros H w st x. by rewrite (H w st). Qed.

Lemma nodelist_same_modify_job job f :
  (forall j, nodelist (f j) = nodelist j) ->
  always nodelist_same (modify_job job f).
Proof.
  intros Hf w st x. simpl. destruct (decide (x = job)) as [->|Hne].
  - by rewrite lookup_total_insert_eq.
  - by rewrite lookup_total_insert_ne.
Qed.

Lemma always_weaken {A : Type} (R R' : State -> State -> Prop) (m : M A) :
  (forall st st', R st st' -> R' st st') -> always R m -> always R' m.
Proof. intros HR H w st. apply HR, H. Qed.

#[local] Hint Resolve nodelist_same_refl nodelist_kept_refl : frames.

Ltac frame_side ::=
  first [ exact heap_same_refl | exact heap_same_trans
        | exact sched_same_refl | exact sched_same_trans
        | exact trace_grows_refl | exact trace_grows_trans
        | exact nodelist_same_refl | exact nodelist_same_trans
        | exact nodelist_kept_refl | exact nodelist_kept_trans ].

#[local] Hint Extern 2 (always nodelist_same (modify_job _ _)) =>
  apply nodelist_same_modify_job; intros ?; reflexivity : frames.

#[local] Hint Extern 4 (always nodelist_same _) =>
  apply heap_same_nodelist_same; solve [auto with frames] : frames.

Lemma nodelist_same_squeue_update info job :
  always nodelist_same (squeue_update info job).
Proof. unfold squeue_update. frame. Qed.

#[local] Hint Resolve nodelist_same_squeue_update : frames.

(** X10. The squeue back end never records the nodes of a job: whatever
    squeue prints, and however the poll ends, the node list of every job
    is after [SqueueJobScheduler.poll] what it was before. *)
Theorem squeue_poll_keeps_nodelist (jobs : list nat) (w : World) (st : State)
    (x : nat) :
  nodelist (heap (SqueueJobScheduler_poll jobs w st).2 !!! x)
  = nodelist (heap st !!! x).
Proof.
  revert w st x. change (always nodelist_same (SqueueJobScheduler_poll jobs)).
  unfold SqueueJobScheduler_poll. destruct jobs as [|job0 jobs0]; [frame|].
  set (jobs := job0 :: jobs0). frame.
Qed.

Lemma nodelist_kept__set_nodelist job nodespec :
  always nodelist_kept (_set_nodelist job nodespec).
Proof.
  intros w st. unfold _set_nodelist, bind at 1, get_job at 1. cbn iota.
  destruct (nodelist (heap st !!! job)) as [l0|] eqn:Hl;
    [apply nodelist_kept_refl|].
  destruct (_ && _); [|apply nodelist_kept_refl].
  pose proof (heap_same__get_nodes_by_name nodespec w st) as Hh.
  unfold bind. destruct (_get_nodes_by_name nodespec w st) as [[nodes|e] s1].
  - unfold heap_same in Hh. cbn [snd] in Hh. intros x l Hx. simpl.
    rewrite Hh. destruct (decide (x = job)) as [->|Hne]; [congruence|].
    by rewrite lookup_total_insert_ne.
  - unfold heap_same in Hh. cbn [snd] in Hh. intros x l Hx. simpl.
    by rewrite Hh.
Qed.

#[local] Hint Resolve nodelist_kept__set_nodelist : frames.

#[local] Hint Extern 5 (always nodelist_kept _) =>
  apply (always_weaken nodelist_same nodelist_kept);
    [exact nodelist_same_kept|solve [auto with frames]] : frames.

Lemma nodelist_kept_sacct_update info job :
  always nodelist_kept (sacct_update info job).
Proof. unfold sacct_update. frame. Qed.

#[local] Hint Resolve nodelist_kept_sacct_update : frames.

(** X11. The sacct back end sets the node list of a job once: a node
    list that a job has is not changed by [SlurmJobScheduler.poll],
    whatever sacct and scontrol print and however the poll ends. *)
Theorem sacct_poll_sets_nodelist_once (jobs : list nat) (w : World)
    (st : State) (x : nat) (l : list string) :
  nodelist (heap st !!! x) = Some l ->
  nodelist (heap (SlurmJobScheduler_poll jobs w st).2 !!! x) = Some l.
Proof.
  revert w st x l. change (always nodelist_kept (SlurmJobScheduler_poll jobs)).
  unfold SlurmJobScheduler_poll. destruct jobs as [|job0 jobs0]; [frame|].
  set (jobs := job0 :: jobs0). frame.
  intros w st x l Hl. cbv beta.
  match goal with
  | |- context [_run_strict ?c None w st] =>
      pose proof (heap_same__run_strict c None w st) as Hh
  end.
  unfold heap_same in Hh. by rewrite Hh.
Qed.

(** ** The pause before squeue *)

Lemma books_found (d : gmap nat Z) (jobs : list nat) (times : list Z) w st :
  Forall2 (fun job t => d !! job = Some t) jobs times ->
  books d jobs w st = (Ok times, st).
Proof.
  induction 1 as [|job t jobs times Hd _ IH]; [reflexivity|].
  simpl. unfold bind at 1, book. rewrite Hd. unfold ret at 1.
  unfold bind at 1. by rewrite IH.
Qed.

(** ** What follows the squeue command *)

Lemma trace_adds_refl P st : trace_adds P st st.
Proof. exists []. split; [by rewrite app_nil_r|constructor]. Qed.

Lemma trace_adds_trans P a b c :
  trace_adds P a b -> trace_adds P b c -> trace_adds P a c.
Proof.
  intros (t1 & H1 & F1) (t2 & H2 & F2). exists (t1 ++ t2)%list.
  split; [by rewrite H2, H1, app_assoc|by apply Forall_app].
Qed.

Lemma trace_adds_same {A : Type} P (m : M A) :
  (forall w st, trace (m w st).2 = trace st) -> always (trace_adds P) m.
Proof.
  intros H w st. exists []. split; [by rewrite H, app_nil_r|constructor].
Qed.

Lemma trace_adds_modify_job P job f : always (trace_adds P) (modify_job job f).
Proof. by apply trace_adds_same. Qed.

Lemma trace_adds_put_sched P s : always (trace_adds P) (put_sched s).
Proof. by apply trace_adds_same. Qed.

Lemma trace_adds_run_command (P : event -> Prop) cmd check timeout :
  P (EvRun cmd timeout) -> always (trace_adds P) (run_command cmd check timeout).
Proof.
  intros HP w st. exists [EvRun cmd timeout]. split; [|by repeat constructor].
  unfold run_command. destruct (exec w (trace st) cmd timeout) as [c|];
    [|reflexivity].
  by destruct (check && negb (returncode c =? 0)).
Qed.

Lemma counts_same_refl st : counts_same st st.
Proof. reflexivity. Qed.

Lemma counts_same_trans a b c :
  counts_same a b -> counts_same b c -> counts_same a c.
Proof. unfold counts_same. congruence. Qed.

Lemma sched_same_counts_same {A : Type} (m : M A) :
  always sched_same m -> always counts_same m.
Proof. intros H w st. unfold counts_same. by rewrite (H w st). Qed.

Ltac frame_side ::=
  first [ exact heap_same_refl | exact heap_same_trans
        | exact sched_same_refl | exact sched_same_trans
        | exact trace_grows_refl | exact trace_grows_trans
        | exact nodelist_same_refl | exact nodelist_same_trans
        | exact nodelist_kept_refl | exact nodelist_kept_trans
        | exact (trace_adds_refl _) | exact (trace_adds_trans _)
        | exact counts_same_refl | exact counts_same_trans ].

#[local] Hint Resolve trace_adds_refl trace_adds_modify_job
  trace_adds_put_sched : frames.

Lemma cancelling__get_nodes_by_name nodespec :
  always (trace_adds cancelling_event) (_get_nodes_by_name nodespec).
Proof.
  unfold _get_nodes_by_name. frame.
  apply trace_adds_run_command. exists nodespec, None. by left.
Qed.

Lemma cancelling_cancel job : always (trace_adds cancelling_event) (cancel job).
Proof.
  assert (H : always (trace_adds cancelling_event)
                (SlurmJobScheduler_cancel job)).
  { unfold SlurmJobScheduler_cancel, _run_strict. frame.
    apply trace_adds_run_command. eexists _, _. by right. }
  unfold cancel, SqueueJobScheduler_cancel. frame.
Qed.

#[local] Hint Resolve cancelling__get_nodes_by_name cancelling_cancel : frames.

Lemma cancelling__check_and_cancel job reason_descr :
  always (trace_adds cancelling_event) (_check_and_cancel job reason_descr).
Proof. unfold _check_and_cancel. frame. Qed.

#[local] Hint Resolve cancelling__check_and_cancel : frames.

Lemma cancelling_squeue_update info job :
  always (trace_adds cancelling_event) (squeue_update info job).
Proof. unfold squeue_update. frame. Qed.

Lemma cancelling_not_squeue (e : event) :
  cancelling_event e ->
  forall cmd timeout, e = EvRun cmd timeout -> Py.startswith cmd "squeue" = false.
Proof.
  intros (arg & t & [->| ->]) cmd timeout [= <- _];
    unfold Py.startswith; by rewrite !append_cons.
Qed.

(** X12. The squeue poll keeps its distance from the last submission.
    With the submit times of the polled jobs and the latest [m] of them,
    the poll reads the clock, sleeps for what is missing of the squeue
    delay since [m] if something is missing, and only then runs squeue
    on the ids of all the jobs. Squeue is run once: every event after it
    is a node query or an scancel of the cancel policy. *)
Theorem squeue_poll_delay (w : World) (st : State) (job0 : nat)
    (jobs0 : list nat) (times : list Z) (m : Z) :
  let jobs := job0 :: jobs0 in
  Forall2 (fun job t => _submit_time (sched st) !! job = Some t) jobs times ->
  py_max times = Ok m ->
  let now := clock w (trace st) in
  let rem_wait := _squeue_delay (sched st) - (now - m) in
  let cmd := "squeue -h -j "
             +:+ Py.join "," (map (fun job =>
                                     str_of_jobid (jobid (heap st !!! job)))
                                  jobs)
             +:+ " -o " +:+ dquote +:+ "%i|%T|%N|%r" +:+ dquote in
  exists rest,
    trace (SqueueJobScheduler_poll jobs w st).2
    = (trace st ++ [EvNow]
       ++ (if 0 <? rem_wait then [EvSleep rem_wait] else [])
       ++ [EvRun cmd None] ++ rest)%list /\
    Forall cancelling_event rest /\
    Forall (fun e => forall c t, e = EvRun c t ->
                                 Py.startswith c "squeue" = false) rest.
Proof.
  intros jobs Htimes Hm now rem_wait cmd.
  remember (SqueueJobScheduler_poll jobs w st) as out eqn:Hout.
  unfold SqueueJobScheduler_poll, jobs in Hout. fold jobs in Hout.
  unfold bind at 1, get_sched at 1 in Hout. cbn iota in Hout.
  unfold bind at 1 in Hout. rewrite (books_found _ _ _ w st Htimes) in Hout.
  unfold bind at 1, lift at 1 in Hout. rewrite Hm in Hout.
  unfold bind at 1, datetime_now at 1 in Hout. cbn iota in Hout.
  fold now in Hout. cbv zeta in Hout. fold rem_wait in Hout.
  set (s1 := {| heap := heap st; sched := sched st;
                trace := (trace st ++ [EvNow])%list |}) in Hout.
  set (s2 := if 0 <? rem_wait
             then {| heap := heap st; sched := sched st;
                     trace := (trace s1 ++ [EvSleep rem_wait])%list |}
             else s1).
  assert (Hsleep : (if 0 <? rem_wait then time_sleep rem_wait else ret tt) w s1
                   = (Ok tt, s2)).
  { subst s2. by destruct (0 <? rem_wait). }
  unfold bind at 1 in Hout. rewrite Hsleep in Hout.
  assert (Hheap : heap s2 = heap st) by (subst s2; by destruct (0 <? rem_wait)).
  assert (Htrace : trace s2
                   = (trace st ++ [EvNow]
                      ++ (if 0 <? rem_wait then [EvSleep rem_wait] else []))%list).
  { subst s2. destruct (0 <? rem_wait); cbn [trace s1].
    - by rewrite <- app_assoc.
    - reflexivity. }
  unfold bind at 1 in Hout. cbv beta iota in Hout. rewrite Hheap in Hout.
  fold cmd in Hout.
  unfold bind at 1 in Hout.
  assert (Hrun' : trace (run_command cmd false None w s2).2
                  = (trace s2 ++ [EvRun cmd None])%list).
  { unfold run_command. destruct (exec w (trace s2) cmd None) as [c|];
      [|reflexivity].
    by destruct (false && negb (returncode c =? 0)). }
  assert (Hquiet : forall rest,
            Forall cancelling_event rest ->
            Forall (fun e => forall c t, e = EvRun c t ->
                                         Py.startswith c "squeue" = false) rest).
  { intros rest H. eapply Forall_impl; [exact H|].
    intros e He. by apply cancelling_not_squeue. }
  destruct (run_command cmd false None w s2) as [[c|e] s3].
  - cbn [snd] in Hrun'.
    assert (Hloop : always (trace_adds cancelling_event)
                      (for_each jobs
                         (squeue_update
                            (group_matches
                               (Re.finditer squeue_patt (stdout_of c)))))).
    { pose proof cancelling_squeue_update. frame. }
    specialize (Hloop w s3). rewrite <- Hout in Hloop.
    destruct Hloop as (rest & Hrest & Hall). exists rest.
    split; [|split; [exact Hall|by apply Hquiet]].
    rewrite Hrest, Hrun', Htrace. by rewrite <- !app_assoc.
  - exists []. subst out. cbn [snd] in Hrun' |- *.
    split; [|split; constructor].
    rewrite Hrun', Htrace. by rewrite <- !app_assoc.
Qed.

(** ** What a poll runs *)

Lemma _set_nodelist_runs job nodespec w st :
  let st' := (_set_nodelist job nodespec w st).2 in
  sched st' = sched st /\
  (trace st' = trace st \/
   trace st' = (trace st
                ++ [EvRun ("scontrol -a show -o node " +:+ nodespec) None])%list).
Proof.
  cbv zeta. remember (_set_nodelist job nodespec w st) as out eqn:Hout.
  unfold _set_nodelist, bind at 1, get_job at 1 in Hout. cbn iota in Hout.
  destruct (nodelist (heap st !!! job));
    [subst out; split; [reflexivity|left; reflexivity]|].
  destruct (_ && _); [|subst out; split; [reflexivity|left; reflexivity]].
  unfold _get_nodes_by_name, bind, run_command, modify_job, ret in Hout.
  destruct (exec w (trace st) _ None) as [c|]; cbn in Hout; subst out;
    (split; [reflexivity|right; reflexivity]).
Qed.

Lemma _cancel_if_blocked_skips job w st :
  job ∈ _is_cancelling (sched st) \/
  slurm_state_pending (state (heap st !!! job)) = false ->
  _cancel_if_blocked job w st = (Ok tt, st).
Proof.
  intros H. unfold _cancel_if_blocked, bind at 1, get_job at 1. cbn iota.
  unfold bind at 1, get_sched at 1. cbn iota.
  destruct H as [H|H].
  - by rewrite (bool_decide_eq_true_2 _ H).
  - rewrite H. by rewrite orb_true_r.
Qed.

Lemma sacct_update_quiet_core (w : World) (st : State)
    (jobs_info : gmap Z (list Re.Match)) (job : nat)
    (lines : list Re.Match) (n : Z) :
  info_of jobs_info (heap st !!! job) = Some lines ->
  _update_state_count (sched st) !! job = Some n ->
  n mod SACCT_SQUEUE_RATIO <> 0 \/ job ∈ _is_cancelling (sched st) \/
  slurm_state_pending (Some (joined_state lines)) = false ->
  let st' := (sacct_update jobs_info job w st).2 in
  let nodespec := Py.join "," (map (fun m => group_ m "nodespec") lines) in
  sched st' = sched st /\
  (trace st' = trace st \/
   trace st' = (trace st
                ++ [EvRun ("scontrol -a show -o node " +:+ nodespec) None])%list).
Proof.
  intros Hinfo Hcount Hquiet. cbv zeta.
  remember (sacct_update jobs_info job w st) as out eqn:Hout.
  unfold sacct_update, bind at 1, get_job at 1 in Hout. cbn iota in Hout.
  rewrite Hinfo in Hout.
  unfold bind at 1, modify_job at 1 in Hout. cbn iota in Hout.
  set (st1 := {| heap := _; sched := sched st; trace := trace st |}) in Hout.
  unfold bind at 1, get_sched at 1 in Hout. cbn iota in Hout.
  change (sched st1) with (sched st) in Hout.
  unfold bind at 1, book at 1 in Hout. rewrite Hcount in Hout.
  unfold ret at 1 in Hout. cbn iota in Hout.
  assert (Hskip : (if n mod SACCT_SQUEUE_RATIO =? 0
                   then _cancel_if_blocked job else ret tt) w st1
                  = (Ok tt, st1)).
  { destruct (n mod SACCT_SQUEUE_RATIO =? 0) eqn:Hn; [|reflexivity].
    apply _cancel_if_blocked_skips.
    destruct Hquiet as [Hq|[Hq|Hq]].
    - apply Z.eqb_eq in Hn. contradiction.
    - by left.
    - right. subst st1. cbn [heap]. rewrite lookup_total_insert_eq.
      exact Hq. }
  unfold bind at 1 in Hout. rewrite Hskip in Hout.
  unfold bind at 1, get_job at 1 in Hout. cbn iota in Hout.
  destruct (slurm_state_completed (state (heap st1 !!! job))).
  - unfold bind at 1 in Hout. unfold bind at 1, lift at 1 in Hout.
    destruct (py_max _) as [worst|e];
      [|subst out; split; [reflexivity|left; reflexivity]].
    unfold modify_job at 1 in Hout.
    match type of Hout with
    | _ = _set_nodelist job ?spec w ?s =>
        destruct (_set_nodelist_runs job spec w s) as [Hs Ht]
    end.
    subst out. split; [exact Hs|exact Ht].
  - unfold bind at 1, ret at 1 in Hout.
    match type of Hout with
    | _ = _set_nodelist job ?spec w ?s =>
        destruct (_set_nodelist_runs job spec w s) as [Hs Ht]
    end.
    subst out. split; [exact Hs|exact Ht].
Qed.

(** X13. The sacct poll asks squeue for the reason of a pending job, and
    may cancel it, only at every tenth poll of the job: when the poll
    count is no multiple of ten, or the job is already being cancelled,
    or its new state is not pending, the update of the job runs no
    squeue and no scancel. It leaves the scheduler as it was and runs at
    most the node query that sets the node list. *)
Theorem sacct_update_quiet (w : World) (st : State)
    (jobs_info : gmap Z (list Re.Match)) (job : nat)
    (lines : list Re.Match) (n : Z) :
  info_of jobs_info (heap st !!! job) = Some lines ->
  _update_state_count (sched st) !! job = Some n ->
  n mod SACCT_SQUEUE_RATIO <> 0 \/ job ∈ _is_cancelling (sched st) \/
  slurm_state_pending (Some (joined_state lines)) = false ->
  let st' := (sacct_update jobs_info job w st).2 in
  let nodespec := Py.join "," (map (fun m => group_ m "nodespec") lines) in
  sched st' = sched st /\
  (trace st' = trace st \/
   trace st' = (trace st
                ++ [EvRun ("scontrol -a show -o node " +:+ nodespec) None])%list).
Proof. apply sacct_update_quiet_core. Qed.

(** The poll count of a job changes in one place. *)
#[local] Hint Resolve counts_same_refl : frames.

#[local] Hint Extern 4 (always counts_same _) =>
  apply sched_same_counts_same; solve [auto with frames] : frames.

Lemma counts_same_cancel job : always counts_same (cancel job).
Proof.
  intros w st.
  unfold counts_same, cancel, SqueueJobScheduler_cancel,
    SlurmJobScheduler_cancel, bind, get_sched, get_job, _run_strict,
    run_command, put_sched.
  cbv beta iota.
  destruct (backend (sched st));
    (destruct (exec w (trace st) _ _) as [c|]; [|reflexivity]);
    cbn [andb]; by destruct (negb (returncode c =? 0)).
Qed.

#[local] Hint Resolve counts_same_cancel : frames.

Lemma counts_same__check_and_cancel job reason_descr :
  always counts_same (_check_and_cancel job reason_descr).
Proof. unfold _check_and_cancel. frame. Qed.

#[local] Hint Resolve counts_same__check_and_cancel : frames.

Lemma counts_same__cancel_if_blocked job :
  always counts_same (_cancel_if_blocked job).
Proof. unfold _cancel_if_blocked, _run_strict. frame. Qed.

Lemma counts_same__set_nodelist job nodespec :
  always counts_same (_set_nodelist job nodespec).
Proof. unfold _set_nodelist. frame. Qed.

#[local] Hint Resolve counts_same__cancel_if_blocked
  counts_same__set_nodelist : frames.

Lemma counts_same_sacct_update info job :
  always counts_same (sacct_update info job).
Proof. unfold sacct_update. frame. Qed.

(** X14. Polls of one job, as [wait] makes them, count: each sacct poll
    whose sacct command succeeds adds one to the poll count of the job,
    at every count. Unless the new count is a multiple of ten, the poll
    runs sacct and at most the node query that sets the node list,
    cancels nothing and changes nothing else in the scheduler. With the
    zero that [submit] sets, the first nine polls of a job never ask
    squeue. *)
Theorem sacct_poll_between_tenths (w : World) (st : State) (job : nat)
    (n t : Z) (c : CompletedProcess) :
  let j := heap st !!! job in
  let cmd := "sacct -S " +:+ strftime_F w t +:+ " -P -j "
             +:+ str_of_jobid (jobid j)
             +:+ " -o jobid,state,exitcode,nodelist" in
  _submit_time (sched st) !! job = Some t ->
  _update_state_count (sched st) !! job = Some n ->
  exec w (trace st) cmd None = Exited c -> returncode c = 0 ->
  let st' := (SlurmJobScheduler_poll [job] w st).2 in
  _update_state_count (sched st')
  = <[job := n + 1]> (_update_state_count (sched st)) /\
  ((n + 1) mod SACCT_SQUEUE_RATIO <> 0 ->
   sched st' = with_books (sched st) (_is_cancelling (sched st))
                 (_is_job_array (sched st))
                 (<[job := n + 1]> (_update_state_count (sched st)))
                 (_submit_time (sched st)) (_cancelled (sched st)) /\
   exists tl,
     trace st' = (trace st ++ EvRun cmd None :: tl)%list /\
     (tl = [] \/
      exists nodespec,
        tl = [EvRun ("scontrol -a show -o node " +:+ nodespec) None])).
Proof.
  intros j cmd Ht Hn Hexec Hrc. cbv zeta.
  remember (SlurmJobScheduler_poll [job] w st) as out eqn:Hout.
  unfold SlurmJobScheduler_poll in Hout.
  unfold bind at 1, get_sched at 1 in Hout. cbn iota in Hout.
  unfold bind at 1 in Hout.
  rewrite (books_found _ [job] [t] w st) in Hout
    by (constructor; [exact Ht|constructor]).
  unfold bind at 1, lift at 1, py_min in Hout. cbn [fold_left] in Hout.
  unfold bind at 1 in Hout. cbv beta iota in Hout.
  change (Py.join "," (map (fun job0 => str_of_jobid (jobid (heap st !!! job0)))
                           [job]))
    with (str_of_jobid (jobid j)) in Hout.
  fold cmd in Hout.
  unfold bind at 1, _run_strict, run_command in Hout.
  fold cmd in Hout. rewrite Hexec, Hrc in Hout. cbn [Z.eqb negb andb] in Hout.
  set (s1 := {| heap := heap st; sched := sched st;
                trace := (trace st ++ [EvRun cmd None])%list |}) in Hout.
  cbn [for_each] in Hout.
  unfold bind, get_sched, book, put_sched, ret in Hout.
  cbv beta iota in Hout. change (sched s1) with (sched st) in Hout.
  rewrite Hn in Hout. cbv beta iota in Hout.
  set (self' := with_books (sched st) (_is_cancelling (sched st))
                  (_is_job_array (sched st))
                  (<[job := n + 1]> (_update_state_count (sched st)))
                  (_submit_time (sched st)) (_cancelled (sched st))) in *.
  set (s2 := {| heap := heap s1; sched := self'; trace := trace s1 |}) in Hout.
  destruct (Re.finditer sacct_patt (stdout_of c)) as [|m ms] eqn:Hms.
  { subst out. split; [reflexivity|]. intros _. split; [reflexivity|].
    exists []. split; [reflexivity|by left]. }
  set (info := group_matches (m :: ms)) in Hout.
  pose proof (counts_same_sacct_update info job w s2) as Hcount.
  unfold counts_same in Hcount.
  assert (Hquiet : (n + 1) mod SACCT_SQUEUE_RATIO <> 0 ->
                   sched (sacct_update info job w s2).2 = sched s2 /\
                   (trace (sacct_update info job w s2).2 = trace s2 \/
                    exists nodespec,
                      trace (sacct_update info job w s2).2
                      = (trace s2
                         ++ [EvRun ("scontrol -a show -o node " +:+ nodespec)
                               None])%list)).
  { intros Hmod.
    destruct (info_of info (heap s2 !!! job)) as [lines|] eqn:Hinfo.
    - destruct (sacct_update_quiet_core w s2 info job lines (n + 1) Hinfo)
        as [Hs Htr].
      + subst s2 self'. cbn [sched _update_state_count with_books].
        by rewrite lookup_insert_eq.
      + by left.
      + split; [exact Hs|]. destruct Htr as [Htr|Htr]; [by left|].
        right. eexists. exact Htr.
    - assert (Hnone : sacct_update info job w s2 = (Ok tt, s2))
        by (unfold sacct_update, bind at 1, get_job at 1; cbn iota;
            by rewrite Hinfo).
      rewrite Hnone. split; [reflexivity|left; reflexivity]. }
  assert (Hst : out.2 = (sacct_update info job w s2).2).
  { subst out. by destruct (sacct_update info job w s2) as [[[]|e] s3]. }
  rewrite Hst. split; [exact Hcount|].
  intros Hmod. destruct (Hquiet Hmod) as [Hs Htr]. split; [exact Hs|].
  destruct Htr as [Htr|[nodespec Htr]].
  - exists []. split; [|by left]. rewrite Htr. subst s2 s1. cbn [trace].
    reflexivity.
  - exists [EvRun ("scontrol -a show -o node " +:+ nodespec) None].
    split; [|right; by exists nodespec].
    rewrite Htr. subst s2 s1. cbn [trace]. by rewrite <- app_assoc.
Qed.

(** ** Cancelling *)

(** X15. [cancel] marks a job only when scancel has succeeded: with exit
    status zero the job joins [_is_cancelling], and with the squeue back
    end also [_cancelled]; when scancel exits with another status or
    outlives the submit timeout, its error is raised and no set has
    changed. No job object changes in either case. *)
Theorem cancel_marks_on_success (w : World) (st : State) (job : nat) :
  let j := heap st !!! job in
  let self := sched st in
  let timeout := _submit_timeout self in
  let st1 := ran st (EvRun (scancel_cmd j) timeout) in
  cancel job w st
  = match exec w (trace st) (scancel_cmd j) timeout with
    | Exited c =>
        if returncode c =? 0
        then (Ok tt,
              {| heap := heap st;
                 sched := with_books self ({[ job ]} ∪ _is_cancelling self)
                            (_is_job_array self) (_update_state_count self)
                            (_submit_time self)
                            (match backend self with
                             | Sacct => _cancelled self
                             | Squeue => {[ job ]} ∪ _cancelled self
                             end);
                 trace := trace st1 |})
        else (Raise (SpawnedProcessError (scancel_cmd j)), st1)
    | Expired => (Raise (SpawnedProcessTimeout (scancel_cmd j)), st1)
    end.
Proof.
  cbv zeta. unfold cancel, bind at 1, get_sched at 1. cbn iota.
  assert (Hbase : SlurmJobScheduler_cancel job w st
                  = match exec w (trace st) (scancel_cmd (heap st !!! job))
                            (_submit_timeout (sched st)) with
                    | Exited c =>
                        if returncode c =? 0
                        then (Ok tt,
                              {| heap := heap st;
                                 sched :=
                                   with_books (sched st)
                                     ({[ job ]} ∪ _is_cancelling (sched st))
                                     (_is_job_array (sched st))
                                     (_update_state_count (sched st))
                                     (_submit_time (sched st))
                                     (_cancelled (sched st));
                                 trace :=
                                   (trace st
                                    ++ [EvRun (scancel_cmd (heap st !!! job))
                                          (_submit_timeout (sched st))])%list |})
                        else (Raise (SpawnedProcessError
                                       (scancel_cmd (heap st !!! job))),
                              ran st (EvRun (scancel_cmd (heap st !!! job))
                                        (_submit_timeout (sched st))))
                    | Expired =>
                        (Raise (SpawnedProcessTimeout
                                  (scancel_cmd (heap st !!! job))),
                         ran st (EvRun (scancel_cmd (heap st !!! job))
                                   (_submit_timeout (sched st))))
                    end).
  { unfold SlurmJobScheduler_cancel, bind, get_job, get_sched, put_sched,
      _run_strict, run_command, scancel_cmd, ran.
    destruct (exec w (trace st) _ _) as [c|]; [|reflexivity].
    cbn [andb]. by destruct (returncode c =? 0). }
  destruct (backend (sched st)) eqn:Hb.
  - rewrite Hbase. destruct (exec w (trace st) _ _) as [c|]; [|reflexivity].
    by destruct (returncode c =? 0).
  - unfold SqueueJobScheduler_cancel, bind at 1. rewrite Hbase.
    destruct (exec w (trace st) _ _) as [c|]; [|reflexivity].
    by destruct (returncode c =? 0).
Qed.

(** ** The pending limit, not reached *)

(** X16. For a pending job without a stored exception whose pending
    limit is not reached yet, [finished] reads the clock once, cancels
    nothing and answers [False]. *)
Theorem finished_within_limit (w : World) (st : State) (job : nat)
    (d t : Z) :
  let j := heap st !!! job in
  exception j = None ->
  max_pending_time j = Some d -> d <> 0 ->
  slurm_state_pending (state j) = true ->
  _submit_time (sched st) !! job = Some t ->
  clock w (trace st) - t < d ->
  finished job w st = (Ok false, ran st EvNow).
Proof.
  intros j He Hd Hd0 Hp Ht Hlt.
  unfold finished, bind at 1, get_job at 1. cbn iota. fold j. rewrite He.
  unfold bind at 1, ret at 1. cbn iota.
  assert (Hlimit : enforce_max_pending_time job w st = (Ok tt, ran st EvNow)).
  { unfold enforce_max_pending_time, bind at 1, get_job at 1. cbn iota.
    fold j. cbv zeta. rewrite Hd, Hp. cbn [default]. unfold id.
    replace (d =? 0) with false by (symmetry; by apply Z.eqb_neq).
    cbn [negb andb].
    unfold bind at 1, datetime_now at 1. cbn iota.
    unfold bind at 1, get_sched at 1. cbn iota. cbn [sched].
    unfold bind at 1, book at 1. rewrite Ht. unfold ret at 1. cbn iota.
    replace (d <=? clock w (trace st) - t) with false
      by (symmetry; apply Z.leb_gt; lia).
    reflexivity. }
  unfold bind at 1. rewrite Hlimit. unfold bind at 1, get_job at 1.
  cbn iota. unfold ret, ran. cbn [heap]. fold j.
  by rewrite (pending_not_completed _ Hp).
Qed.

(** ** The lines of the preamble *)

Lemma prefixed_line self j (x : string) :
  directive_line self j (_prefix self +:+ " " +:+ x).
Proof.
  left. unfold Py.startswith. rewrite <- append_assoc. apply prefix_app.
Qed.

Lemma _format_option_line self j var option :
  _format_option self var option = EmptyString \/
  directive_line self j (_format_option self var option).
Proof.
  destruct var as [v|]; [right; apply prefixed_line|by left].
Qed.

Lemma Forall_filter_truthy (P : string -> Prop) (l : list string) :
  Forall (fun x => x = EmptyString \/ P x) l ->
  Forall (fun x => x <> EmptyString /\ P x)
         (filter (fun x => Is_true (Py.truthy x)) l).
Proof.
  intros H. apply Forall_forall. intros x Hx.
  apply list_elem_of_filter in Hx as [Ht Hx].
  rewrite Forall_forall in H. destruct (H x Hx) as [->|HP]; [done|].
  split; [|done]. by destruct x.
Qed.

Ltac lines :=
  repeat first
    [ apply Forall_nil_2
    | apply Forall_cons_2; [apply _format_option_line|]
    | apply Forall_app_2 ].

(** X17. Every line of a preamble that [emit_preamble] returns is a
    directive: none is empty, and each begins with the prefix of the
    scheduler and a blank, or is an option of the job with a prefix of
    its own ([#] and word characters) that was passed on unchanged. *)
Theorem preamble_lines_are_directives (w : World) (st st' : State)
    (job : nat) (out : list string) :
  emit_preamble job w st = (Ok out, st') ->
  Forall (fun l => l <> EmptyString /\
                   directive_line (sched st) (heap st !!! job) l) out.
Proof.
  intros H. unfold emit_preamble in H.
  apply bind_ok in H as (j0 & s0 & H0 & H). apply get_job_ok in H0 as [-> ->].
  set (j := heap st !!! job) in *.
  apply bind_ok in H as (self0 & s1 & H1 & H). apply get_sched_ok in H1 as [-> ->].
  set (self := sched st) in *. cbv zeta in H.
  apply bind_ok in H as (arr1 & s2 & _ & H).
  apply bind_ok in H as (arr2 & s3 & _ & H).
  apply bind_ok in H as (preamble & s4 & Hnodes & H).
  apply bind_ok in H as (nsa & s5 & _ & H).
  apply bind_ok in H as (nsb & s6 & _ & H).
  apply ret_ok in H as [-> _].
  apply Forall_filter_truthy.
  assert (Hpre : Forall (fun x => x = EmptyString \/ directive_line self j x)
                        preamble).
  { destruct (_use_nodes_opt self).
    - destruct (num_tasks j) as [n|]; [|discriminate].
      destruct (num_tasks_per_node j) as [d|]; [|discriminate].
      destruct (d =? 0); [discriminate|].
      apply ret_ok in Hnodes as [-> _].
      destruct (sched_exclusive_access j) as [[|]|];
        destruct (time_limit j) as [t|];
        try destruct (seconds_to_hms t) as [[h m] s]; lines.
    - apply ret_ok in Hnodes as [-> _].
      destruct (sched_exclusive_access j) as [[|]|];
        destruct (time_limit j) as [t|];
        try destruct (seconds_to_hms t) as [[h m] s]; lines. }
  assert (Haccess : forall opts : list string,
            Forall (fun x => x = EmptyString \/ directive_line self j x)
                   (map (fun opt => _prefix self +:+ " " +:+ opt) opts)).
  { intros opts. apply Forall_forall. intros x Hx.
    apply list_elem_of_In, in_map_iff in Hx as (opt & <- & _).
    right. apply prefixed_line. }
  assert (Hopts : Forall (fun x => x = EmptyString \/ directive_line self j x)
                    (map (fun opt =>
                            match Re.match_ prefix_patt opt with
                            | None => _prefix self +:+ " " +:+ opt
                            | Some _ => opt
                            end)
                         (filter (fun opt =>
                                    Is_true (negb (is_constraint_opt opt)))
                                 (options j)))).
  { apply Forall_forall. intros x Hx.
    apply list_elem_of_In, in_map_iff in Hx as (opt & <- & Hopt).
    apply list_elem_of_In, list_elem_of_filter in Hopt as [_ Hopt].
    right. destruct (Re.match_ prefix_patt opt) eqn:Hm;
      [|apply prefixed_line].
    right. split; [by apply list_elem_of_In|]. by rewrite Hm. }
  destruct (stripped_if_set (nsa !! "constraint")
            ++ stripped_if_set (nsb !! "constraint"))%list;
    repeat first [ exact Hpre | exact Hopts | apply Haccess
                 | apply Forall_nil_2
                 | apply Forall_cons_2; [apply _format_option_line|]
                 | apply Forall_app_2 ].
Qed.

(** ** The node list and the exclusion of the node filter *)

(** X18. By node name, the node-list step of the node filter keeps
    exactly the nodes that the node query returns for the stripped value,
    and the exclusion step drops exactly those; the query is the only
    command run. *)
Theorem filter_by_names (v : string) (nodes : NodeSet) (w : World)
    (st : State) :
  Py.truthy v = true ->
  let query := _get_nodes_by_name (Py.strip v) w st in
  forall found, query.1 = Ok found ->
    (exists kept, filter_nodelist (Some (Argparse.VStr v)) nodes w st
                  = (Ok kept, query.2) /\
                  dom kept = dom nodes ∩ dom found) /\
    (exists left, filter_exclude (Some (Argparse.VStr v)) nodes w st
                  = (Ok left, query.2) /\
                  dom left = dom nodes ∖ dom found).
Proof.
  intros Hv query found Hq. subst query.
  destruct (_get_nodes_by_name (Py.strip v) w st) as [r s1] eqn:Hquery.
  cbn [fst snd] in *. subst r.
  unfold filter_nodelist, filter_exclude, if_set. rewrite Hv.
  split; eexists; (split; [by rewrite (bind_eq _ _ _ _ _ _ Hquery)|]).
  - apply dom_set_iand.
  - apply dom_set_isub.
Qed.

(** ** The states of a node *)

Lemma upper_app (a b : string) : Py.upper (a +:+ b) = Py.upper a +:+ Py.upper b.
Proof. induction a as [|c a IH]; [done|]. rewrite !append_cons. simpl. by rewrite IH. Qed.

Lemma upper_char_idemp (c : ascii) : Py.upper_char (Py.upper_char c) = Py.upper_char c.
Proof. destruct c as [[] [] [] [] [] [] [] []]; reflexivity. Qed.

Lemma upper_idemp (s : string) : Py.upper (Py.upper s) = Py.upper s.
Proof.
  induction s as [|c s IH]; [done|]. simpl. by rewrite upper_char_idemp, IH.
Qed.

(** X19. [in_state] reads a state made with [+] as the conjunction of
    its parts, and takes the state in either case of the letters. *)
Theorem in_state_conjunction (n : Node) (a b : string) :
  in_state n (a +:+ "+" +:+ b) = in_state n a && in_state n b /\
  in_state n (Py.upper a) = in_state n a.
Proof.
  split; [|unfold in_state; by rewrite upper_idemp].
  unfold in_state. rewrite upper_app.
  change (Py.upper ("+" +:+ b)) with (String "+" (Py.upper b)).
  rewrite split_app_sep, list_to_set_app_L.
  assert (Hsplit : bool_decide
                     (list_to_set (Py.split "+" (Py.upper a))
                      ∪ list_to_set (Py.split "+" (Py.upper b)) ⊆ _states n)
                   = bool_decide (list_to_set (Py.split "+" (Py.upper a))
                                  ⊆@{gset string} _states n)
                     && bool_decide (list_to_set (Py.split "+" (Py.upper b))
                                     ⊆@{gset string} _states n)).
  { rewrite <- bool_decide_and. apply bool_decide_ext. set_solver. }
  rewrite Hsplit.
  destruct (bool_decide (list_to_set (Py.split "+" (Py.upper a)) ⊆ _states n)),
    (bool_decide (list_to_set (Py.split "+" (Py.upper b)) ⊆ _states n)),
    (bool_decide (_partitions n ≠ ∅)), (bool_decide (_active_features n ≠ ∅)),
    (bool_decide (_states n ≠ ∅)); reflexivity.
Qed.

(** X20. A node whose description gives no partitions, no active
    features or no state is in no state, whatever state is asked for,
    and it is not down if the state is what is missing. *)
Theorem in_state_needs_attributes (node_descr : string) (n : Node) :
  _SlurmNode node_descr = Ok n ->
  _extract_attribute "Partitions" node_descr = None \/
  _extract_attribute "ActiveFeatures" node_descr = None \/
  _extract_attribute "State" node_descr = None ->
  (forall state, in_state n state = false) /\
  (_extract_attribute "State" node_descr = None -> is_down n = false).
Proof.
  intros Hn Hmissing. unfold _SlurmNode in Hn.
  destruct (_extract_attribute "NodeName" node_descr) as [name|];
    [|discriminate].
  destruct (Py.truthy name); [|discriminate]. injection Hn as <-.
  unfold in_state, is_down, _extract_attribute_set. cbn [_partitions
    _active_features _states]. split.
  - intros state. destruct Hmissing as [-> | [-> | ->]]; cbn [default].
    + rewrite (bool_decide_eq_false_2 (∅ ≠ ∅)) by (intros H; by apply H).
      by rewrite andb_false_r.
    + rewrite (bool_decide_eq_false_2 (∅ ≠ ∅)) by (intros H; by apply H).
      by rewrite andb_false_r.
    + rewrite (bool_decide_eq_false_2 (∅ ≠ ∅)) by (intros H; by apply H).
      by rewrite andb_false_r.
  - intros ->. cbn [default]. apply bool_decide_eq_false_2.
    intros H. apply H. set_solver.
Qed.

(** ** The nodes of a reservation *)

Lemma substring_app_key (key s : string) (n : nat) :
  String.substring 0 (String.length key + n) (key +:+ s)
  = key +:+ String.substring 0 n s.
Proof.
  induction key as [|a key IH]; [done|]. rewrite !append_cons.
  cbn [String.length Nat.add String.substring]. by rewrite IH.
Qed.

Lemma prefix_length (key s : string) :
  String.prefix key s = true -> (String.length key <= String.length s)%nat.
Proof.
  revert s. induction key as [|a key IH]; intros s H; [simpl; lia|].
  destruct s as [|b s]; [discriminate|]. simpl in H |- *.
  destruct (Ascii.ascii_dec a b); [|discriminate]. apply IH in H. lia.
Qed.

Lemma match_at_keyed_group key g p c :
  option_map (fun m => Re.group m g) (Re.match_at (keyed_group_patt key g p) c)
  = option_map (fun v => Some (key +:+ v))
               (value_after key p (Re.cur_rest c)).
Proof.
  unfold Re.match_at, keyed_group_patt, value_after.
  set (c0 := {| Re.cur_prev := Re.cur_prev c; Re.cur_rest := Re.cur_rest c;
                Re.cur_pos := Re.cur_pos c; Re.cur_groups := [] |}).
  change (Re.rmatch (Re.Group g ?r) Some c0)
    with (Re.rmatch r (fun c' => Some (Re.close_group g c0 c')) c0).
  change (Re.rmatch (Re.Seq ?a ?b) ?k c0)
    with (Re.rmatch a (Re.rmatch b k) c0).
  change (Re.rmatch (Re.Lit key) ?k c0)
    with (if String.prefix key (Re.cur_rest c0)
          then k (Re.advance (String.length key) c0) else None).
  cbn [Re.cur_rest c0].
  destruct (String.prefix key (Re.cur_rest c)) eqn:Hpre; [|done].
  set (c1 := Re.advance (String.length key) c0).
  assert (Hrest : Re.cur_rest c1
                  = string_drop (String.length key) (Re.cur_rest c)).
  { unfold c1. by rewrite advance_rest. }
  assert (Hpos : Re.cur_pos c1 = (Re.cur_pos c + String.length key)%nat).
  { unfold c1. rewrite advance_pos; [done|]. by apply prefix_length. }
  rewrite <- Hrest.
  rewrite rmatch_plus_chr by done.
  destruct (take_while p (Re.cur_rest c1)) as [|a v] eqn:Hv; [done|].
  rewrite <- Hv. clear a v Hv.
  pose proof (take_while_length p (Re.cur_rest c1)) as Hn.
  simpl. unfold Re.group. simpl. rewrite String.eqb_refl.
  rewrite advance_pos by done. rewrite Hpos.
  replace (Re.cur_pos c + String.length key
           + String.length (take_while p (Re.cur_rest c1)) - Re.cur_pos c)%nat
    with (String.length key
          + String.length (take_while p (Re.cur_rest c1)))%nat by lia.
  rewrite (prefix_drop _ _ Hpre) at 1. rewrite substring_app_key.
  rewrite <- Hrest. by rewrite substring_take_while.
Qed.

Lemma search_from_keyed_group key g p fuel c :
  (String.length (Re.cur_rest c) <= fuel)%nat ->
  option_map (fun m => Re.group m g)
             (Re.search_from (keyed_group_patt key g p) fuel c)
  = option_map (fun v => Some (key +:+ v)) (find_value key p (Re.cur_rest c)).
Proof.
  revert c. induction fuel as [|fuel IH]; intros c Hlen;
    rewrite search_from_unfold;
    pose proof (match_at_keyed_group key g p c) as H;
    destruct (Re.cur_rest c) as [|a s'] eqn:E;
    try (simpl in Hlen; lia); simpl find_value;
    destruct (Re.match_at _ c), (value_after key p _);
    simpl in H; try congruence; try done.
  rewrite IH; rewrite (advance_1 c a s' E); cbn [Re.cur_rest];
    [done|simpl in Hlen; lia].
Qed.

Lemma search_keyed_group key g p s :
  option_map (fun m => Re.group m g) (Re.search (keyed_group_patt key g p) s)
  = option_map (fun v => Some (key +:+ v)) (find_value key p s).
Proof. unfold Re.search. by rewrite search_from_keyed_group. Qed.

(** X21. [_get_reservation_nodes] lists the reservation and reads the
    first place of the output where [Nodes=] is followed by characters
    that are no blanks. Without such a place it raises [JobError] with
    the name of the reservation; with one, it lists exactly these nodes
    with a second command, whose failure is raised as it is, and returns
    the nodes made of the lines of its output. *)
Theorem reservation_nodes_query (w : World) (st : State)
    (reservation : string) (c : CompletedProcess) :
  let cmd := "scontrol -a show res " +:+ reservation in
  let st1 := ran st (EvRun cmd None) in
  exec w (trace st) cmd None = Exited c -> returncode c = 0 ->
  _get_reservation_nodes reservation w st
  = match find_value "Nodes=" nonspace (stdout_of c) with
    | None =>
        (Raise (JobError ("could not extract the node names for reservation '"
                          +:+ reservation +:+ "'") None), st1)
    | Some v =>
        let cmd2 := "scontrol -a show -o Nodes=" +:+ v in
        let st2 := ran st1 (EvRun cmd2 None) in
        match exec w (trace st1) cmd2 None with
        | Exited c2 =>
            if returncode c2 =? 0
            then (Ok (_create_nodes (Py.splitlines (stdout_of c2))), st2)
            else (Raise (SpawnedProcessError cmd2), st2)
        | Expired => (Raise (SpawnedProcessTimeout cmd2), st2)
        end
    end.
Proof.
  intros cmd st1 Hexec Hrc.
  unfold _get_reservation_nodes, bind at 1, _run_strict at 1, run_command at 1.
  fold cmd. rewrite Hexec, Hrc. cbn [Z.eqb negb andb]. fold (ran st (EvRun cmd None)).
  fold st1.
  pose proof (search_keyed_group "Nodes=" "1" nonspace (stdout_of c)) as Hs.
  change (keyed_group_patt "Nodes=" "1" nonspace)
    with reservation_nodes_patt in Hs.
  destruct (find_value "Nodes=" nonspace (stdout_of c)) as [v|],
    (Re.search reservation_nodes_patt (stdout_of c)) as [m|];
    simpl in Hs; try discriminate; [|reflexivity].
  injection Hs as Hg. rewrite Hg. cbn [default]. unfold id.
  clear Hexec Hg. cbv zeta.
  unfold bind, _run_strict, run_command, ret, ran. cbv [String.append].
  destruct (exec w _ _ None) as [c2|]; [|reflexivity].
  cbn [andb]. by destruct (returncode c2 =? 0).
Qed.

(** ** The squeue poll on a job that squeue lists *)

(** X22. For a job that squeue lists, the squeue poll sets the state to
    the joined states of its lines and changes nothing else of the job.
    The blocking reasons are looked at only for a job that is not
    pending and not being cancelled: a job that is pending, or being
    cancelled, is never cancelled by this poll, whatever the reason that
    squeue prints, and no command is run for it. *)
Theorem squeue_update_listed_job (w : World) (st : State)
    (jobs_info : gmap Z (list Re.Match)) (job : nat) (lines : list Re.Match) :
  let j := heap st !!! job in
  info_of jobs_info j = Some lines ->
  let out := squeue_update jobs_info job w st in
  let j' := heap out.2 !!! job in
  (state j' = Some (joined_state lines) /\ jobid j' = jobid j /\
   exitcode j' = exitcode j /\ nodelist j' = nodelist j /\
   exception j' = exception j) /\
  (job ∈ _is_cancelling (sched st) \/
   slurm_state_pending (Some (joined_state lines)) = true ->
   out = (Ok tt,
          {| heap := <[job := set_state (Some (joined_state lines)) j]> (heap st);
             sched := sched st; trace := trace st |})).
Proof.
  intros j Hinfo. cbv zeta.
  remember (squeue_update jobs_info job w st) as out eqn:Hout.
  unfold squeue_update, bind at 1, get_job at 1 in Hout. cbn iota in Hout.
  fold j in Hout. rewrite Hinfo in Hout.
  unfold bind at 1, modify_job at 1 in Hout. cbn iota in Hout.
  fold j in Hout. fold (joined_state lines) in Hout.
  set (st1 := {| heap := <[job := set_state (Some (joined_state lines)) j]>
                           (heap st);
                 sched := sched st; trace := trace st |}) in *.
  unfold bind at 1, get_sched at 1 in Hout. cbn iota in Hout.
  unfold bind at 1, get_job at 1 in Hout. cbn iota in Hout.
  assert (Hj1 : heap st1 !!! job = set_state (Some (joined_state lines)) j)
    by (subst st1; cbn [heap]; by rewrite lookup_total_insert_eq).
  rewrite Hj1 in Hout. change (sched st1) with (sched st) in Hout.
  change (state (set_state (Some (joined_state lines)) j))
    with (Some (joined_state lines)) in Hout.
  split.
  - assert (Hheap : heap out.2 = heap st1).
    { destruct (_ && _) in Hout; [|by subst out].
      assert (Hloop : always heap_same
                        (for_each lines
                           (fun s => _check_and_cancel job (group_ s "reason"))))
        by frame.
      specialize (Hloop w st1). rewrite <- Hout in Hloop. exact Hloop. }
    rewrite Hheap, Hj1. done.
  - intros Hskip.
    replace (negb (bool_decide (job ∈ _is_cancelling (sched st)))
             && negb (slurm_state_pending (Some (joined_state lines))))
      with false in Hout; [exact Hout|].
    destruct Hskip as [H|H].
    + by rewrite (bool_decide_eq_true_2 _ H).
    + rewrite H. by rewrite andb_false_r.
Qed.

(** ** Waiting for a job that is complete *)

(** [is_array] in a scheduler whose entries are keyed by job objects. *)
Lemma is_array_fresh (w : World) (st : State) (job : nat) :
  keyed_by_jobs (sched st) ->
  is_array job w st
  = match Argparse.parse_known_args array_parser
            (options (heap st !!! job)) with
    | Ok parsed_args =>
        (Ok (Argparse.truthy (parsed_args !! "array")),
         {| heap := heap st;
            sched :=
              with_books (sched st) (_is_cancelling (sched st))
                (<[inl job := Argparse.truthy (parsed_args !! "array")]>
                   (_is_job_array (sched st)))
                (_update_state_count (sched st))
                (_submit_time (sched st))
                (_cancelled (sched st));
            trace := trace st |})
    | Raise e => (Raise e, st)
    end.
Proof.
  intros Hkeys.
  assert (Hmiss : bool_decide (inr (jobid (heap st !!! job))
                               ∉ dom (_is_job_array (sched st))) = true).
  { apply bool_decide_eq_true. intros Hin.
    by destruct (Hkeys _ Hin) as [job' Hk]. }
  unfold is_array, bind, get_job, get_sched, lift, put_sched.
  cbv beta iota. rewrite Hmiss.
  destruct (Argparse.parse_known_args array_parser
              (options (heap st !!! job))) as [parsed_args|e]; [|reflexivity].
  cbn [sched _is_job_array with_books]. by rewrite lookup_insert_eq.
Qed.

(** X23. [wait] on a job that is complete already makes no poll, reads
    no clock and runs no command, and no job object changes. In a
    scheduler whose [_is_job_array] is keyed by job objects, as the code
    leaves it, [wait] asks [is_array], which parses the options of the
    job again: when the parser rejects them, its error leaves [wait] and
    nothing has changed; otherwise the answer is recorded under the job
    in [_is_job_array], the files are merged if the job is an array, and
    [wait] returns. *)
Theorem wait_quick_return (fuel : nat) (job : nat) (w : World) (st : State) :
  let j := heap st !!! job in
  let self := sched st in
  slurm_state_completed (state j) = true ->
  keyed_by_jobs self ->
  wait fuel job w st
  = match Argparse.parse_known_args array_parser (options j) with
    | Ok parsed_args =>
        let arr := Argparse.truthy (parsed_args !! "array") in
        (Ok true,
         {| heap := heap st;
            sched := with_books self (_is_cancelling self)
                       (<[inl job := arr]> (_is_job_array self))
                       (_update_state_count self) (_submit_time self)
                       (_cancelled self);
            trace := (trace st
                      ++ (if arr
                          then [EvMergeFiles (workdir j) (stdout j) (stderr j)]
                          else []))%list |})
    | Raise e => (Raise e, st)
    end.
Proof.
  intros j self Hc Hkeys. unfold wait. cbv zeta.
  unfold bind at 1, get_job at 1. cbn iota. fold j. rewrite Hc.
  unfold bind at 1. unfold bind at 1.
  rewrite (is_array_fresh w st job Hkeys). fold j self.
  destruct (Argparse.parse_known_args array_parser (options j))
    as [parsed_args|e]; [|reflexivity].
  destruct (Argparse.truthy (parsed_args !! "array")).
  - reflexivity.
  - unfold ret. cbn [trace]. by rewrite app_nil_r.
Qed.

(** ** Which jobs a poll touches *)

Lemma others_kept_refl keep st : others_kept keep st st.
Proof. by intros y. Qed.

Lemma others_kept_trans keep a b c :
  others_kept keep a b -> others_kept keep b c -> others_kept keep a c.
Proof. intros H1 H2 y Hy. by rewrite (H2 y Hy), (H1 y Hy). Qed.

Lemma heap_same_others_kept {A : Type} keep (m : M A) :
  always heap_same m -> always (others_kept keep) m.
Proof. intros H w st y _. by rewrite (H w st). Qed.

Lemma others_kept_modify_job keep job f :
  ~ keep job -> always (others_kept keep) (modify_job job f).
Proof.
  intros Hjob w st y Hy. simpl. rewrite lookup_total_insert_ne; [done|].
  by intros ->.
Qed.

Ltac frame_side ::=
  first [ exact heap_same_refl | exact heap_same_trans
        | exact sched_same_refl | exact sched_same_trans
        | exact trace_grows_refl | exact trace_grows_trans
        | exact nodelist_same_refl | exact nodelist_same_trans
        | exact nodelist_kept_refl | exact nodelist_kept_trans
        | exact (others_kept_refl _) | exact (others_kept_trans _) ].

#[local] Hint Resolve others_kept_refl : frames.

#[local] Hint Extern 2 (always (others_kept _) (modify_job _ _)) =>
  apply others_kept_modify_job; assumption : frames.

#[local] Hint Extern 4 (always (others_kept _) _) =>
  apply heap_same_others_kept; solve [auto with frames] : frames.

Lemma others_kept__set_nodelist keep job nodespec :
  ~ keep job -> always (others_kept keep) (_set_nodelist job nodespec).
Proof. intros Hjob. unfold _set_nodelist. frame. Qed.

#[local] Hint Extern 2 (always (others_kept _) (_set_nodelist _ _)) =>
  apply others_kept__set_nodelist; assumption : frames.

Lemma others_kept_sacct_update keep info job :
  ~ keep job -> always (others_kept keep) (sacct_update info job).
Proof. intros Hjob. unfold sacct_update. frame. Qed.

Lemma others_kept_squeue_update keep info job :
  ~ keep job -> always (others_kept keep) (squeue_update info job).
Proof. intros Hjob. unfold squeue_update. frame. Qed.

Lemma always_for_each_in {A : Type} (R : State -> State -> Prop)
    (l : list A) (body : A -> M unit) :
  (forall st, R st st) -> (forall a b c, R a b -> R b c -> R a c) ->
  (forall x, In x l -> always R (body x)) -> always R (for_each l body).
Proof.
  intros Hrefl Htrans Hb. induction l as [|x l IH]; simpl.
  - by apply always_ret.
  - apply always_bind; [exact Htrans|apply Hb; by left|].
    intros _. apply IH. intros y Hy. apply Hb. by right.
Qed.

(** X24. A poll touches only the jobs it is given: the object of every
    other job is after the poll what it was before, with either back
    end and however the poll ends. *)
Theorem poll_touches_polled_jobs_only (jobs : list nat) (w : World)
    (st : State) (y : nat) :
  ~ In y jobs -> heap (poll jobs w st).2 !!! y = heap st !!! y.
Proof.
  revert w st y.
  change (always (others_kept (fun y => ~ In y jobs)) (poll jobs)).
  assert (Hloop : forall body : nat -> M unit,
            (forall x, ~ ~ In x jobs ->
                       always (others_kept (fun y => ~ In y jobs)) (body x)) ->
            always (others_kept (fun y => ~ In y jobs)) (for_each jobs body)).
  { intros body Hb.
    apply always_for_each_in;
      [exact (others_kept_refl _)|exact (others_kept_trans _)|].
    intros x Hx. apply Hb. tauto. }
  unfold poll. apply always_bind; [exact (others_kept_trans _)|frame|].
  intros self. destruct (backend self).
  - unfold SlurmJobScheduler_poll. destruct jobs as [|job0 jobs0]; [frame|].
    set (jobs := job0 :: jobs0) in *.
    apply always_bind; [exact (others_kept_trans _)|frame|]. intros self0.
    apply always_bind; [exact (others_kept_trans _)|frame|]. intros times.
    apply always_bind; [exact (others_kept_trans _)|frame|]. intros start.
    apply always_bind; [exact (others_kept_trans _)|by intros w st y _|].
    intros jobids.
    apply always_bind; [exact (others_kept_trans _)| |].
    { intros w st y _. cbv beta.
      match goal with
      | |- context [_run_strict ?c None w st] =>
          by rewrite (heap_same__run_strict c None w st)
      end. }
    intros completed.
    apply always_bind; [exact (others_kept_trans _)| |].
    { apply Hloop. intros x _. frame. }
    intros _. destruct (Re.finditer sacct_patt (stdout_of completed));
      [frame|].
    apply Hloop. intros x Hx. by apply others_kept_sacct_update.
  - unfold SqueueJobScheduler_poll. destruct jobs as [|job0 jobs0]; [frame|].
    set (jobs := job0 :: jobs0) in *.
    apply always_bind; [exact (others_kept_trans _)|frame|]. intros self0.
    apply always_bind; [exact (others_kept_trans _)|frame|]. intros times.
    apply always_bind; [exact (others_kept_trans _)|frame|]. intros m.
    apply always_bind; [exact (others_kept_trans _)|frame|]. intros now.
    apply always_bind; [exact (others_kept_trans _)|frame|]. intros _.
    apply always_bind; [exact (others_kept_trans _)|by intros w st y _|].
    intros jobids.
    apply always_bind; [exact (others_kept_trans _)|frame|].
    intros completed.
    apply Hloop. intros x Hx. by apply others_kept_squeue_update.
Qed.

Lemma info_of_unlisted (ms : list Re.Match) (j : Job) :
  (forall m, In m ms -> jobid j <> Some (base_jobid m)) ->
  info_of (group_matches ms) j = None.
Proof.
  intros H. rewrite info_of_lines.
  replace (lines_of ms j) with (@nil Re.Match); [done|].
  symmetry. unfold lines_of. induction ms as [|m ms IH]; [done|].
  rewrite filter_cons_False by (apply H; by left).
  apply IH. intros m' Hm'. apply H. by right.
Qed.

Lemma sacct_loop_unlisted info jobs job w st :
  info_of info (heap st !!! job) = None ->
  heap (for_each jobs (sacct_update info) w st).2 !!! job = heap st !!! job.
Proof.
  revert st. induction jobs as [|x jobs IH]; intros st Hinfo; [done|].
  cbn [for_each]. unfold bind.
  destruct (decide (x = job)) as [->|Hne].
  - assert (Hnone : sacct_update info job w st = (Ok tt, st))
      by (unfold sacct_update, bind at 1, get_job at 1; cbn iota;
          by rewrite Hinfo).
    rewrite Hnone. by apply IH.
  - pose proof (others_kept_sacct_update (fun y => y = job) info x
                  ltac:(congruence) w st job eq_refl) as Hkept.
    destruct (sacct_update info x w st) as [[[]|e] s1]; cbn [snd] in Hkept.
    + rewrite IH by (by rewrite Hkept). exact Hkept.
    + exact Hkept.
Qed.

(** X25. A job that sacct does not list is left alone by the sacct poll:
    when no line of the output has the id of the job as its base job id,
    the object of the job is after the poll what it was before (state,
    exit code and node list included), where the squeue poll would make
    up a final state for it. *)
Theorem sacct_poll_unlisted_job (w : World) (st : State) (job0 : nat)
    (jobs0 : list nat) (times : list Z) (start : Z) (c : CompletedProcess)
    (job : nat) :
  let jobs := job0 :: jobs0 in
  let cmd := "sacct -S " +:+ strftime_F w start +:+ " -P -j "
             +:+ Py.join "," (map (fun x => str_of_jobid (jobid (heap st !!! x)))
                                  jobs)
             +:+ " -o jobid,state,exitcode,nodelist" in
  Forall2 (fun x t => _submit_time (sched st) !! x = Some t) jobs times ->
  py_min times = Ok start ->
  exec w (trace st) cmd None = Exited c ->
  (forall m, In m (Re.finditer sacct_patt (stdout_of c)) ->
             jobid (heap st !!! job) <> Some (base_jobid m)) ->
  heap (SlurmJobScheduler_poll jobs w st).2 !!! job = heap st !!! job.
Proof.
  intros jobs cmd Ht Hmin Hexec Hunlisted.
  remember (SlurmJobScheduler_poll jobs w st) as out eqn:Hout.
  unfold SlurmJobScheduler_poll, jobs in Hout. fold jobs in Hout.
  unfold bind at 1, get_sched at 1 in Hout. cbn iota in Hout.
  unfold bind at 1 in Hout. rewrite (books_found _ _ _ w st Ht) in Hout.
  unfold bind at 1, lift at 1 in Hout. rewrite Hmin in Hout.
  unfold bind at 1 in Hout. cbv beta iota in Hout. fold cmd in Hout.
  unfold bind at 1, _run_strict, run_command in Hout. fold cmd in Hout.
  rewrite Hexec in Hout. cbn [andb] in Hout.
  destruct (negb (returncode c =? 0)); [by subst out|].
  set (s1 := {| heap := heap st; sched := sched st;
                trace := (trace st ++ [EvRun cmd None])%list |}) in Hout.
  unfold bind at 1 in Hout.
  assert (Hcount : always heap_same
                     (for_each jobs
                        (fun job1 =>
                           let* self := get_sched in
                           let* n := book (_update_state_count self) job1 in
                           put_sched
                             (with_books self (_is_cancelling self)
                                (_is_job_array self)
                                (<[job1 := n + 1]> (_update_state_count self))
                                (_submit_time self) (_cancelled self)))))
    by frame.
  specialize (Hcount w s1). unfold heap_same in Hcount.
  destruct (for_each jobs _ w s1) as [[[]|e] s2]; cbn [snd] in Hcount;
    [|subst out; cbn [snd]; by rewrite Hcount].
  change (heap s1) with (heap st) in Hcount.
  destruct (Re.finditer sacct_patt (stdout_of c)) as [|m ms] eqn:Hms;
    [subst out; unfold ret; cbn [snd]; by rewrite Hcount|].
  subst out. rewrite sacct_loop_unlisted; [by rewrite Hcount|].
  rewrite Hcount. by apply info_of_unlisted.
Qed.

(** ** Worked examples of the further properties *)

Lemma is_array_parses_again_witness :
  let w := Example.scripted [] 0 in
  let st0 := Example.submitted Sacct false false
               [Example.requested None None [] ["--array=0-3"] None] in
  let st := (is_array 0 w st0).2 in
  keyed_by_jobs (sched st) /\
  _is_job_array (sched st) !! inl 0%nat = Some true /\
  (is_array 0 w st).1 = Ok true.
Proof.
  intros w st0 st.
  assert (Hp0 : exists ns, Argparse.parse_known_args array_parser
                             (options (heap st0 !!! 0%nat)) = Ok ns /\
                           Argparse.truthy (ns !! "array") = true)
    by (eexists; split; [vm_compute; reflexivity|vm_compute; reflexivity]).
  destruct Hp0 as (ns & Hp0 & Ht0).
  assert (Hk0 : keyed_by_jobs (sched st0)).
  { intros k Hk. change (_is_job_array (sched st0)) with (∅ : gmap pykey bool) in Hk.
    rewrite dom_empty in Hk. by apply elem_of_empty in Hk. }
  pose proof (is_array_parses_again w st0 0%nat Hk0) as H0.
  cbv zeta in H0. rewrite Hp0 in H0. destruct H0 as [Hrun0 Hk].
  set (st1 := {| heap := heap st0;
                 sched := with_books (sched st0)
                            (_is_cancelling (sched st0))
                            (<[inl 0%nat := Argparse.truthy (ns !! "array")]>
                               (_is_job_array (sched st0)))
                            (_update_state_count (sched st0))
                            (_submit_time (sched st0))
                            (_cancelled (sched st0));
                 trace := trace st0 |}) in *.
  assert (Hst : st = st1) by (unfold st; by rewrite Hrun0).
  clearbody st. subst st. change (keyed_by_jobs (sched st1)) in Hk.
  split; [exact Hk|].
  split; [subst st1; cbn [sched _is_job_array with_books];
          by rewrite lookup_insert_eq, Ht0|].
  pose proof (is_array_parses_again w st1 0%nat Hk) as H1.
  cbv zeta in H1. change (heap st1) with (heap st0) in H1.
  rewrite Hp0 in H1. destruct H1 as [Hrun1 _].
  rewrite Hrun1. cbn [fst]. by rewrite Ht0.
Defined.

Lemma submit_failure_witness :
  let w := Example.scripted [("sbatch", ("sbatch: error", 1))] 0 in
  let st := Example.submitted Sacct false false
              [Example.requested None None [] [] None] in
  let cmd := "sbatch " +:+ script_filename (heap st !!! 0%nat) in
  let timeout := _submit_timeout (sched st) in
  exec w (trace st) cmd timeout
  = Exited {| stdout_of := "sbatch: error"; returncode := 1 |} /\
  submit 0 w st
  = (Raise (SpawnedProcessError cmd), ran st (EvRun cmd timeout)).
Proof.
  intros w st cmd timeout.
  assert (Hexec : exec w (trace st) cmd timeout
                  = Exited {| stdout_of := "sbatch: error"; returncode := 1 |})
    by (vm_compute; reflexivity).
  split; [exact Hexec|].
  apply (proj1 (submit_failure w st 0%nat)). vm_compute. discriminate.
Defined.

Lemma poll_unsubmitted_job_witness :
  let w := Example.scripted [] 0 in
  let st := Example.submitted Sacct false false
              [Example.requested None None [] [] None] in
  (In 7%nat [0%nat; 7%nat] /\ _submit_time (sched st) !! 7%nat = None) /\
  poll [0%nat; 7%nat] w st = (Raise KeyError, st).
Proof.
  intros w st.
  assert (Hin : In 7%nat [0%nat; 7%nat]) by (simpl; tauto).
  assert (Hd : _submit_time (sched st) !! 7%nat = None)
    by (vm_compute; reflexivity).
  split; [split; [exact Hin|exact Hd]|].
  exact (poll_unsubmitted_job w st [0%nat; 7%nat] 7%nat Hin Hd).
Defined.

Lemma finished_stored_exception_witness :
  let w := Example.scripted [] 0 in
  let e := JobError "spawned process failed" None in
  let st := Example.submitted Sacct false false
              [set_exception (Some e)
                 (Example.running (Example.requested None None [] [] None)
                    42 (Some "PENDING"))] in
  exception (heap st !!! 0%nat) = Some e /\
  (finished 0 w st).1 = Ok false /\
  exception (heap (finished 0 w st).2 !!! 0%nat) = None.
Proof.
  intros w e st.
  assert (He : exception (heap st !!! 0%nat) = Some e)
    by (vm_compute; reflexivity).
  split; [exact He|].
  destruct (finished_stored_exception w st 0%nat e He) as [Hrun Hnone].
  rewrite Hrun. split; [reflexivity|exact Hnone].
Defined.

Lemma finished_plain_query_witness :
  let w := Example.scripted [] 0 in
  let st := Example.submitted Sacct false false
              [Example.running (Example.requested None None [] [] (Some 5))
                 42 (Some "COMPLETED")] in
  (exception (heap st !!! 0%nat) = None /\
   slurm_state_pending (state (heap st !!! 0%nat)) = false) /\
  finished 0 w st = (Ok true, st).
Proof.
  intros w st.
  assert (He : exception (heap st !!! 0%nat) = None)
    by (vm_compute; reflexivity).
  assert (Hp : slurm_state_pending (state (heap st !!! 0%nat)) = false)
    by (vm_compute; reflexivity).
  assert (Hc : slurm_state_completed (state (heap st !!! 0%nat)) = true)
    by (vm_compute; reflexivity).
  split; [split; [exact He|exact Hp]|].
  rewrite <- Hc.
  exact (finished_plain_query w st 0%nat He (or_intror (or_intror Hp))).
Defined.

Lemma finished_within_limit_witness :
  let w := Example.scripted [] 3000000 in
  let st := Example.submitted Sacct false false
              [Example.running
                 (Example.requested None None [] [] (Some 5000000))
                 42 (Some "PENDING")] in
  (exception (heap st !!! 0%nat) = None /\
   max_pending_time (heap st !!! 0%nat) = Some 5000000 /\
   slurm_state_pending (state (heap st !!! 0%nat)) = true /\
   _submit_time (sched st) !! 0%nat = Some 0 /\
   clock w (trace st) - 0 < 5000000) /\
  finished 0 w st = (Ok false, ran st EvNow).
Proof.
  intros w st.
  assert (He : exception (heap st !!! 0%nat) = None)
    by (vm_compute; reflexivity).
  assert (Hd : max_pending_time (heap st !!! 0%nat) = Some 5000000)
    by (vm_compute; reflexivity).
  assert (Hp : slurm_state_pending (state (heap st !!! 0%nat)) = true)
    by (vm_compute; reflexivity).
  assert (Ht : _submit_time (sched st) !! 0%nat = Some 0)
    by (vm_compute; reflexivity).
  assert (Hlt : clock w (trace st) - 0 < 5000000)
    by (vm_compute; reflexivity).
  split; [repeat split; assumption|].
  refine (finished_within_limit w st 0%nat 5000000 0 He Hd _ Hp Ht Hlt).
  discriminate.
Defined.

Lemma wait_returns_completed_witness :
  let w := Example.scripted
             [(EmptyString, ("42|COMPLETED|0:0|nid01", 0))] 0 in
  let st := Example.submitted Sacct false false
              [Example.running (Example.requested None None [] [] None)
                 42 (Some "RUNNING")] in
  let out := wait 3 0 w st in
  out = (Ok true, out.2) /\
  slurm_state_completed (state (heap out.2 !!! 0%nat)) = true.
Proof.
  intros w st out.
  assert (Hrun : out = (Ok true, out.2)) by (vm_compute; reflexivity).
  split; [exact Hrun|].
  exact (wait_returns_completed 3 0%nat w st out.2 Hrun).
Defined.

Lemma wait_quick_return_witness :
  let w := Example.scripted [] 0 in
  let st := Example.submitted Sacct false false
              [Example.running
                 (Example.requested None None [] ["--array=0-3"] None)
                 42 (Some "COMPLETED")] in
  (slurm_state_completed (state (heap st !!! 0%nat)) = true /\
   keyed_by_jobs (sched st)) /\
  (wait 3 0 w st).1 = Ok true /\
  heap (wait 3 0 w st).2 = heap st /\
  _is_job_array (sched (wait 3 0 w st).2) !! inl 0%nat = Some true /\
  trace (wait 3 0 w st).2 = [EvMergeFiles "/w" (Some "/w/out") (Some "/w/err")].
Proof.
  intros w st.
  assert (Hc : slurm_state_completed (state (heap st !!! 0%nat)) = true)
    by (vm_compute; reflexivity).
  assert (Hk : keyed_by_jobs (sched st)).
  { intros k Hk. change (_is_job_array (sched st)) with (∅ : gmap pykey bool) in Hk.
    rewrite dom_empty in Hk. by apply elem_of_empty in Hk. }
  split; [split; [exact Hc|exact Hk]|].
  rewrite (wait_quick_return 3 0%nat w st Hc Hk).
  vm_compute. done.
Defined.

Lemma sacct_poll_sets_nodelist_once_witness :
  let w := Example.scripted
             [(EmptyString, ("42|COMPLETED|0:0|nid01", 0))] 0 in
  let st := Example.submitted Sacct false false
              [set_nodelist (Some ["nid09"])
                 (Example.running (Example.requested None None [] [] None)
                    42 (Some "RUNNING"))] in
  nodelist (heap st !!! 0%nat) = Some ["nid09"] /\
  nodelist (heap (SlurmJobScheduler_poll [0%nat] w st).2 !!! 0%nat)
  = Some ["nid09"].
Proof.
  intros w st.
  assert (H : nodelist (heap st !!! 0%nat) = Some ["nid09"])
    by (vm_compute; reflexivity).
  split; [exact H|].
  exact (sacct_poll_sets_nodelist_once [0%nat] w st 0%nat ["nid09"] H).
Defined.

Lemma sacct_update_quiet_witness :
  let w := Example.scripted [] 0 in
  let st0 := Example.submitted Sacct false false
               [Example.running (Example.requested None None [] [] None)
                  42 (Some "PENDING")] in
  let st := {| heap := heap st0;
               sched := with_books (sched st0) ∅ ∅ {[ 0%nat := 3 ]}
                          (_submit_time (sched st0)) ∅;
               trace := [] |} in
  let jobs_info :=
    group_matches (Re.finditer sacct_patt "42|PENDING|0:0|None assigned") in
  exists lines,
    (info_of jobs_info (heap st !!! 0%nat) = Some lines /\
     _update_state_count (sched st) !! 0%nat = Some 3 /\
     3 mod SACCT_SQUEUE_RATIO <> 0) /\
    sched (sacct_update jobs_info 0 w st).2 = sched st.
Proof.
  intros w st0 st jobs_info.
  assert (Hl : exists lines, info_of jobs_info (heap st !!! 0%nat) = Some lines)
    by (eexists; vm_compute; reflexivity).
  destruct Hl as [lines Hl]. exists lines.
  assert (Hn : _update_state_count (sched st) !! 0%nat = Some 3)
    by (vm_compute; reflexivity).
  assert (Hm : 3 mod SACCT_SQUEUE_RATIO <> 0) by (vm_compute; discriminate).
  split; [repeat split; assumption|].
  exact (proj1 (sacct_update_quiet w st jobs_info 0%nat lines 3 Hl Hn
                  (or_introl Hm))).
Defined.

Lemma squeue_poll_delay_witness :
  let w := Example.scripted [] 500000 in
  let st := Example.submitted Squeue false false
              [Example.running (Example.requested None None [] [] None)
                 42 (Some "PENDING")] in
  (Forall2 (fun job t => _submit_time (sched st) !! job = Some t)
           [0%nat] [0] /\
   py_max [0] = Ok 0) /\
  exists rest,
    trace (SqueueJobScheduler_poll [0%nat] w st).2
    = ([EvNow; EvSleep 1500000;
        EvRun ("squeue -h -j 42 -o " +:+ dquote +:+ "%i|%T|%N|%r" +:+ dquote)
              None] ++ rest)%list /\
    Forall cancelling_event rest.
Proof.
  intros w st.
  assert (Ht : Forall2 (fun job t => _submit_time (sched st) !! job = Some t)
                       [0%nat] [0])
    by (constructor; [vm_compute; reflexivity|constructor]).
  assert (Hm : py_max [0] = Ok 0) by reflexivity.
  split; [split; [exact Ht|exact Hm]|].
  destruct (squeue_poll_delay w st 0%nat [] [0] 0 Ht Hm)
    as (rest & Hrest & Hall & _).
  exists rest. split; [|exact Hall]. rewrite Hrest. vm_compute. reflexivity.
Defined.

Lemma preamble_lines_are_directives_witness :
  let w := Example.scripted [] 0 in
  let st := Example.submitted Sacct false false
              [Example.requested (Some 8) None ["-p debug"]
                 ["#DW jobdw capacity=100GB"; "--mem=120GB"] None] in
  exists out,
    emit_preamble 0 w st = (Ok out, (emit_preamble 0 w st).2) /\
    In "#DW jobdw capacity=100GB" out /\
    Forall (fun l => l <> EmptyString /\
                     directive_line (sched st) (heap st !!! 0%nat) l) out.
Proof.
  intros w st.
  assert (Hr : exists out, (emit_preamble 0 w st).1 = Ok out /\
                           In "#DW jobdw capacity=100GB" out)
    by (eexists; split; [vm_compute; reflexivity|vm_compute; tauto]).
  destruct Hr as (out & Hr & Hin). exists out.
  assert (Hrun : emit_preamble 0 w st = (Ok out, (emit_preamble 0 w st).2))
    by (destruct (emit_preamble 0 w st) as [r s']; cbn [fst snd] in *;
        by subst r).
  split; [exact Hrun|]. split; [exact Hin|].
  exact (preamble_lines_are_directives w st _ 0%nat out Hrun).
Defined.

Lemma filter_by_names_witness :
  let nodes :=
    _create_nodes
      ["NodeName=nid01 State=IDLE Partitions=normal ActiveFeatures=gpu";
       "NodeName=nid02 State=IDLE Partitions=normal ActiveFeatures=mc"] in
  let w := Example.scripted
             [("scontrol -a show -o node nid01",
               ("NodeName=nid01 State=IDLE Partitions=normal", 0))] 0 in
  let st := Example.submitted Sacct false false [] in
  let query := _get_nodes_by_name (Py.strip " nid01") w st in
  exists found,
    (Py.truthy " nid01" = true /\ query.1 = Ok found) /\
    (exists kept, filter_nodelist (Some (Argparse.VStr " nid01")) nodes w st
                  = (Ok kept, query.2) /\
                  dom kept = dom nodes ∩ dom found) /\
    (exists left, filter_exclude (Some (Argparse.VStr " nid01")) nodes w st
                  = (Ok left, query.2) /\
                  dom left = dom nodes ∖ dom found).
Proof.
  intros nodes w st query.
  assert (Hq : exists found, query.1 = Ok found)
    by (eexists; vm_compute; reflexivity).
  destruct Hq as [found Hq]. exists found.
  split; [split; [reflexivity|exact Hq]|].
  exact (filter_by_names " nid01" nodes w st eq_refl found Hq).
Defined.

Lemma in_state_needs_attributes_witness :
  let node_descr := "NodeName=nid01 State=IDLE Partitions=normal" in
  exists n,
    (_SlurmNode node_descr = Ok n /\
     _extract_attribute "ActiveFeatures" node_descr = None) /\
    in_state n "idle" = false.
Proof.
  intros node_descr.
  assert (Hn : exists n, _SlurmNode node_descr = Ok n)
    by (eexists; vm_compute; reflexivity).
  destruct Hn as [n Hn]. exists n.
  assert (Hf : _extract_attribute "ActiveFeatures" node_descr = None)
    by (vm_compute; reflexivity).
  split; [split; [exact Hn|exact Hf]|].
  exact (proj1 (in_state_needs_attributes node_descr n Hn
                  (or_intror (or_introl Hf))) "idle").
Defined.

Lemma reservation_nodes_query_witness :
  let nl := String "010" EmptyString in
  let c := {| stdout_of := "ReservationName=maint StartTime=now Nodes=nid0[1-2] Flags=MAINT";
              returncode := 0 |} in
  let w := Example.scripted
             [("scontrol -a show res", (stdout_of c, returncode c));
              ("scontrol -a show -o Nodes=",
               ("NodeName=nid01 State=MAINT" +:+ nl
                +:+ "NodeName=nid02 State=MAINT" +:+ nl, 0))] 0 in
  let st := Example.submitted Sacct false false [] in
  (exec w (trace st) ("scontrol -a show res " +:+ "maint") None = Exited c /\
   returncode c = 0) /\
  trace (_get_reservation_nodes "maint" w st).2
  = [EvRun "scontrol -a show res maint" None;
     EvRun "scontrol -a show -o Nodes=nid0[1-2]" None].
Proof.
  intros nl c w st.
  assert (Hexec : exec w (trace st) ("scontrol -a show res " +:+ "maint") None
                  = Exited c) by (vm_compute; reflexivity).
  assert (Hrc : returncode c = 0) by reflexivity.
  split; [split; [exact Hexec|exact Hrc]|].
  rewrite (reservation_nodes_query w st "maint" c Hexec Hrc).
  vm_compute. reflexivity.
Defined.

Lemma squeue_update_listed_job_witness :
  let w := Example.scripted [] 0 in
  let st := Example.submitted Squeue false false
              [Example.running (Example.requested None None [] [] None)
                 42 (Some "RUNNING")] in
  let jobs_info :=
    group_matches (Re.finditer squeue_patt "42|PENDING||PartitionDown") in
  exists lines,
    (info_of jobs_info (heap st !!! 0%nat) = Some lines /\
     slurm_state_pending (Some (joined_state lines)) = true) /\
    (squeue_update jobs_info 0 w st).1 = Ok tt /\
    trace (squeue_update jobs_info 0 w st).2 = trace st /\
    state (heap (squeue_update jobs_info 0 w st).2 !!! 0%nat) = Some "PENDING".
Proof.
  intros w st jobs_info.
  assert (Hl : exists lines,
             info_of jobs_info (heap st !!! 0%nat) = Some lines /\
             slurm_state_pending (Some (joined_state lines)) = true /\
             joined_state lines = "PENDING")
    by (eexists; split; [vm_compute; reflexivity|split; vm_compute; reflexivity]).
  destruct Hl as (lines & Hl & Hp & Hj). exists lines.
  split; [split; [exact Hl|exact Hp]|].
  destruct (squeue_update_listed_job w st jobs_info 0%nat lines Hl)
    as [(Hstate & _) Hskip].
  rewrite (Hskip (or_intror Hp)). cbn [fst snd trace heap].
  split; [reflexivity|]. split; [reflexivity|].
  rewrite lookup_total_insert_eq. cbn. by rewrite Hj.
Defined.

Lemma sacct_poll_between_tenths_witness :
  let c := {| stdout_of := "42|PENDING|0:0|None assigned"; returncode := 0 |} in
  let w := Example.scripted [("sacct", (stdout_of c, returncode c))] 0 in
  let st := Example.submitted Sacct false false
              [Example.running (Example.requested None None [] [] None)
                 42 (Some "PENDING")] in
  let cmd := "sacct -S " +:+ strftime_F w 0 +:+ " -P -j "
             +:+ str_of_jobid (jobid (heap st !!! 0%nat))
             +:+ " -o jobid,state,exitcode,nodelist" in
  let st' := (SlurmJobScheduler_poll [0%nat] w st).2 in
  (_submit_time (sched st) !! 0%nat = Some 0 /\
   _update_state_count (sched st) !! 0%nat = Some 0 /\
   exec w (trace st) cmd None = Exited c /\ returncode c = 0) /\
  _update_state_count (sched st') !! 0%nat = Some 1 /\
  trace st' = [EvRun cmd None].
Proof.
  intros c w st cmd st'.
  assert (Ht : _submit_time (sched st) !! 0%nat = Some 0)
    by (vm_compute; reflexivity).
  assert (Hn : _update_state_count (sched st) !! 0%nat = Some 0)
    by (vm_compute; reflexivity).
  assert (Hexec : exec w (trace st) cmd None = Exited c)
    by (vm_compute; reflexivity).
  assert (Hrc : returncode c = 0) by reflexivity.
  split; [repeat split; assumption|].
  destruct (sacct_poll_between_tenths w st 0%nat 0 0 c Ht Hn Hexec Hrc)
    as [Hs _].
  fold st' in Hs. split; [rewrite Hs; vm_compute; reflexivity|].
  vm_compute. reflexivity.
Defined.

Lemma poll_touches_polled_jobs_only_witness :
  let w := Example.scripted
             [(EmptyString, ("42|COMPLETED|0:0|nid01", 0))] 0 in
  let st := Example.submitted Sacct false false
              [Example.running (Example.requested None None [] [] None)
                 42 (Some "RUNNING");
               Example.running (Example.requested None None [] [] None)
                 42 (Some "RUNNING")] in
  ~ In 1%nat [0%nat] /\
  state (heap (poll [0%nat] w st).2 !!! 0%nat) = Some "COMPLETED" /\
  heap (poll [0%nat] w st).2 !!! 1%nat = heap st !!! 1%nat.
Proof.
  intros w st.
  assert (Hout : ~ In 1%nat [0%nat]) by (simpl; intros [H|[]]; discriminate).
  split; [exact Hout|]. split; [vm_compute; reflexivity|].
  exact (poll_touches_polled_jobs_only [0%nat] w st 1%nat Hout).
Defined.

Lemma sacct_poll_unlisted_job_witness :
  let c := {| stdout_of := "43|COMPLETED|0:0|nid01"; returncode := 0 |} in
  let w := Example.scripted [("sacct", (stdout_of c, returncode c))] 0 in
  let st := Example.submitted Sacct false false
              [Example.running (Example.requested None None [] [] None)
                 42 (Some "RUNNING")] in
  let cmd := "sacct -S " +:+ strftime_F w 0 +:+ " -P -j "
             +:+ Py.join ","
                   (map (fun x => str_of_jobid (jobid (heap st !!! x)))
                        [0%nat])
             +:+ " -o jobid,state,exitcode,nodelist" in
  (Forall2 (fun x t => _submit_time (sched st) !! x = Some t) [0%nat] [0] /\
   py_min [0] = Ok 0 /\
   exec w (trace st) cmd None = Exited c /\
   (forall m, In m (Re.finditer sacct_patt (stdout_of c)) ->
              jobid (heap st !!! 0%nat) <> Some (base_jobid m))) /\
  heap (SlurmJobScheduler_poll [0%nat] w st).2 !!! 0%nat = heap st !!! 0%nat.
Proof.
  intros c w st cmd.
  assert (Ht : Forall2 (fun x t => _submit_time (sched st) !! x = Some t)
                       [0%nat] [0])
    by (constructor; [vm_compute; reflexivity|constructor]).
  assert (Hmin : py_min [0] = Ok 0) by reflexivity.
  assert (Hexec : exec w (trace st) cmd None = Exited c)
    by (vm_compute; reflexivity).
  assert (Hother : forall m,
            In m (Re.finditer sacct_patt (stdout_of c)) ->
            jobid (heap st !!! 0%nat) <> Some (base_jobid m)).
  { intros m Hm. vm_compute in Hm. destruct Hm as [<-|[]].
    vm_compute. discriminate. }
  split; [repeat split; assumption|].
  exact (sacct_poll_unlisted_job w st 0%nat [] [0] 0 c 0%nat Ht Hmin Hexec
           Hother).
Defined.
